(** * Figma selection bridge: normalisation, asset pipeline and selection store

    A shallow embedding of the plugin-side code
    ([packages/figma-plugin/code.js]) and of the relay-side store and HTTP
    handlers ([packages/mcp-server/src/store/selectionStore.ts],
    [store/imageStorage.ts], [bridge/server.ts]), with the properties the
    specification states about them.

    JavaScript values are a tagged union; numbers are IEEE-754 doubles
    (primitive floats); a thrown exception is the [Throw] case of [result];
    the relay's asset map and asset directory are finite maps. *)

From Stdlib Require Import String Ascii List ZArith Bool Lia Floats.
From Stdlib Require Import Strings.Byte.
From stdpp Require Import gmap strings.
Import ListNotations.

#[local] Set Warnings "-register-all".

Local Open Scope string_scope.
Local Open Scope list_scope.

(** ** JavaScript values *)

Inductive JsVal : Type :=
| VUndefined
| VNull
| VBool (b : bool)
| VNum (n : float)
| VStr (s : string)
| VSymbol (description : string)
| VBigInt (z : Z)
| VFunction (name : string)
| VArr (items : list JsVal)
| VObj (props : list (string * JsVal)).

(** The result of the [typeof] operator. *)
Inductive JsType : Type :=
| TUndefined | TObject | TBoolean | TNumber | TString | TSymbol | TBigint | TFunction.

Definition typeof (v : JsVal) : JsType :=
  match v with
  | VUndefined => TUndefined
  | VNull => TObject
  | VBool _ => TBoolean
  | VNum _ => TNumber
  | VStr _ => TString
  | VSymbol _ => TSymbol
  | VBigInt _ => TBigint
  | VFunction _ => TFunction
  | VArr _ => TObject
  | VObj _ => TObject
  end.

Definition JsType_eqb (a b : JsType) : bool :=
  match a, b with
  | TUndefined, TUndefined | TObject, TObject | TBoolean, TBoolean
  | TNumber, TNumber | TString, TString | TSymbol, TSymbol
  | TBigint, TBigint | TFunction, TFunction => true
  | _, _ => false
  end.

(** [v === undefined], [v === null], [Array.isArray(v)]. *)
Definition is_undefined (v : JsVal) : bool :=
  match v with VUndefined => true | _ => false end.

Definition is_null (v : JsVal) : bool :=
  match v with VNull => true | _ => false end.

Definition isArray (v : JsVal) : bool :=
  match v with VArr _ => true | _ => false end.

Definition is_symbol (v : JsVal) : bool := JsType_eqb (typeof v) TSymbol.

(** [figma.mixed], the sentinel of the plugin API, is a Symbol. *)
Definition figma_mixed : JsVal := VSymbol "figma.mixed".

(** ToBoolean: the values a condition treats as true. *)
Definition truthy (v : JsVal) : bool :=
  match v with
  | VUndefined | VNull => false
  | VBool b => b
  | VNum n => negb (PrimFloat.is_zero n || PrimFloat.is_nan n)
  | VStr s => negb (String.eqb s "")
  | VBigInt z => negb (Z.eqb z 0)
  | VSymbol _ | VFunction _ | VArr _ | VObj _ => true
  end.

(** ** Value normalizer (code.js, [safe] .. [safeArr]) *)

(** [fallback !== undefined ? fallback : dflt] *)
Definition or_default (fallback dflt : JsVal) : JsVal :=
  if negb (is_undefined fallback) then fallback else dflt.

Definition safe (val fallback : JsVal) : JsVal :=
  if is_null val || is_undefined val then or_default fallback VNull
  else if JsType_eqb (typeof val) TSymbol then or_default fallback VNull
  else val.

Definition safeNum (val fallback : JsVal) : JsVal :=
  let v := safe val VUndefined in
  if JsType_eqb (typeof v) TNumber then v else or_default fallback (VNum 0%float).

Definition safeStr (val fallback : JsVal) : JsVal :=
  let v := safe val VUndefined in
  if JsType_eqb (typeof v) TString then v else or_default fallback (VStr "").

Definition safeBool (val fallback : JsVal) : JsVal :=
  let v := safe val VUndefined in
  if JsType_eqb (typeof v) TBoolean then v else or_default fallback (VBool false).

Definition safeArr (val : JsVal) : JsVal :=
  let v := safe val VUndefined in
  if isArray v then v else VArr [].

(** A value the normalizer treats as missing: [null], [undefined] or a Symbol. *)
Definition absent (v : JsVal) : bool :=
  is_null v || is_undefined v || is_symbol v.

(** ** Image format sniffing (code.js, [detectImageFormat]) *)

(** [bytes[i] === b] on a [Uint8Array]; an index past the end reads
    [undefined], which equals no byte. *)
Definition byte_is (bytes : list byte) (i : nat) (b : byte) : bool :=
  match bytes !! i with
  | Some x => Byte.eqb x b
  | None => false
  end.

(** The argument is [None] when the caller passes [null] or [undefined]. *)
Definition detectImageFormat (bytes : option (list byte)) : string :=
  match bytes with
  | None => "png"
  | Some bs =>
      if Nat.ltb (length bs) 12 then "png"
      else if byte_is bs 0 x89 && byte_is bs 1 x50 && byte_is bs 2 x4e && byte_is bs 3 x47
      then "png"
      else if byte_is bs 0 xff && byte_is bs 1 xd8 then "jpg"
      else if byte_is bs 0 x47 && byte_is bs 1 x49 && byte_is bs 2 x46 then "gif"
      else if byte_is bs 8 x57 && byte_is bs 9 x45 && byte_is bs 10 x42 && byte_is bs 11 x50
      then "webp"
      else "png"
  end.

(** The four signatures, and what it is for an array to carry one at an offset. *)
Definition PNG_MAGIC : list byte := [x89; x50; x4e; x47].
Definition JPEG_SOI : list byte := [xff; xd8].
Definition GIF_HEADER : list byte := [x47; x49; x46].
Definition WEBP_TAG : list byte := [x57; x45; x42; x50].

Definition has_bytes_at (off : nat) (sig bs : list byte) : Prop :=
  take (length sig) (drop off bs) = sig.

Definition starts_with (sig bs : list byte) : Prop := has_bytes_at 0 sig bs.

(** ** Objects, arrays and exceptions *)

(** A plain object: its own properties in insertion order. *)
Abbreviation JsObject := (list (string * JsVal)).

Fixpoint obj_get (o : JsObject) (k : string) : JsVal :=
  match o with
  | [] => VUndefined
  | (k', v) :: rest => if String.eqb k' k then v else obj_get rest k
  end.

Definition obj_has (o : JsObject) (k : string) : bool :=
  existsb (fun kv => String.eqb kv.1 k) o.

(** [o[k] = v]: replace the property in place, or add it at the end. *)
Fixpoint obj_set (o : JsObject) (k : string) (v : JsVal) : JsObject :=
  match o with
  | [] => [(k, v)]
  | (k', v') :: rest =>
      if String.eqb k' k then (k', v) :: rest else (k', v') :: obj_set rest k v
  end.

(** [Object.assign(target, src)] *)
Definition obj_assign (target src : JsObject) : JsObject :=
  fold_left (fun o kv => obj_set o kv.1 kv.2) src target.

(** A computation that may throw. *)
Inductive result (A : Type) : Type :=
| Ok (a : A)
| Throw (error : string).
Arguments Ok {A} a.
Arguments Throw {A} error.

#[global] Instance result_ret : MRet result := fun A a => Ok a.

#[global] Instance result_bind : MBind result :=
  fun A B k r =>
    match r with
    | Ok a => k a
    | Throw e => Throw e
    end.

(** [v.k]: reading a property of [undefined] or [null] throws a TypeError.
    Of the values that are not plain objects only own properties are
    modelled; none of the names the plugin reads ([type], [color], [r], ...)
    is a built-in property of a string, number, array or function. *)
Definition get (v : JsVal) (k : string) : result JsVal :=
  match v with
  | VUndefined | VNull => Throw "TypeError: cannot read properties of undefined or null"
  | VObj o => Ok (obj_get o k)
  | _ => Ok VUndefined
  end.

(** [v.k] for a value already tested to be truthy, where it cannot throw. *)
Definition field (v : JsVal) (k : string) : JsVal :=
  match v with
  | VObj o => obj_get o k
  | _ => VUndefined
  end.

(** [v === 'lit'] *)
Definition str_is (v : JsVal) (lit : string) : bool :=
  match v with
  | VStr s => String.eqb s lit
  | _ => false
  end.

Definition arr_items (v : JsVal) : list JsVal :=
  match v with
  | VArr l => l
  | _ => []
  end.

(** The string held by a value known to be one (else the empty string). *)
Definition str_of (v : JsVal) : string :=
  match v with
  | VStr s => s
  | _ => ""
  end.

(** The number held by a value known to be one (else NaN). *)
Definition num_of (v : JsVal) : float :=
  match v with
  | VNum n => n
  | _ => PrimFloat.nan
  end.

(** ** Numbers *)

(** The double nearest to an integer (ties to even, infinity on overflow). *)
Definition num_of_Z (z : Z) : float := SF2Prim (binary_normalize prec emax z 0 false).

(** [Math.max(a, b)] *)
Definition Math_max (a b : float) : float :=
  if PrimFloat.is_nan a || PrimFloat.is_nan b then PrimFloat.nan
  else if PrimFloat.ltb a b then b
  else if PrimFloat.ltb b a then a
  else if PrimFloat.get_sign a then b else a.

(** [Math.round(x)]: the integer nearest to [x], a half rounding up; [-0] for
    a negative [x] that rounds to zero. *)
Definition Math_round (x : float) : float :=
  match Prim2SF x with
  | S754_finite s m e =>
      if Z.leb 0 e then x
      else
        let q := Z.div (2 * cond_Zopp s (Z.pos m) + 2 ^ (- e)) (2 ^ (1 - e)) in
        if Z.eqb q 0 then (if s then PrimFloat.neg_zero else PrimFloat.zero)
        else num_of_Z q
  | _ => x
  end.

Definition is_digit (c : ascii) : bool :=
  let n := nat_of_ascii c in Nat.leb 48 n && Nat.leb n 57.

(** [s.replace(/[^0-9]/g, '')] *)
Fixpoint digits_only (s : string) : string :=
  match s with
  | EmptyString => EmptyString
  | String c rest => if is_digit c then String c (digits_only rest) else digits_only rest
  end.

Fixpoint decimal_value (acc : Z) (digits : string) : Z :=
  match digits with
  | EmptyString => acc
  | String c rest => decimal_value (10 * acc + (Z.of_nat (nat_of_ascii c) - 48)) rest
  end.

(** [parseInt(digits, 10)] on a non-empty string of decimal digits. *)
Definition parseInt10 (digits : string) : float := num_of_Z (decimal_value 0 digits).

(** ** Plugin configuration (code.js) *)

Definition MAX_TREE_DEPTH : nat := 15.
Definition MAX_IMAGE_SCAN_DEPTH : nat := 30.
Definition MAX_IMAGE_ASSETS : nat := 50.
Definition MAX_VECTOR_ASSETS : nat := 30.
Definition MAX_COMPOSITE_ASSETS : nat := 20.
Definition COMPOSITE_MAX_PX : float := 512.

(** ** Source nodes and snapshots *)

(** A node of the design tool's scene graph: its properties, each of which may
    hold any value (a Symbol where the selection is mixed), and its
    [children], absent on a leaf type and an array of nodes otherwise. *)
Inductive Node : Type :=
  mkNode { node_props : JsObject; node_children : option (list Node) }.

(** [node.k] *)
Definition prop (node : Node) (k : string) : JsVal := obj_get (node_props node) k.

(** A serialized node: the fields set on [base], and its [children] field,
    absent or an array of serialized nodes. *)
Inductive DesignNode : Type :=
  mkDesignNode { design_fields : JsObject; design_children : option (list DesignNode) }.

Definition has_field (d : DesignNode) (k : string) : bool := obj_has (design_fields d) k.

(** ** Node serializer (code.js, [toColor] .. [extractDesignNode]) *)

Definition toColor (c : JsVal) : JsVal :=
  if negb (truthy c) || is_symbol c
  then VObj [("r", VNum 0); ("g", VNum 0); ("b", VNum 0); ("a", VNum 1)]
  else VObj [("r", safeNum (field c "r") (VNum 0));
             ("g", safeNum (field c "g") (VNum 0));
             ("b", safeNum (field c "b") (VNum 0));
             ("a", safeNum (field c "a") (VNum 1))].

(** The callback of [gradientStops.map]: a stop that is [null] or [undefined]
    makes [s.color] throw. *)
Definition extractStop (s : JsVal) : result JsVal :=
  color ← get s "color";
  position ← get s "position";
  Ok (VObj [("color", toColor color); ("position", safeNum position (VNum 0))]).

Definition extractPaint (p : JsVal) : result JsVal :=
  if negb (truthy p) || is_symbol p then Ok VNull
  else
    let base := [("type", safeStr (field p "type") (VStr "SOLID"));
                 ("visible", safeBool (field p "visible") (VBool true));
                 ("opacity", safeNum (field p "opacity") (VNum 1))] in
    if str_is (field p "type") "SOLID" then
      Ok (VObj (obj_assign (obj_assign [] base) [("color", toColor (field p "color"))]))
    else if str_is (field p "type") "GRADIENT_LINEAR" || str_is (field p "type") "GRADIENT_RADIAL"
            || str_is (field p "type") "GRADIENT_ANGULAR"
            || str_is (field p "type") "GRADIENT_DIAMOND" then
      stops ← mapM extractStop (arr_items (safeArr (field p "gradientStops")));
      Ok (VObj (obj_assign (obj_assign [] base) [("gradientStops", VArr stops)]))
    else if str_is (field p "type") "IMAGE" then
      Ok (VObj (obj_assign (obj_assign [] base)
                  [("imageRef", safeStr (field p "imageHash") (VStr ""));
                   ("scaleMode", safeStr (field p "scaleMode") (VStr "FILL"))]))
    else Ok (VObj base).

Definition extractEffect (e : JsVal) : JsVal :=
  if negb (truthy e) || is_symbol e then VNull
  else
    let base := [("type", safeStr (field e "type") (VStr ""));
                 ("visible", safeBool (field e "visible") (VBool true));
                 ("radius", safeNum (field e "radius") (VNum 0))] in
    if str_is (field e "type") "DROP_SHADOW" || str_is (field e "type") "INNER_SHADOW" then
      let offset :=
        if truthy (field e "offset")
        then VObj [("x", safeNum (field (field e "offset") "x") (VNum 0));
                   ("y", safeNum (field (field e "offset") "y") (VNum 0))]
        else VObj [("x", VNum 0); ("y", VNum 0)] in
      VObj (obj_assign (obj_assign [] base)
              [("color", toColor (field e "color")); ("offset", offset);
               ("spread", safeNum (field e "spread") (VNum 0))])
    else VObj base.

Definition extractAutoLayout (node : Node) : JsVal :=
  let mode := safe (prop node "layoutMode") VUndefined in
  if negb (truthy mode) || str_is mode "NONE" then VNull
  else VObj [("mode", mode);
             ("spacing", safeNum (prop node "itemSpacing") (VNum 0));
             ("paddingTop", safeNum (prop node "paddingTop") (VNum 0));
             ("paddingRight", safeNum (prop node "paddingRight") (VNum 0));
             ("paddingBottom", safeNum (prop node "paddingBottom") (VNum 0));
             ("paddingLeft", safeNum (prop node "paddingLeft") (VNum 0));
             ("primaryAxisAlignItems", safeStr (prop node "primaryAxisAlignItems") (VStr "MIN"));
             ("counterAxisAlignItems", safeStr (prop node "counterAxisAlignItems") (VStr "MIN"));
             ("layoutWrap", safeStr (prop node "layoutWrap") (VStr "NO_WRAP"))].

(** [parseInt((style.replace(/[^0-9]/g, '') || '400'), 10)] *)
Definition fontWeight (style : string) : float :=
  let digits := digits_only style in
  parseInt10 (if String.eqb digits "" then "400" else digits).

Definition extractTextStyle (node : Node) : JsVal :=
  let fs := safe (prop node "fontName") VUndefined in
  if negb (truthy fs) || is_symbol fs then VNull
  else
    let lh := safe (prop node "lineHeight") VUndefined in
    let ls := safe (prop node "letterSpacing") VUndefined in
    VObj [("fontFamily", safeStr (field fs "family") (VStr ""));
          ("fontStyle", safeStr (field fs "style") (VStr ""));
          ("fontSize", safeNum (prop node "fontSize") (VNum 0));
          ("fontWeight", VNum (fontWeight (str_of (safeStr (field fs "style") (VStr "")))));
          ("letterSpacing",
             if truthy ls && str_is (field ls "unit") "PIXELS"
             then safeNum (field ls "value") (VNum 0) else VNum 0);
          ("lineHeight",
             if truthy lh && str_is (field lh "unit") "AUTO" then VStr "AUTO"
             else if truthy lh then safeNum (field lh "value") (VNum 0) else VNum 0);
          ("textAlignHorizontal", safeStr (prop node "textAlignHorizontal") (VStr "LEFT"));
          ("textAlignVertical", safeStr (prop node "textAlignVertical") (VStr "TOP"));
          ("textDecoration", safeStr (prop node "textDecoration") (VStr "NONE"));
          ("textCase", safeStr (prop node "textCase") (VStr "ORIGINAL"))].

(** [.filter(function (p) { return p !== null; })] *)
Definition not_null (v : JsVal) : bool := negb (is_null v).

(** The fields of [base] that do not depend on the children: the object
    literal, then the corner radius, auto-layout, text and component blocks. *)
Definition cornerRadiusFields (node : Node) (base : JsObject) : JsObject :=
  let cr := safe (prop node "cornerRadius") VUndefined in
  if negb (is_null cr) then
    if JsType_eqb (typeof cr) TNumber then obj_set base "cornerRadius" cr
    else
      let base := obj_set base "topLeftRadius" (safeNum (prop node "topLeftRadius") (VNum 0)) in
      let base := obj_set base "topRightRadius" (safeNum (prop node "topRightRadius") (VNum 0)) in
      let base :=
        obj_set base "bottomRightRadius" (safeNum (prop node "bottomRightRadius") (VNum 0)) in
      obj_set base "bottomLeftRadius" (safeNum (prop node "bottomLeftRadius") (VNum 0))
  else base.

Definition autoLayoutField (node : Node) (base : JsObject) : JsObject :=
  if str_is (prop node "type") "FRAME" || str_is (prop node "type") "COMPONENT"
     || str_is (prop node "type") "INSTANCE" then
    let al := extractAutoLayout node in
    if truthy al then obj_set base "autoLayout" al else base
  else base.

Definition textFields (node : Node) (base : JsObject) : JsObject :=
  if str_is (prop node "type") "TEXT" then
    let chars := safe (prop node "characters") VUndefined in
    let base :=
      obj_set base "characters"
        (if JsType_eqb (typeof chars) TString then chars else VStr "") in
    let ts := extractTextStyle node in
    if truthy ts then obj_set base "textStyle" ts else base
  else base.

Definition componentField (node : Node) (base : JsObject) : JsObject :=
  if str_is (prop node "type") "INSTANCE" then
    let mc := safe (prop node "mainComponent") VUndefined in
    obj_set base "componentId"
      (if truthy mc then safeStr (field mc "id") (VStr "") else VUndefined)
  else base.

Definition is_number (v : JsVal) : bool := JsType_eqb (typeof v) TNumber.

Definition baseFields (node : Node) (fills strokes effects : list JsVal) : JsObject :=
  let constraints := safe (prop node "constraints") VUndefined in
  [("id", safeStr (prop node "id") (VStr ""));
   ("name", safeStr (prop node "name") (VStr ""));
   ("type", safeStr (prop node "type") (VStr ""));
   ("visible", safeBool (prop node "visible") (VBool true));
   ("opacity", safeNum (prop node "opacity") (VNum 1));
   ("blendMode", safeStr (prop node "blendMode") (VStr "NORMAL"));
   ("locked", safeBool (prop node "locked") (VBool false));
   ("x", safeNum (prop node "x") (VNum 0));
   ("y", safeNum (prop node "y") (VNum 0));
   ("width", safeNum (prop node "width") (VNum 0));
   ("height", safeNum (prop node "height") (VNum 0));
   ("constraintHorizontal",
      if truthy constraints then safeStr (field constraints "horizontal") (VStr "")
      else VUndefined);
   ("constraintVertical",
      if truthy constraints then safeStr (field constraints "vertical") (VStr "")
      else VUndefined);
   ("fills", VArr fills);
   ("strokes", VArr strokes);
   ("strokeWeight", safeNum (prop node "strokeWeight") (VNum 0));
   ("strokeAlign", safeStr (prop node "strokeAlign") (VStr "INSIDE"));
   ("dashPattern",
      VArr (List.filter is_number (arr_items (safeArr (safe (prop node "dashPattern") VUndefined)))));
   ("effects", VArr effects);
   ("isMask", safeBool (prop node "isMask") (VBool false))].

(** [try { base.children.push(extractDesignNode(child, depth + 1)); } catch (e) {}] *)
Definition push_unless_thrown (r : result DesignNode) : list DesignNode :=
  match r with
  | Ok d => [d]
  | Throw _ => []
  end.

Fixpoint extractDesignNode (node : Node) (depth : nat) {struct node} : result DesignNode :=
  fills ← mapM extractPaint (arr_items (safeArr (safe (prop node "fills") VUndefined)));
  strokes ← mapM extractPaint (arr_items (safeArr (safe (prop node "strokes") VUndefined)));
  let effects := map extractEffect (arr_items (safeArr (safe (prop node "effects") VUndefined))) in
  let base :=
    baseFields node (List.filter not_null fills) (List.filter not_null strokes)
      (List.filter not_null effects) in
  let base := cornerRadiusFields node base in
  let base := autoLayoutField node base in
  let base := textFields node base in
  let base := componentField node base in
  let children :=
    if Nat.ltb depth MAX_TREE_DEPTH then
      match node with
      | mkNode _ (Some cs) =>
          Some (flat_map (fun c => push_unless_thrown (extractDesignNode c (S depth))) cs)
      | mkNode _ None => None
      end
    else None in
  Ok (mkDesignNode base children).

(** Every node of a snapshot rooted at [depth] that has a [children] field
    lies above the bound. *)
Fixpoint within_depth (depth : nat) (d : DesignNode) : bool :=
  match d with
  | mkDesignNode _ None => true
  | mkDesignNode _ (Some cs) =>
      Nat.ltb depth MAX_TREE_DEPTH && forallb (within_depth (S depth)) cs
  end.

(** The number of levels below the root of a snapshot. *)
Fixpoint levels (d : DesignNode) : nat :=
  match d with
  | mkDesignNode _ None => 0
  | mkDesignNode _ (Some cs) => fold_right (fun c n => Nat.max (S (levels c)) n) 0 cs
  end.

Definition succeeds {A : Type} (r : result A) : bool :=
  match r with
  | Ok _ => true
  | Throw _ => false
  end.

(** A chain of [n] frames, each the only child of the one above, ending in a
    rectangle. *)
Fixpoint chain (n : nat) : Node :=
  match n with
  | O => mkNode [("id", VStr "leaf"); ("type", VStr "RECTANGLE")] None
  | S k => mkNode [("id", VStr "frame"); ("type", VStr "FRAME")] (Some [chain k])
  end.

(** The snapshot of a frame with one child, serialized at the bound. *)
Definition frame_at_bound : DesignNode :=
  Eval vm_compute in
    match extractDesignNode (chain 1) MAX_TREE_DEPTH with
    | Ok d => d
    | Throw _ => mkDesignNode [] None
    end.

(** A frame with two children: a rectangle whose gradient has a [null] stop,
    which makes its extraction throw, and a text node. *)
Definition frame_with_malformed_child : Node :=
  mkNode [("id", VStr "9:0"); ("type", VStr "FRAME")]
         (Some [mkNode [("id", VStr "9:1"); ("type", VStr "RECTANGLE");
                        ("fills", VArr [VObj [("type", VStr "GRADIENT_LINEAR");
                                              ("gradientStops", VArr [VNull])]])] None;
                mkNode [("id", VStr "9:2"); ("type", VStr "TEXT");
                        ("characters", VStr "Hello");
                        ("fontName", VObj [("family", VStr "Inter");
                                           ("style", VStr "SemiBold 600")])] None]).

Definition child_ids (d : DesignNode) : list JsVal :=
  match design_children d with
  | Some cs => map (fun c => obj_get (design_fields c) "id") cs
  | None => []
  end.

(** The four per-corner fields of a serialized node. *)
Definition PER_CORNER : list string :=
  ["topLeftRadius"; "topRightRadius"; "bottomRightRadius"; "bottomLeftRadius"].

Definition has_uniform_radius (d : DesignNode) : bool := has_field d "cornerRadius".

Definition has_per_corner_radius (d : DesignNode) : bool :=
  existsb (has_field d) PER_CORNER.

Definition has_all_per_corner_radii (d : DesignNode) : bool :=
  forallb (has_field d) PER_CORNER.

(** A rectangle whose corners differ: the plugin API reports [figma.mixed]
    for [cornerRadius] and the four radii one by one. *)
Definition mixed_corner_node : Node :=
  mkNode [("id", VStr "1:2"); ("name", VStr "Card"); ("type", VStr "RECTANGLE");
          ("cornerRadius", figma_mixed);
          ("topLeftRadius", VNum 8); ("topRightRadius", VNum 8);
          ("bottomRightRadius", VNum 0); ("bottomLeftRadius", VNum 0)] None.

Definition ok_or_empty (r : result DesignNode) : DesignNode :=
  match r with
  | Ok d => d
  | Throw _ => mkDesignNode [] None
  end.

(** ** Asset collector (code.js, [collectImageAssets], [subtreeHasImage]) *)

(** An entry of [vectorNodes] or [compositeNodes]: [{ node, nodeId, nodeName }]. *)
Record NodeRef : Type := mkNodeRef {
  ref_node : Node;
  ref_nodeId : JsVal;
  ref_nodeName : JsVal
}.

(** The accumulator the walk mutates:
    [{ imageHashes: {}, vectorNodes: [], compositeNodes: [], compositeIds: {}, totalCount: 0 }]. *)
Record Collected : Type := mkCollected {
  imageHashes : JsObject;
  vectorNodes : list NodeRef;
  compositeNodes : list NodeRef;
  compositeIds : JsObject;
  totalCount : nat
}.

Definition empty_collected : Collected :=
  {| imageHashes := []; vectorNodes := []; compositeNodes := []; compositeIds := [];
     totalCount := 0 |}.

(** The names every object literal inherits from [Object.prototype]; reading
    one of them from [{}] gives a function (an object for [__proto__]), which
    is truthy. *)
Definition OBJECT_PROTOTYPE_KEYS : list string :=
  ["constructor"; "__defineGetter__"; "__defineSetter__"; "hasOwnProperty";
   "__lookupGetter__"; "__lookupSetter__"; "isPrototypeOf"; "propertyIsEnumerable";
   "toString"; "valueOf"; "__proto__"; "toLocaleString"].

Definition inherited (k : string) : bool :=
  existsb (String.eqb k) OBJECT_PROTOTYPE_KEYS.

(** [o[k]] for an object created by a literal and used as a map. *)
Definition obj_lookup (o : JsObject) (k : string) : JsVal :=
  if obj_has o k then obj_get o k
  else if inherited k then VFunction k
  else VUndefined.

(** [f && f.type === 'IMAGE' && f.imageHash] *)
Definition is_image_fill (f : JsVal) : bool :=
  truthy f && str_is (field f "type") "IMAGE" && truthy (field f "imageHash").

(** The body of the loop over [fills]. *)
Definition collectFill (node : Node) (collected : Collected) (f : JsVal) : Collected :=
  if is_image_fill f then
    let hash := safeStr (field f "imageHash") (VStr "") in
    if truthy hash && negb (truthy (obj_lookup (imageHashes collected) (str_of hash))) then
      {| imageHashes :=
           obj_set (imageHashes collected) (str_of hash)
             (VObj [("nodeId", safeStr (prop node "id") (VStr ""));
                    ("nodeName", safeStr (prop node "name") (VStr ""));
                    ("width", safeNum (prop node "width") (VNum 0));
                    ("height", safeNum (prop node "height") (VNum 0))]);
         vectorNodes := vectorNodes collected;
         compositeNodes := compositeNodes collected;
         compositeIds := compositeIds collected;
         totalCount := S (totalCount collected) |}
    else collected
  else collected.

Fixpoint subtreeHasImage (node : Node) (d : nat) {struct node} : bool :=
  if Nat.ltb 4 d then false
  else if existsb is_image_fill (arr_items (safeArr (safe (prop node "fills") VUndefined)))
  then true
  else
    match node with
    | mkNode _ (Some cs) => existsb (fun c => subtreeHasImage c (S d)) cs
    | mkNode _ None => false
    end.

Definition collectVector (node : Node) (collected : Collected) : Collected :=
  let nt := safeStr (prop node "type") (VStr "") in
  let isVector :=
    str_is nt "VECTOR" || str_is nt "STAR" || str_is nt "LINE" || str_is nt "POLYGON"
    || str_is nt "BOOLEAN_OPERATION" in
  let nodeVisible := safeBool (prop node "visible") (VBool true) in
  let nodeW := num_of (safeNum (prop node "width") (VNum 0)) in
  let nodeH := num_of (safeNum (prop node "height") (VNum 0)) in
  if isVector && truthy nodeVisible && (PrimFloat.ltb 0 nodeW || PrimFloat.ltb 0 nodeH)
     && Nat.ltb (length (vectorNodes collected)) MAX_VECTOR_ASSETS then
    {| imageHashes := imageHashes collected;
       vectorNodes :=
         vectorNodes collected ++
           [{| ref_node := node;
               ref_nodeId := safeStr (prop node "id") (VStr "");
               ref_nodeName := safeStr (prop node "name") (VStr "") |}];
       compositeNodes := compositeNodes collected;
       compositeIds := compositeIds collected;
       totalCount := S (totalCount collected) |}
  else collected.

Definition collectComposite (node : Node) (depth : nat) (collected : Collected) : Collected :=
  let nt := safeStr (prop node "type") (VStr "") in
  let isContainer :=
    str_is nt "INSTANCE" || str_is nt "COMPONENT" || str_is nt "COMPONENT_SET" in
  let isClippedFrame :=
    str_is nt "FRAME" && truthy (safeBool (prop node "clipsContent") (VBool false)) in
  if (isContainer || isClippedFrame) && Nat.ltb 0 depth
     && Nat.ltb (length (compositeNodes collected)) MAX_COMPOSITE_ASSETS then
    let hasImageDescendant := subtreeHasImage node 0 in
    if hasImageDescendant
       && negb (truthy (obj_lookup (compositeIds collected)
                          (str_of (safeStr (prop node "id") (VStr "")))))
    then
      {| imageHashes := imageHashes collected;
         vectorNodes := vectorNodes collected;
         compositeNodes :=
           compositeNodes collected ++
             [{| ref_node := node;
                 ref_nodeId := safeStr (prop node "id") (VStr "");
                 ref_nodeName := safeStr (prop node "name") (VStr "") |}];
         compositeIds :=
           obj_set (compositeIds collected) (str_of (safeStr (prop node "id") (VStr "")))
             (VBool true);
         totalCount := S (totalCount collected) |}
    else collected
  else collected.

(** [safeBool(node.visible, true) === false] *)
Definition is_invisible (node : Node) : bool :=
  match safeBool (prop node "visible") (VBool true) with
  | VBool false => true
  | _ => false
  end.

(** The walk. Nothing in it can throw on a node of this model, so the
    [try]/[catch] around the recursive call never fires. *)
Fixpoint collectImageAssets (node : Node) (depth : nat) (collected : Collected)
  {struct node} : Collected :=
  if Nat.ltb MAX_IMAGE_SCAN_DEPTH depth then collected
  else if Nat.leb (MAX_IMAGE_ASSETS + MAX_VECTOR_ASSETS + MAX_COMPOSITE_ASSETS)
                  (totalCount collected) then collected
  else if is_invisible node then collected
  else
    let fills := arr_items (safeArr (safe (prop node "fills") VUndefined)) in
    let collected := fold_left (collectFill node) fills collected in
    let collected := collectVector node collected in
    let collected := collectComposite node depth collected in
    match node with
    | mkNode _ (Some cs) =>
        fold_left (fun acc c => collectImageAssets c (S depth) acc) cs collected
    | mkNode _ None => collected
    end.

(** The image references collected so far, in insertion order (the order of
    [Object.keys] for references that are not array indices), and how often a
    reference occurs among them. *)
Definition keys (o : JsObject) : list string := map fst o.

Definition occurrences (h : string) (o : JsObject) : nat :=
  length (List.filter (String.eqb h) (keys o)).

(** An object used as a map by the collector: no key twice, every value an
    object (truthy). *)
Definition wf_hashes (o : JsObject) : Prop :=
  NoDup (keys o) /\ Forall (fun kv => truthy kv.2 = true) o.

(** The number of assets an accumulator holds, over the three categories. *)
Definition asset_count (c : Collected) : nat :=
  length (imageHashes c) + length (vectorNodes c) + length (compositeNodes c).

(** [b] is [a] after some steps of the walk: the map of image references of
    [b] extends that of [a] without touching its entries, and [totalCount]
    went up by the number of assets added. *)
Definition grows (a b : Collected) : Prop :=
  wf_hashes (imageHashes a) ->
  wf_hashes (imageHashes b) /\
  (forall k, obj_has (imageHashes a) k = true ->
             obj_has (imageHashes b) k = true /\
             obj_get (imageHashes b) k = obj_get (imageHashes a) k) /\
  totalCount b + asset_count a = totalCount a + asset_count b.

(** An IMAGE paint that refers to the image [h]. *)
Definition image_paint (h : string) : JsVal :=
  VObj [("type", VStr "IMAGE"); ("scaleMode", VStr "FILL"); ("imageHash", VStr h)].

(** Another node whose fill refers to the image "h1". *)
Definition second_carrier : Node :=
  mkNode [("id", VStr "3:2"); ("name", VStr "Thumbnail"); ("type", VStr "ELLIPSE");
          ("width", VNum 24); ("height", VNum 24);
          ("fills", VArr [VObj [("type", VStr "IMAGE"); ("imageHash", VStr "h1")]])] None.

(** A visible rectangle with two image fills that share one reference. *)
Definition two_fill_node (h : string) : Node :=
  mkNode [("id", VStr "3:1"); ("name", VStr "Photo"); ("type", VStr "RECTANGLE");
          ("visible", VBool true); ("width", VNum 100); ("height", VNum 50);
          ("fills", VArr [image_paint h; image_paint h])] None.

(** The global cap on the assets of one walk. *)
Definition TOTAL_CAP : nat := MAX_IMAGE_ASSETS + MAX_VECTOR_ASSETS + MAX_COMPOSITE_ASSETS.

(** [safeArr(safe(node.fills))] *)
Definition fills_of (node : Node) : list JsVal :=
  arr_items (safeArr (safe (prop node "fills") VUndefined)).

(** [f] is an IMAGE paint whose reference is the non-empty string [h], a
    name that is not one every object inherits. *)
Definition refers_to (f : JsVal) (h : string) : Prop :=
  is_image_fill f = true /\ field f "imageHash" = VStr h /\ h <> "" /\ inherited h = false.

(** A hidden layer holding an image, with a hidden child holding another. *)
Definition hidden_node : Node :=
  mkNode [("id", VStr "4:1"); ("name", VStr "Hidden"); ("type", VStr "VECTOR");
          ("visible", VBool false); ("width", VNum 10); ("height", VNum 10);
          ("fills", VArr [image_paint "h7"])]
         (Some [mkNode [("id", VStr "4:2"); ("type", VStr "RECTANGLE");
                        ("fills", VArr [image_paint "h8"])] None]).

(** A visible instance whose only child is the hidden layer, under a page. *)
Definition instance_over_hidden : Node :=
  mkNode [("id", VStr "0:1"); ("type", VStr "PAGE")]
         (Some [mkNode [("id", VStr "5:1"); ("name", VStr "Avatar"); ("type", VStr "INSTANCE");
                        ("visible", VBool true); ("width", VNum 64); ("height", VNum 64)]
                       (Some [hidden_node])]).

(** ** The cap as a specified float *)

(** [512] and [1] as the kernel's specification of binary64 gives them, and
    the last step of [binary_round_aux]: renormalize a rounded mantissa. *)
Definition SF512 : spec_float := S754_finite false 4503599627370496 (-43).
Definition SF1 : spec_float := S754_finite false 4503599627370496 (-52).

Definition renormalize (q e : Z) : spec_float :=
  let '(mrs, e') := shr_fexp prec emax q e loc_Exact in
  match shr_m mrs with
  | Z0 => S754_zero false
  | Zpos m => if Z.leb e' (emax - prec) then S754_finite false m e' else S754_infinity false
  | Zneg _ => S754_nan
  end.

(** ** Asset exporter (code.js, [uint8ToBase64], [exportImageAssets]) *)

Definition CHARS : string :=
  "ABCDEFGHIJKLMNOPQRSTUVWXYZabcdefghijklmnopqrstuvwxyz0123456789+/".

(** [CHARS[k]], for an index below 64. *)
Definition CHARS_at (k : N) : string :=
  match String.get (N.to_nat k) CHARS with
  | Some c => String c EmptyString
  | None => EmptyString
  end.

(** The loop of [uint8ToBase64] consumes three bytes a turn; the last turn
    may find one or two, and pads with ['=']. *)
Fixpoint uint8ToBase64 (u8 : list byte) : string :=
  match u8 with
  | [] => ""
  | b0 :: rest0 =>
      let x0 := Byte.to_N b0 in
      match rest0 with
      | [] =>
          CHARS_at (N.shiftr x0 2)
          +:+ CHARS_at (N.lor (N.shiftl (N.land x0 3) 4) (N.shiftr 0 4))
          +:+ "=" +:+ "="
      | b1 :: rest1 =>
          let x1 := Byte.to_N b1 in
          match rest1 with
          | [] =>
              CHARS_at (N.shiftr x0 2)
              +:+ CHARS_at (N.lor (N.shiftl (N.land x0 3) 4) (N.shiftr x1 4))
              +:+ CHARS_at (N.lor (N.shiftl (N.land x1 15) 2) (N.shiftr 0 6))
              +:+ "="
          | b2 :: rest2 =>
              let x2 := Byte.to_N b2 in
              CHARS_at (N.shiftr x0 2)
              +:+ CHARS_at (N.lor (N.shiftl (N.land x0 3) 4) (N.shiftr x1 4))
              +:+ CHARS_at (N.lor (N.shiftl (N.land x1 15) 2) (N.shiftr x2 6))
              +:+ CHARS_at (N.land x2 63)
              +:+ uint8ToBase64 rest2
          end
      end
  end.

(** The settings passed to [node.exportAsync]. *)
Inductive ExportSettings : Type :=
| ExportSVG
| ExportPNG (scale : float).

(** The scale a composite is rendered at. *)
Definition compositeScale (node : Node) : float :=
  let w := num_of (safeNum (prop node "width") (VNum 1)) in
  let h := num_of (safeNum (prop node "height") (VNum 1)) in
  let maxDim := Math_max w h in
  if PrimFloat.ltb COMPOSITE_MAX_PX maxDim then PrimFloat.div COMPOSITE_MAX_PX maxDim
  else 1%float.

(** The asset pushed when the bytes of an image fill arrive. *)
Definition imageFillAsset (hash : string) (info : JsVal) (bytes : list byte) : JsVal :=
  VObj [("id", VStr hash);
        ("format", VStr (detectImageFormat (Some bytes)));
        ("data", VStr (uint8ToBase64 bytes));
        ("nodeId", field info "nodeId");
        ("nodeName", field info "nodeName");
        ("width", field info "width");
        ("height", field info "height");
        ("assetType", VStr "image-fill")].

(** The asset pushed when the SVG export of a vector arrives. *)
Definition vectorAsset (vec : NodeRef) (bytes : list byte) : JsVal :=
  VObj [("id", ref_nodeId vec);
        ("format", VStr "svg");
        ("data", VStr (uint8ToBase64 bytes));
        ("nodeId", ref_nodeId vec);
        ("nodeName", ref_nodeName vec);
        ("width", safeNum (prop (ref_node vec) "width") (VNum 0));
        ("height", safeNum (prop (ref_node vec) "height") (VNum 0));
        ("assetType", VStr "vector")].

(** The asset pushed when the PNG export of a composite arrives. *)
Definition compositeAsset (comp : NodeRef) (bytes : list byte) : JsVal :=
  let w := num_of (safeNum (prop (ref_node comp) "width") (VNum 1)) in
  let h := num_of (safeNum (prop (ref_node comp) "height") (VNum 1)) in
  let scale := compositeScale (ref_node comp) in
  VObj [("id", VStr ("composite_" +:+ str_of (ref_nodeId comp)));
        ("format", VStr (detectImageFormat (Some bytes)));
        ("data", VStr (uint8ToBase64 bytes));
        ("nodeId", ref_nodeId comp);
        ("nodeName", ref_nodeName comp);
        ("width", VNum (Math_round (PrimFloat.mul w scale)));
        ("height", VNum (Math_round (PrimFloat.mul h scale)));
        ("assetType", VStr "image-fill")].

Section Exporter.

(** The host's two asynchronous operations, by their outcome: the bytes, or
    [None] when the image is unknown, the call throws or the promise
    rejects. Every scene node has [exportAsync]. *)
Variable getImageBytes : string -> option (list byte).
Variable exportAsync : Node -> ExportSettings -> option (list byte).

Definition exportImageFill (collected : Collected) (hash : string) : option JsVal :=
  bytes ← getImageBytes hash;
  Some (imageFillAsset hash (obj_get (imageHashes collected) hash) bytes).

Definition exportVector (vec : NodeRef) : option JsVal :=
  bytes ← exportAsync (ref_node vec) ExportSVG;
  Some (vectorAsset vec bytes).

Definition exportComposite (comp : NodeRef) : option JsVal :=
  bytes ← exportAsync (ref_node comp) (ExportPNG (compositeScale (ref_node comp)));
  Some (compositeAsset comp bytes).

(** The assets the promise resolves to, listed in the order the exports were
    issued (the order of arrival is the host's); an export that fails is
    left out. *)
Definition exportImageAssets (collected : Collected) : list JsVal :=
  omap (exportImageFill collected) (take MAX_IMAGE_ASSETS (keys (imageHashes collected)))
  ++ omap exportVector (take MAX_VECTOR_ASSETS (vectorNodes collected))
  ++ omap exportComposite (take MAX_COMPOSITE_ASSETS (compositeNodes collected)).

End Exporter.

(** A composite 48 wide and 32 high. *)
Definition small_instance : NodeRef :=
  {| ref_node := mkNode [("id", VStr "7:9"); ("name", VStr "Badge"); ("type", VStr "INSTANCE");
                         ("width", VNum 48); ("height", VNum 32)] None;
     ref_nodeId := VStr "7:9";
     ref_nodeName := VStr "Badge" |}.

(** A composite 2000 wide and 1000 high. *)
Definition wide_instance : NodeRef :=
  {| ref_node := mkNode [("id", VStr "7:3"); ("name", VStr "Hero"); ("type", VStr "INSTANCE");
                         ("width", VNum 2000); ("height", VNum 1000)] None;
     ref_nodeId := VStr "7:3";
     ref_nodeName := VStr "Hero" |}.

(** ** Relay: asset files on disk (imageStorage.ts) *)

(** What [writeAssets] puts in a file: the base64 payload decoded to UTF-8
    text (SVG) or to raw bytes (raster). [Buffer.from(_, 'base64')] belongs to
    the runtime and is kept symbolic. *)
Inductive FileContent : Type :=
| Utf8OfBase64 (data : string)
| BytesOfBase64 (data : string).

Inductive DirEntry : Type :=
| RegularFile (content : FileContent)
| SubDirectory.

(** The assets directory: [None] while it does not exist, else its entries by
    name. File-system failures (permissions, a full disk) are not modelled:
    a write succeeds and replaces the entry of that name. *)
Abbreviation AssetsDir := (option (gmap string DirEntry)).

(** [path.resolve(__dirname, '..', '..', 'figma-assets')], for the package
    installed at the root. *)
Definition ASSETS_DIR : string := "/packages/mcp-server/figma-assets".

Definition getAssetsDir : string := ASSETS_DIR.

(** [path.join(ASSETS_DIR, name)] for a name without separators. *)
Definition path_join (dir name : string) : string := dir +:+ "/" +:+ name.

(** The character class [[a-zA-Z0-9_-]]. *)
Definition is_id_char (c : ascii) : bool :=
  let n := nat_of_ascii c in
  (Nat.leb 97 n && Nat.leb n 122) || (Nat.leb 65 n && Nat.leb n 90) ||
  (Nat.leb 48 n && Nat.leb n 57) || Nat.eqb n 95 || Nat.eqb n 45.

(** [id.replace(/[^a-zA-Z0-9_-]/g, '_')] *)
Fixpoint sanitize (id : string) : string :=
  match id with
  | EmptyString => EmptyString
  | String c rest => String (if is_id_char c then c else "_"%char) (sanitize rest)
  end.

Definition is_RegularFile (e : DirEntry) : bool :=
  match e with RegularFile _ => true | SubDirectory => false end.

Definition clearAssets (dir : AssetsDir) : AssetsDir :=
  match dir with
  | None => None
  | Some entries => Some (filter (fun kv => is_RegularFile kv.2 = false) entries)
  end.

(** Modelled from the spec: the declaration of [ImageAsset] in
    [types/selection.ts], which is not among the sources. The fields are
    those of the Image Asset of the data model: [id], [format], [data]
    (base64 text), [nodeId], [nodeName], [width], [height], [assetType] and
    the optional [filePath]. *)
Record ImageAsset : Type := mkImageAsset {
  asset_id : string;
  asset_format : string;
  asset_data : string;
  asset_nodeId : string;
  asset_nodeName : string;
  asset_width : float;
  asset_height : float;
  asset_assetType : string;
  asset_filePath : option string
}.

Definition with_filePath (a : ImageAsset) (p : option string) : ImageAsset :=
  {| asset_id := asset_id a; asset_format := asset_format a; asset_data := asset_data a;
     asset_nodeId := asset_nodeId a; asset_nodeName := asset_nodeName a;
     asset_width := asset_width a; asset_height := asset_height a;
     asset_assetType := asset_assetType a; asset_filePath := p |}.

(** One turn of the loop of [writeAssets]. *)
Definition writeAsset (acc : gmap string string * gmap string DirEntry) (asset : ImageAsset)
  : gmap string string * gmap string DirEntry :=
  let filename := sanitize (asset_id asset) +:+ "." +:+ asset_format asset in
  let path := path_join ASSETS_DIR filename in
  let content :=
    if String.eqb (asset_format asset) "svg" then Utf8OfBase64 (asset_data asset)
    else BytesOfBase64 (asset_data asset) in
  (<[asset_id asset := path]> acc.1, <[filename := RegularFile content]> acc.2).

(** Returns the map asset id -> path, and the directory after the writes. *)
Definition writeAssets (assets : list ImageAsset) (dir : AssetsDir)
  : gmap string string * AssetsDir :=
  let entries := default ∅ dir in
  let r := foldl writeAsset (∅, entries) assets in
  (r.1, Some r.2).

Definition getAssetPath (id format : string) : string :=
  path_join ASSETS_DIR (sanitize id +:+ "." +:+ format).


(** ** Relay: the selection store (selectionStore.ts) *)

(** Modelled from the spec: the declaration of [SelectionState] in
    [types/selection.ts], which is not among the sources. The fields are
    those of the Selection State of the data model; [metadata] and
    [designTree] are JSON values the relay does not look into, [images] is
    optional, [timestamp] is in milliseconds. *)
Record SelectionState : Type := mkSelectionState {
  sel_fileId : string;
  sel_nodeId : string;
  sel_pageId : string;
  sel_userId : string;
  sel_metadata : JsVal;
  sel_designTree : JsVal;
  sel_images : option (gmap string ImageAsset);
  sel_timestamp : Z
}.

Definition with_images (s : SelectionState) (m : gmap string ImageAsset) : SelectionState :=
  {| sel_fileId := sel_fileId s; sel_nodeId := sel_nodeId s; sel_pageId := sel_pageId s;
     sel_userId := sel_userId s; sel_metadata := sel_metadata s;
     sel_designTree := sel_designTree s; sel_images := Some m;
     sel_timestamp := sel_timestamp s |}.

(** The state the store's methods act on: the singleton's private slot and
    the assets directory its collaborators read and write. *)
Record Relay : Type := mkRelay {
  current : option SelectionState;
  disk : AssetsDir
}.

Module SelectionStore.

Definition empty (dir : AssetsDir) : Relay := {| current := None; disk := dir |}.

Definition set (selection : SelectionState) (st : Relay) : Relay :=
  {| current := Some selection; disk := clearAssets (disk st) |}.

Definition get (st : Relay) : option SelectionState := current st.

Definition clear (st : Relay) : Relay :=
  {| current := None; disk := clearAssets (disk st) |}.

Definition setImages (nodeId : string) (assets : list ImageAsset) (st : Relay)
  : bool * Relay :=
  match current st with
  | None => (false, st)
  | Some cur =>
      if negb (String.eqb (sel_nodeId cur) nodeId) then (false, st)
      else
        let w := writeAssets assets (disk st) in
        let filePaths := w.1 in
        let map :=
          foldl (fun m a => <[asset_id a := with_filePath a (filePaths !! asset_id a)]> m)
                (default ∅ (sel_images cur)) assets in
        (true, {| current := Some (with_images cur map); disk := w.2 |})
  end.

Definition getImage (id : string) (st : Relay) : option ImageAsset :=
  match current st with
  | Some cur => match sel_images cur with Some m => m !! id | None => None end
  | None => None
  end.

End SelectionStore.

(** ** Relay: HTTP handlers (bridge/server.ts) *)

(** Modelled from the spec: the declaration of [SelectionPayload] in
    [types/selection.ts], which is not among the sources. This is the parsed
    body of [POST /selection], typed [Partial<SelectionPayload>]: an identity
    field is [None] when the body lacks it (or the body itself is missing),
    [metadata] and [designTree] are [undefined] when absent, and
    [payload_keys] is [Object.keys(req.body || {})]. *)
Record SelectionPayload : Type := mkSelectionPayload {
  payload_keys : list string;
  fileId : option string;
  nodeId : option string;
  pageId : option string;
  userId : option string;
  metadata : JsVal;
  designTree : JsVal
}.

(** Modelled from the spec: the declaration of [ImageBatchPayload] in
    [types/selection.ts], which is not among the sources. This is the parsed
    body of [POST /selection/images]: a node id and an array of assets;
    [batch_assets] is [None] when the field is missing or is not an array. *)
Record ImageBatchPayload : Type := mkImageBatchPayload {
  batch_nodeId : option string;
  batch_assets : option (list ImageAsset)
}.

Record Response : Type := mkResponse {
  status : nat;
  json : JsVal
}.

(** [!s] for an optional string: missing or empty. *)
Definition falsy_str (s : option string) : bool :=
  match s with
  | None => true
  | Some v => String.eqb v ""
  end.

(** [s || dflt] *)
Definition str_or (s : option string) (dflt : string) : string :=
  match s with
  | Some v => if String.eqb v "" then dflt else v
  | None => dflt
  end.

Definition INVALID_SELECTION : string :=
  "Invalid payload. Required fields: fileId, nodeId, metadata".

Definition num_of_nat (n : nat) : float :=
  SF2Prim (binary_normalize prec emax (Z.of_nat n) 0 false).

(** [POST /selection] of the relay that stores images ([images: {}]);
    [now] is [Date.now()]. *)
Definition post_selection (now : Z) (body : SelectionPayload) (st : Relay)
  : Response * Relay :=
  if falsy_str (fileId body) || falsy_str (nodeId body) || negb (truthy (metadata body))
  then
    ({| status := 400;
        json := VObj [("error", VStr INVALID_SELECTION);
                      ("received", VArr (map VStr (payload_keys body)))] |}, st)
  else
    let st' :=
      SelectionStore.set
        {| sel_fileId := default "" (fileId body);
           sel_nodeId := default "" (nodeId body);
           sel_pageId := str_or (pageId body) "unknown";
           sel_userId := str_or (userId body) "anonymous";
           sel_metadata := metadata body;
           sel_designTree := designTree body;
           sel_images := Some ∅;
           sel_timestamp := now |} st in
    ({| status := 200; json := VObj [("ok", VBool true)] |}, st').

(** [POST /selection] of bridge/server.ts, which passes no [images] field. *)
Definition post_selection_plain (now : Z) (body : SelectionPayload) (st : Relay)
  : Response * Relay :=
  if falsy_str (fileId body) || falsy_str (nodeId body) || negb (truthy (metadata body))
  then
    ({| status := 400;
        json := VObj [("error", VStr INVALID_SELECTION);
                      ("received", VArr (map VStr (payload_keys body)))] |}, st)
  else
    let st' :=
      SelectionStore.set
        {| sel_fileId := default "" (fileId body);
           sel_nodeId := default "" (nodeId body);
           sel_pageId := str_or (pageId body) "unknown";
           sel_userId := str_or (userId body) "anonymous";
           sel_metadata := metadata body;
           sel_designTree := designTree body;
           sel_images := None;
           sel_timestamp := now |} st in
    ({| status := 200; json := VObj [("ok", VBool true)] |}, st').

(** [POST /selection/images] *)
Definition post_selection_images (body : ImageBatchPayload) (st : Relay)
  : Response * Relay :=
  match batch_nodeId body, batch_assets body with
  | Some nodeId, Some assets =>
      if String.eqb nodeId "" then
        ({| status := 400;
            json := VObj [("error", VStr "Invalid payload. Required: nodeId, assets[]")] |}, st)
      else
        let r := SelectionStore.setImages nodeId assets st in
        if negb r.1 then
          ({| status := 409;
              json := VObj [("error", VStr "Selection changed; images discarded")] |}, r.2)
        else
          ({| status := 200;
              json := VObj [("ok", VBool true);
                            ("count", VNum (num_of_nat (length assets)));
                            ("assetsDir", VStr getAssetsDir)] |}, r.2)
  | _, _ =>
      ({| status := 400;
          json := VObj [("error", VStr "Invalid payload. Required: nodeId, assets[]")] |}, st)
  end.

(** [DELETE /selection] *)
Definition delete_selection (st : Relay) : Response * Relay :=
  ({| status := 200; json := VObj [("ok", VBool true)] |}, SelectionStore.clear st).

(** Whether [field] occurs in [msg]. *)
Definition mentions (msg field : string) : bool :=
  match String.index 0 field msg with
  | Some _ => true
  | None => false
  end.

(** A batch stamped [A] is stale for the store when no selection is stored or
    the stored selection belongs to another node. *)
Definition stale (A : string) (st : Relay) : Prop :=
  match current st with
  | None => True
  | Some cur => sel_nodeId cur <> A
  end.

(** The rejection [POST /selection] answers with. *)
Definition invalid_selection_response (body : SelectionPayload) : Response :=
  {| status := 400;
     json := VObj [("error", VStr INVALID_SELECTION);
                   ("received", VArr (map VStr (payload_keys body)))] |}.

(** A required identity field that the payload does not carry. *)
Definition missing_required (body : SelectionPayload) : Prop :=
  fileId body = None \/ nodeId body = None \/ metadata body = VUndefined.

(** A store holding the selection of node "2:7" with one asset attached, as
    left by a selection push and one accepted batch. *)
Definition sample_asset (id : string) : ImageAsset :=
  {| asset_id := id; asset_format := "png"; asset_data := "iVBORw0KGgo=";
     asset_nodeId := "2:7"; asset_nodeName := "Avatar";
     asset_width := 100; asset_height := 50;
     asset_assetType := "image-fill"; asset_filePath := None |}.

Definition sample_payload (node : option string) : SelectionPayload :=
  {| payload_keys := ["fileId"; "nodeId"; "metadata"];
     fileId := Some "file-1"; nodeId := node; pageId := None; userId := None;
     metadata := VObj [("nodeName", VStr "Avatar")]; designTree := VUndefined |}.

Definition sample_relay : Relay :=
  (SelectionStore.setImages "2:7" [sample_asset "h0"]
     (post_selection 1000 (sample_payload (Some "2:7")) (SelectionStore.empty None)).2).2.

(** ** Base64 decoding *)

(** The position of a character in [CHARS]. *)
Fixpoint index_in (c : ascii) (alphabet : string) : option N :=
  match alphabet with
  | EmptyString => None
  | String a rest =>
      if Ascii.eqb a c then Some 0%N else option_map N.succ (index_in c rest)
  end.

Definition sextet_of (c : ascii) : option N := index_in c CHARS.

Definition byte_of_N (n : N) : option byte := Byte.of_N n.

(** The decoding of RFC 4648 that the relay relies on when it hands [data] to
    [Buffer.from(data, 'base64')]: four characters give three bytes, and a
    final group padded with one or two ['='] gives two bytes or one. *)
Fixpoint base64Decode (s : string) : option (list byte) :=
  match s with
  | EmptyString => Some []
  | String c0 (String c1 (String c2 (String c3 rest))) =>
      s0 ← sextet_of c0;
      s1 ← sextet_of c1;
      b0 ← byte_of_N (N.lor (N.shiftl s0 2) (N.shiftr s1 4));
      if Ascii.eqb c2 "="%char then
        if Ascii.eqb c3 "="%char && String.eqb rest "" then Some [b0] else None
      else
        s2 ← sextet_of c2;
        b1 ← byte_of_N (N.lor (N.shiftl (N.land s1 15) 4) (N.shiftr s2 2));
        if Ascii.eqb c3 "="%char then
          if String.eqb rest "" then Some [b0; b1] else None
        else
          s3 ← sextet_of c3;
          b2 ← byte_of_N (N.lor (N.shiftl (N.land s2 3) 6) s3);
          tail ← base64Decode rest;
          Some (b0 :: b1 :: b2 :: tail)
  | _ => None
  end.

(** The numbers below [n], for checking a property of small numbers by
    evaluation. *)
Definition below (n : nat) : list N := map N.of_nat (seq 0 n).

(** What [CHARS_at] gives for a sextet: one character, not the padding, that
    decodes to the sextet. *)
Definition sextet_ok (k : N) : bool :=
  match String.get (N.to_nat k) CHARS with
  | Some c =>
      String.eqb (CHARS_at k) (String c EmptyString)
      && negb (Ascii.eqb c "="%char)
      && match sextet_of c with Some k' => N.eqb k' k | None => false end
  | None => false
  end.

(** Joining two bit fields and splitting them again. *)
Definition join_ok (width : N) (a b : N) : bool :=
  N.eqb (N.shiftr (N.lor (N.shiftl a width) b) width) a
  && N.eqb (N.land (N.lor (N.shiftl a width) b) (N.ones width)) b
  && N.ltb (N.lor (N.shiftl a width) b) 64.

(** The padding [uint8ToBase64] ends with, by the number of bytes. *)
Definition padding (n : nat) : string :=
  match n mod 3 with
  | 1 => "=="
  | 2 => "="
  | _ => ""
  end.

(** Every character of [s] is one of [CHARS]. *)
Fixpoint in_alphabet (s : string) : bool :=
  match s with
  | EmptyString => true
  | String c rest =>
      match sextet_of c with Some _ => true | None => false end && in_alphabet rest
  end.

(** ** Shapes of serialized values *)

(** [p] is one of the four gradient paints. *)
Definition is_gradient (p : JsVal) : bool :=
  str_is (field p "type") "GRADIENT_LINEAR" || str_is (field p "type") "GRADIENT_RADIAL"
  || str_is (field p "type") "GRADIENT_ANGULAR" || str_is (field p "type") "GRADIENT_DIAMOND".

(** [null] or [undefined]: the values whose properties cannot be read. *)
Definition nullish (v : JsVal) : bool := is_null v || is_undefined v.

(** A paint whose extraction throws: a gradient one of whose stops is [null]
    or [undefined]. *)
Definition malformed_paint (p : JsVal) : bool :=
  truthy p && negb (is_symbol p) && is_gradient p && existsb nullish (arr_items (safeArr (field p "gradientStops"))).

(** A color as [toColor] makes it: four numeric channels. *)
Definition is_color (v : JsVal) : bool :=
  match v with
  | VObj [("r", VNum _); ("g", VNum _); ("b", VNum _); ("a", VNum _)] => true
  | _ => false
  end.

(** A serialized paint: an object with a string [type], a boolean [visible]
    and a numeric [opacity]. *)
Definition is_paint_record (v : JsVal) : bool :=
  match v with
  | VObj o =>
      JsType_eqb (typeof (obj_get o "type")) TString
      && JsType_eqb (typeof (obj_get o "visible")) TBoolean
      && JsType_eqb (typeof (obj_get o "opacity")) TNumber
  | _ => false
  end.

(** A serialized gradient stop. *)
Definition is_stop_record (v : JsVal) : bool :=
  match v with
  | VObj o => is_color (obj_get o "color") && is_number (obj_get o "position")
  | _ => false
  end.

(** What a serialized paint carries besides the three common fields, by the
    [type] of the source paint. *)
Definition paint_payload_ok (p v : JsVal) : bool :=
  match v with
  | VObj o =>
      if str_is (field p "type") "SOLID" then is_color (obj_get o "color")
      else if is_gradient p then
        isArray (obj_get o "gradientStops")
        && forallb is_stop_record (arr_items (obj_get o "gradientStops"))
      else if str_is (field p "type") "IMAGE" then
        JsType_eqb (typeof (obj_get o "imageRef")) TString
        && JsType_eqb (typeof (obj_get o "scaleMode")) TString
      else Nat.eqb (length o) 3
  | _ => false
  end.

(** [safeArr(safe(node.strokes))] and [safeArr(safe(node.effects))] *)
Definition strokes_of (node : Node) : list JsVal :=
  arr_items (safeArr (safe (prop node "strokes") VUndefined)).

Definition effects_of (node : Node) : list JsVal :=
  arr_items (safeArr (safe (prop node "effects") VUndefined)).

(** The outcome of a computation as an option. *)
Definition to_option {A : Type} (r : result A) : option A :=
  match r with
  | Ok a => Some a
  | Throw _ => None
  end.

(** The scalar fields of [base] with the value each takes when the source
    property is missing or of another type. *)
Definition DEFAULTS : list (string * JsVal) :=
  [("id", VStr ""); ("name", VStr ""); ("type", VStr "");
   ("visible", VBool true); ("opacity", VNum 1); ("blendMode", VStr "NORMAL");
   ("locked", VBool false); ("x", VNum 0); ("y", VNum 0);
   ("width", VNum 0); ("height", VNum 0); ("strokeWeight", VNum 0);
   ("strokeAlign", VStr "INSIDE"); ("isMask", VBool false)].

(** The fields the blocks after the object literal may set. *)
Definition BLOCK_KEYS : list string :=
  ["cornerRadius"; "topLeftRadius"; "topRightRadius"; "bottomRightRadius";
   "bottomLeftRadius"; "autoLayout"; "characters"; "textStyle"; "componentId"].

(** The fields of the object literal. *)
Definition BASE_KEYS : list string :=
  ["id"; "name"; "type"; "visible"; "opacity"; "blendMode"; "locked"; "x"; "y";
   "width"; "height"; "constraintHorizontal"; "constraintVertical"; "fills";
   "strokes"; "strokeWeight"; "strokeAlign"; "dashPattern"; "effects"; "isMask"].

(** A serialized effect: an object with a string [type], a boolean [visible]
    and a numeric [radius]. *)
Definition is_effect_record (v : JsVal) : bool :=
  match v with
  | VObj o =>
      JsType_eqb (typeof (obj_get o "type")) TString
      && JsType_eqb (typeof (obj_get o "visible")) TBoolean
      && JsType_eqb (typeof (obj_get o "radius")) TNumber
  | _ => false
  end.

(** A value [extractPaint] and [extractEffect] serialize rather than skip. *)
Definition is_item (v : JsVal) : bool := truthy v && negb (is_symbol v).

(** The node types that may carry an auto-layout, and whether a layout is on:
    [layoutMode] is neither missing, mixed, falsy nor ['NONE']. *)
Definition is_layout_type (node : Node) : bool :=
  str_is (prop node "type") "FRAME" || str_is (prop node "type") "COMPONENT"
  || str_is (prop node "type") "INSTANCE".

Definition layout_is_on (node : Node) : bool :=
  is_item (prop node "layoutMode") && negb (str_is (prop node "layoutMode") "NONE").

(** The snapshot of a node that serializes (an empty node otherwise). *)
Definition snapshot (node : Node) (depth : nat) : DesignNode :=
  ok_or_empty (extractDesignNode node depth).

(** A text node with a resolvable font. *)
Definition text_node : Node :=
  mkNode [("id", VStr "9:2"); ("type", VStr "TEXT"); ("characters", VStr "Hello");
          ("fontName", VObj [("family", VStr "Inter"); ("style", VStr "SemiBold 600")])] None.

(** Whether a string holds a decimal digit. *)
Fixpoint has_digit (s : string) : bool :=
  match s with
  | EmptyString => false
  | String c rest => is_digit c || has_digit rest
  end.

Fixpoint all_digits (s : string) : bool :=
  match s with
  | EmptyString => true
  | String c rest => is_digit c && all_digits rest
  end.

(** ** What the collector collects *)

Definition is_vector_type (node : Node) : bool :=
  let nt := safeStr (prop node "type") (VStr "") in
  str_is nt "VECTOR" || str_is nt "STAR" || str_is nt "LINE" || str_is nt "POLYGON"
  || str_is nt "BOOLEAN_OPERATION".

Definition is_container (node : Node) : bool :=
  let nt := safeStr (prop node "type") (VStr "") in
  str_is nt "INSTANCE" || str_is nt "COMPONENT" || str_is nt "COMPONENT_SET"
  || (str_is nt "FRAME" && truthy (safeBool (prop node "clipsContent") (VBool false))).

Definition has_extent (node : Node) : bool :=
  PrimFloat.ltb 0 (num_of (safeNum (prop node "width") (VNum 0)))
  || PrimFloat.ltb 0 (num_of (safeNum (prop node "height") (VNum 0))).

(** An entry names the node it refers to. *)
Definition names_its_node (r : NodeRef) : bool :=
  match ref_nodeId r, ref_nodeName r with
  | VStr i, VStr n =>
      String.eqb i (str_of (safeStr (prop (ref_node r) "id") (VStr "")))
      && String.eqb n (str_of (safeStr (prop (ref_node r) "name") (VStr "")))
  | _, _ => false
  end.

(** A well-formed vector entry: a visible node of a vector type with a
    positive width or height. *)
Definition is_vector_ref (r : NodeRef) : bool :=
  is_vector_type (ref_node r) && negb (is_invisible (ref_node r))
  && has_extent (ref_node r) && names_its_node r.

(** A well-formed composite entry: a visible container with an image fill
    within the reach of the sub-scan. *)
Definition is_composite_ref (r : NodeRef) : bool :=
  is_container (ref_node r) && negb (is_invisible (ref_node r))
  && subtreeHasImage (ref_node r) 0 && names_its_node r.

(** The entries and the ids of the composites agree: [compositeIds] holds
    the id of each entry of [compositeNodes], in order, once. *)
Definition composites_indexed (c : Collected) : Prop :=
  wf_hashes (compositeIds c) /\
  map ref_nodeId (compositeNodes c) = map VStr (keys (compositeIds c)).

(** [b] holds the vector and composite entries of [a] followed by new,
    well-formed ones. *)
Definition adds_sound_entries (a b : Collected) : Prop :=
  exists vs cs,
    vectorNodes b = vectorNodes a ++ vs /\
    compositeNodes b = compositeNodes a ++ cs /\
    forallb is_vector_ref vs = true /\
    forallb is_composite_ref cs = true.

(** The vector and composite entries of [b] stay within their caps, or
    within what [a] held already. *)
Definition within_caps (a b : Collected) : Prop :=
  length (vectorNodes b) <= Nat.max (length (vectorNodes a)) MAX_VECTOR_ASSETS /\
  length (compositeNodes b) <= Nat.max (length (compositeNodes a)) MAX_COMPOSITE_ASSETS.

(** [b] keeps the composites indexed if [a] has them indexed. *)
Definition keeps_indexed (a b : Collected) : Prop :=
  composites_indexed a -> composites_indexed b.

(** The nodes of a subtree down to [k] levels below its root, hidden ones
    included. *)
Fixpoint nodes_within (node : Node) (k : nat) {struct node} : list Node :=
  node ::
  match k with
  | 0 => []
  | S k' =>
      match node with
      | mkNode _ (Some cs) => flat_map (fun c => nodes_within c k') cs
      | mkNode _ None => []
      end
  end.

(** One of the node's own fills is an IMAGE paint with a reference. *)
Definition has_image_fill (node : Node) : bool :=
  existsb is_image_fill (fills_of node).

(** [node] under [n] groups. *)
Fixpoint wrap (n : nat) (node : Node) : Node :=
  match n with
  | 0 => node
  | S n' => mkNode [("type", VStr "GROUP")] (Some [wrap n' node])
  end.

(** Two instances that share the id "7:1", each over an image. *)
Definition twin_instances : Node :=
  mkNode [("id", VStr "0:1"); ("type", VStr "PAGE")]
         (Some [mkNode [("id", VStr "7:1"); ("name", VStr "Avatar"); ("type", VStr "INSTANCE")]
                       (Some [two_fill_node "h1"]);
                mkNode [("id", VStr "7:1"); ("name", VStr "Avatar"); ("type", VStr "INSTANCE")]
                       (Some [two_fill_node "h2"])]).

(** ** What the exporter sends *)

(** The entry [imageHashes] keeps for an image reference:
    [{ nodeId, nodeName, width, height }], two strings and two numbers. *)
Definition is_info_record (v : JsVal) : bool :=
  JsType_eqb (typeof (field v "nodeId")) TString
  && JsType_eqb (typeof (field v "nodeName")) TString
  && JsType_eqb (typeof (field v "width")) TNumber
  && JsType_eqb (typeof (field v "height")) TNumber.

Definition RASTER_FORMATS : list string := ["png"; "jpg"; "gif"; "webp"].

(** An asset as the relay expects it: the eight fields in order, strings
    for [id], [data], [nodeId] and [nodeName], numbers for [width] and
    [height], a raster format for an "image-fill" and "svg" for a
    "vector". *)
Definition is_asset_record (v : JsVal) : bool :=
  match v with
  | VObj [("id", VStr _); ("format", VStr format); ("data", VStr _);
          ("nodeId", VStr _); ("nodeName", VStr _);
          ("width", VNum _); ("height", VNum _); ("assetType", VStr assetType)] =>
      (String.eqb assetType "image-fill" && existsb (String.eqb format) RASTER_FORMATS)
      || (String.eqb assetType "vector" && String.eqb format "svg")
  | _ => false
  end.

(** An accumulator whose entries the exporter can turn into assets. *)
Definition exportable (c : Collected) : Prop :=
  Forall (fun kv => is_info_record kv.2 = true) (imageHashes c) /\
  forallb names_its_node (vectorNodes c) = true /\
  forallb names_its_node (compositeNodes c) = true.

Definition keeps_exportable (a b : Collected) : Prop := exportable a -> exportable b.


(** ** Relay: what a batch leaves behind *)

(** Every character of [s] is in the class [[a-zA-Z0-9_-]]. *)
Fixpoint id_chars_only (s : string) : bool :=
  match s with
  | EmptyString => true
  | String c rest => is_id_char c && id_chars_only rest
  end.




(** The entry of a name in the assets directory. *)
Definition dir_entry (dir : AssetsDir) (name : string) : option DirEntry :=
  entries ← dir; entries !! name.






(** What [clearAssets] leaves of an entry: sub-directories only. *)
Definition kept_by_clear (e : option DirEntry) : option DirEntry :=
  match e with
  | Some SubDirectory => Some SubDirectory
  | _ => None
  end.

(** ** Plugin: selection handling (code.js, [sendCurrentSelection]) *)

(** [a === b] on primitives. Two objects, arrays or functions are never
    taken for the same one; a symbol is known by its description. *)
Definition strict_eq (a b : JsVal) : bool :=
  match a, b with
  | VUndefined, VUndefined | VNull, VNull => true
  | VBool x, VBool y => Bool.eqb x y
  | VNum x, VNum y => PrimFloat.eqb x y
  | VStr x, VStr y => String.eqb x y
  | VSymbol x, VSymbol y => String.eqb x y
  | VBigInt x, VBigInt y => Z.eqb x y
  | _, _ => false
  end.

(** [a || b] *)
Definition js_or (a b : JsVal) : JsVal := if truthy a then a else b.

(** What the host shows besides the selection: [figma.fileKey],
    [figma.currentPage.id] and [figma.currentUser]. *)
Record Host : Type := mkHost {
  fileKey : JsVal;
  currentPageId : JsVal;
  currentUser : JsVal
}.

(** The two globals the handler reads and writes. *)
Record PluginState : Type := mkPluginState {
  lastNodeId : JsVal;
  selectionSeq : nat
}.

(** The messages posted to the UI; a [designTree] of [None] is [null]. *)
Inductive UiMessage : Type :=
| selection_cleared
| multi_selection (count : nat) (nodes : list JsVal)
| selection_changed (file node page user meta : JsVal) (tree : option DesignNode)
| images_extracted (node : JsVal) (assets : list JsVal).

(** An export under way: the closure of the [then] callback. *)
Record PendingExport : Type := mkPendingExport {
  mySeq : nat;
  capturedNodeId : JsVal;
  exporting : Collected
}.

(** What one call of the handler does: the messages it posts at once, the
    export it starts, the globals it leaves. *)
Record Outcome : Type := mkOutcome {
  posted : list UiMessage;
  started : option PendingExport;
  after : PluginState
}.

Definition selectionMetadata (node : Node) : JsVal :=
  VObj [("nodeName", safeStr (prop node "name") (VStr ""));
        ("nodeType", safeStr (prop node "type") (VStr ""));
        ("parentId", if truthy (prop node "parent")
                     then safeStr (field (prop node "parent") "id") (VStr "")
                     else VNull);
        ("width", safeNum (prop node "width") (VNum 0));
        ("height", safeNum (prop node "height") (VNum 0));
        ("visible", safeBool (prop node "visible") (VBool true))].

Definition sendCurrentSelection (host : Host) (force : bool) (selection : list Node)
    (st : PluginState) : Outcome :=
  match selection with
  | [] =>
      {| posted := [selection_cleared]; started := None;
         after := {| lastNodeId := VNull; selectionSeq := selectionSeq st |} |}
  | [node] =>
      if negb force && strict_eq (prop node "id") (lastNodeId st) then
        {| posted := []; started := None; after := st |}
      else
        let designTree := to_option (extractDesignNode node 0) in
        let seq := S (selectionSeq st) in
        let collected := collectImageAssets node 0 empty_collected in
        {| posted :=
             [selection_changed
                (js_or (fileKey host) (VStr "unknown"))
                (prop node "id")
                (currentPageId host)
                (js_or (if truthy (currentUser host) then field (currentUser host) "id"
                        else VNull)
                       (VStr "anonymous"))
                (selectionMetadata node)
                designTree];
           started :=
             if Nat.ltb 0 (asset_count collected) then
               Some {| mySeq := seq; capturedNodeId := prop node "id";
                       exporting := collected |}
             else None;
           after := {| lastNodeId := prop node "id"; selectionSeq := seq |} |}
  | _ :: _ :: _ =>
      {| posted :=
           [multi_selection (length selection)
              (map (fun n => VObj [("id", prop n "id"); ("name", prop n "name");
                                   ("type", prop n "type")])
                   (take 5 selection))];
         started := None;
         after := st |}
  end.

(** The [then] callback of an export, run when the globals are [st]. *)
Definition resolveExport (getImageBytes : string -> option (list byte))
    (exportAsync : Node -> ExportSettings -> option (list byte))
    (p : PendingExport) (st : PluginState) : list UiMessage :=
  let assets := exportImageAssets getImageBytes exportAsync (exporting p) in
  if Nat.ltb 0 (length assets) && Nat.eqb (mySeq p) (selectionSeq st) then
    [images_extracted (capturedNodeId p) assets]
  else [].

(** A call of the handler: by the debounced [selectionchange] listener
    ([force] is [false]) or by a 'refresh' message ([force] is [true]). *)
Record Call : Type := mkCall {
  call_force : bool;
  call_selection : list Node
}.

Definition run (host : Host) (calls : list Call) (st : PluginState) : PluginState :=
  fold_left (fun s c => after (sendCurrentSelection host (call_force c) (call_selection c) s))
            calls st.

(** The metadata of a push: two strings, a string or [null], two numbers
    and a boolean. *)
Definition is_metadata_record (v : JsVal) : bool :=
  match v with
  | VObj [("nodeName", VStr _); ("nodeType", VStr _); ("parentId", parent);
          ("width", VNum _); ("height", VNum _); ("visible", VBool _)] =>
      is_null parent || JsType_eqb (typeof parent) TString
  | _ => false
  end.

(** The call selects one node whose id is a string other than [id], or
    forces a push of one node. *)
Definition moves_on (id : string) (c : Call) : bool :=
  match call_selection c with
  | [node] =>
      call_force c
      || match prop node "id" with
         | VStr other => negb (String.eqb other id)
         | _ => false
         end
  | _ => false
  end.

(** The call selects nothing or several nodes. *)
Definition selects_no_single (c : Call) : bool :=
  match call_selection c with
  | [_] => false
  | _ => true
  end.

(** The globals as an export of node [id] started at sequence number
    [seq] may find them while it is still current. *)
Definition still_current (id : string) (seq : nat) (s : PluginState) : Prop :=
  seq <= selectionSeq s /\
  (selectionSeq s = seq -> lastNodeId s = VStr id \/ lastNodeId s = VNull).

(** A photo frame, and a frame with a malformed gradient fill. *)
Definition photo_frame : Node :=
  mkNode [("id", VStr "8:1"); ("name", VStr "Photo"); ("type", VStr "FRAME");
          ("width", VNum 100); ("height", VNum 50);
          ("fills", VArr [image_paint "h1"])] None.

Definition broken_frame : Node :=
  mkNode [("id", VStr "8:2"); ("name", VStr "Broken"); ("type", VStr "FRAME");
          ("fills", VArr [VObj [("type", VStr "GRADIENT_LINEAR");
                                ("gradientStops", VArr [VNull])]])] None.

Definition idle : PluginState := {| lastNodeId := VNull; selectionSeq := 0 |}.

Definition local_host : Host :=
  {| fileKey := VUndefined; currentPageId := VStr "0:1"; currentUser := VNull |}.

Definition other_frame : Node :=
  mkNode [("id", VStr "8:3"); ("name", VStr "Other"); ("type", VStr "FRAME")] None.

(** ** Content types (imageStorage.ts, [serveFromMemory]; index.ts,
    [get_figma_selection_image]) *)

(** The table of [serveFromMemory]. *)
Definition HTTP_MIME : JsObject :=
  [("png", VStr "image/png"); ("jpg", VStr "image/jpeg"); ("jpeg", VStr "image/jpeg");
   ("gif", VStr "image/gif"); ("webp", VStr "image/webp")].

(** The table of the tool [get_figma_selection_image]. *)
Definition TOOL_MIME : JsObject :=
  [("png", VStr "image/png"); ("jpg", VStr "image/jpeg");
   ("gif", VStr "image/gif"); ("webp", VStr "image/webp")].

(** The [Content-Type] header [serveFromMemory] sets for an asset. *)
Definition serveFromMemory_type (format : string) : JsVal :=
  if String.eqb format "svg" then VStr "image/svg+xml"
  else js_or (obj_lookup HTTP_MIME format) (VStr "image/png").

(** The [mimeType] the tool gives a raster asset. *)
Definition tool_mimeType (format : string) : JsVal :=
  js_or (obj_lookup TOOL_MIME format) (VStr "image/png").

(** The media type of a format the plugin sniffs. *)
Definition media_type (format : string) : string :=
  "image/" +:+ (if String.eqb format "jpg" then "jpeg" else format).

(** ** Output file name (buildWebpage.ts, [buildWebpageCommand]) *)

(** [\w] and [\s] on code units below 256, the names this model covers. *)
Definition is_word_char (c : ascii) : bool :=
  let n := nat_of_ascii c in
  (Nat.leb 97 n && Nat.leb n 122) || (Nat.leb 65 n && Nat.leb n 90) ||
  (Nat.leb 48 n && Nat.leb n 57) || Nat.eqb n 95.

Definition is_space_char (c : ascii) : bool :=
  let n := nat_of_ascii c in
  (Nat.leb 9 n && Nat.leb n 13) || Nat.eqb n 32 || Nat.eqb n 160.

Definition is_hyphen (c : ascii) : bool := Nat.eqb (nat_of_ascii c) 45.

(** [.replace(/[^\w\s-]/g, '')] *)
Fixpoint keep_name_chars (s : string) : string :=
  match s with
  | EmptyString => EmptyString
  | String c rest =>
      if is_word_char c || is_space_char c || is_hyphen c
      then String c (keep_name_chars rest)
      else keep_name_chars rest
  end.

(** [.replace(/\s+/g, '-')]; [in_run] tells that the character before was
    white space. *)
Fixpoint hyphenate (in_run : bool) (s : string) : string :=
  match s with
  | EmptyString => EmptyString
  | String c rest =>
      if is_space_char c then
        if in_run then hyphenate true rest else String "-"%char (hyphenate true rest)
      else String c (hyphenate false rest)
  end.

(** [.toLowerCase()], on code units below 256. *)
Definition lower_char (c : ascii) : ascii :=
  let n := nat_of_ascii c in
  if (Nat.leb 65 n && Nat.leb n 90)
     || (Nat.leb 192 n && Nat.leb n 222 && negb (Nat.eqb n 215))
  then ascii_of_nat (n + 32)
  else c.

Fixpoint toLowerCase (s : string) : string :=
  match s with
  | EmptyString => EmptyString
  | String c rest => String (lower_char c) (toLowerCase rest)
  end.

Definition safeName (nodeName : string) : string :=
  String.substring 0 40 (toLowerCase (hyphenate false (keep_name_chars nodeName))).

Definition fileName (nodeName : string) : string :=
  "figma-" +:+ (if String.eqb (safeName nodeName) "" then "output" else safeName nodeName)
  +:+ ".html".

(** A lower-case letter, a digit, ['_'] or ['-']. *)
Definition is_slug_char (c : ascii) : bool :=
  let n := nat_of_ascii c in
  (Nat.leb 97 n && Nat.leb n 122) || (Nat.leb 48 n && Nat.leb n 57)
  || Nat.eqb n 95 || Nat.eqb n 45.

Fixpoint forall_chars (p : ascii -> bool) (s : string) : bool :=
  match s with
  | EmptyString => true
  | String c rest => p c && forall_chars p rest
  end.

Definition slug_chars_only (s : string) : bool := forall_chars is_slug_char s.

(** * Properties *)

(** ** Value normalizer *)

Section Normalizer.
Variables val fallback : JsVal.

Lemma or_default_cases dflt :
  or_default fallback dflt = fallback \/
  (fallback = VUndefined /\ or_default fallback dflt = dflt).
Proof. unfold or_default. destruct fallback; simpl; auto. Qed.

Lemma safe_absent : absent val = true -> safe val fallback = or_default fallback VNull.
Proof. destruct val; simpl; intros; try discriminate; reflexivity. Qed.

Lemma safe_present : absent val = false -> safe val fallback = val.
Proof. destruct val; simpl; intros; try discriminate; reflexivity. Qed.

Lemma safeNum_kind : typeof (safeNum val fallback) = TNumber \/ safeNum val fallback = fallback.
Proof.
  unfold safeNum. destruct (JsType_eqb (typeof (safe val VUndefined)) TNumber) eqn:E.
  - left. destruct (typeof (safe val VUndefined)); simpl in E; congruence.
  - destruct (or_default_cases (VNum 0)) as [-> | [_ ->]]; auto.
Qed.

Lemma safeStr_kind : typeof (safeStr val fallback) = TString \/ safeStr val fallback = fallback.
Proof.
  unfold safeStr. destruct (JsType_eqb (typeof (safe val VUndefined)) TString) eqn:E.
  - left. destruct (typeof (safe val VUndefined)); simpl in E; congruence.
  - destruct (or_default_cases (VStr "")) as [-> | [_ ->]]; auto.
Qed.

Lemma safeBool_kind : typeof (safeBool val fallback) = TBoolean \/ safeBool val fallback = fallback.
Proof.
  unfold safeBool. destruct (JsType_eqb (typeof (safe val VUndefined)) TBoolean) eqn:E.
  - left. destruct (typeof (safe val VUndefined)); simpl in E; congruence.
  - destruct (or_default_cases (VBool false)) as [-> | [_ ->]]; auto.
Qed.

Lemma safeArr_kind : isArray (safeArr val) = true.
Proof. unfold safeArr. destruct (isArray (safe val VUndefined)) eqn:E; auto. Qed.

Lemma safe_kind :
  (absent val = false /\ safe val fallback = val) \/
  safe val fallback = fallback \/
  (fallback = VUndefined /\ safe val fallback = VNull).
Proof.
  destruct (absent val) eqn:E.
  - right. rewrite safe_absent by assumption.
    destruct (or_default_cases VNull) as [-> | [-> ->]]; auto.
  - left. split; [reflexivity | now apply safe_present].
Qed.
End Normalizer.

(** C2. The value normalizers are total functions on every JavaScript value
    (no case throws): each returns a value of the kind it is named for, or
    the fallback the caller supplied ([safe] with no fallback returns
    [null]); a Symbol such as [figma.mixed] is treated exactly as [null] and
    [undefined] are; and no Symbol comes out unless the caller passed one as
    the fallback. *)
Theorem normalizers_total_typed_and_mixed_safe (val fallback : JsVal) (mixed : string) :
  (* kind of the result *)
  ((absent val = false /\ safe val fallback = val) \/
   safe val fallback = fallback \/
   (fallback = VUndefined /\ safe val fallback = VNull)) /\
  (typeof (safeNum val fallback) = TNumber \/ safeNum val fallback = fallback) /\
  (typeof (safeStr val fallback) = TString \/ safeStr val fallback = fallback) /\
  (typeof (safeBool val fallback) = TBoolean \/ safeBool val fallback = fallback) /\
  isArray (safeArr val) = true /\
  (* the sentinel is handled as null and undefined are *)
  (safe (VSymbol mixed) fallback = safe VNull fallback /\
   safe (VSymbol mixed) fallback = safe VUndefined fallback) /\
  (safeNum (VSymbol mixed) fallback = safeNum VNull fallback /\
   safeNum (VSymbol mixed) fallback = safeNum VUndefined fallback) /\
  (safeStr (VSymbol mixed) fallback = safeStr VNull fallback /\
   safeStr (VSymbol mixed) fallback = safeStr VUndefined fallback) /\
  (safeBool (VSymbol mixed) fallback = safeBool VNull fallback /\
   safeBool (VSymbol mixed) fallback = safeBool VUndefined fallback) /\
  (safeArr (VSymbol mixed) = safeArr VNull /\
   safeArr (VSymbol mixed) = safeArr VUndefined) /\
  (* the sentinel never comes out *)
  is_symbol (safeArr val) = false /\
  (is_symbol fallback = false ->
   is_symbol (safe val fallback) = false /\
   is_symbol (safeNum val fallback) = false /\
   is_symbol (safeStr val fallback) = false /\
   is_symbol (safeBool val fallback) = false).
Proof.
  split; [apply safe_kind|].
  split; [apply safeNum_kind|].
  split; [apply safeStr_kind|].
  split; [apply safeBool_kind|].
  split; [apply safeArr_kind|].
  do 5 (split; [split; reflexivity|]).
  split.
  - destruct val; reflexivity.
  - intros Hfb. repeat split.
    + destruct val, fallback; first [reflexivity | discriminate Hfb].
    + destruct val, fallback; first [reflexivity | discriminate Hfb].
    + destruct val, fallback; first [reflexivity | discriminate Hfb].
    + destruct val, fallback; first [reflexivity | discriminate Hfb].
Qed.

Lemma normalizers_witness :
  is_symbol (VNum 1%float) = false /\
  is_symbol (safe figma_mixed (VNum 1%float)) = false /\
  is_symbol (safeNum figma_mixed (VNum 1%float)) = false /\
  is_symbol (safeStr figma_mixed (VNum 1%float)) = false /\
  is_symbol (safeBool figma_mixed (VNum 1%float)) = false.
Proof.
  split; [reflexivity|].
  apply (normalizers_total_typed_and_mixed_safe figma_mixed (VNum 1%float) "m").
  reflexivity.
Defined.

(** ** Image format sniffing *)

Lemma byte_is_spec bs i b : byte_is bs i b = true <-> bs !! i = Some b.
Proof.
  unfold byte_is. destruct (bs !! i) as [x|]; split; intros H; try discriminate.
  - f_equal. now apply byte_dec_bl.
  - injection H as ->. now apply byte_dec_lb.
Qed.

Lemma has_bytes_at_lookup off sig bs :
  has_bytes_at off sig bs <-> forall j, j < length sig -> bs !! (off + j) = sig !! j.
Proof.
  unfold has_bytes_at. split.
  - intros H j Hj. transitivity (take (length sig) (drop off bs) !! j).
    + rewrite lookup_take_lt by assumption. now rewrite lookup_drop.
    + now rewrite H.
  - intros H. apply list_eq. intros j.
    destruct (decide (j < length sig)) as [Hj|Hj].
    + rewrite lookup_take_lt by assumption. rewrite lookup_drop. now apply H.
    + rewrite lookup_take_ge by lia. symmetry. apply lookup_ge_None_2. lia.
Qed.

Lemma has_bytes_at_length off sig bs :
  has_bytes_at off sig bs -> off + length sig <= length bs \/ sig = [].
Proof.
  destruct sig as [|b sig]; [now right|]. intros H. left.
  apply has_bytes_at_lookup with (j := length sig) in H; [|simpl; lia].
  assert (Hs : is_Some ((b :: sig) !! length sig))
    by (apply lookup_lt_is_Some_2; simpl; lia).
  rewrite <- H in Hs. apply lookup_lt_is_Some_1 in Hs. simpl. lia.
Qed.

(** Each test of [detectImageFormat] decides the signature it is written for. *)
Lemma png_test bs :
  byte_is bs 0 x89 && byte_is bs 1 x50 && byte_is bs 2 x4e && byte_is bs 3 x47 = true
  <-> starts_with PNG_MAGIC bs.
Proof.
  unfold starts_with. rewrite has_bytes_at_lookup, !andb_true_iff, !byte_is_spec. split.
  - intros [[[H0 H1] H2] H3] j Hj. simpl in Hj.
    destruct j as [|[|[|[|j]]]]; simpl; try assumption; lia.
  - intros H. repeat split; [apply (H 0)|apply (H 1)|apply (H 2)|apply (H 3)]; simpl; lia.
Qed.

Lemma jpeg_test bs :
  byte_is bs 0 xff && byte_is bs 1 xd8 = true <-> starts_with JPEG_SOI bs.
Proof.
  unfold starts_with. rewrite has_bytes_at_lookup, !andb_true_iff, !byte_is_spec. split.
  - intros [H0 H1] j Hj. simpl in Hj.
    destruct j as [|[|j]]; simpl; try assumption; lia.
  - intros H. repeat split; [apply (H 0)|apply (H 1)]; simpl; lia.
Qed.

Lemma gif_test bs :
  byte_is bs 0 x47 && byte_is bs 1 x49 && byte_is bs 2 x46 = true
  <-> starts_with GIF_HEADER bs.
Proof.
  unfold starts_with. rewrite has_bytes_at_lookup, !andb_true_iff, !byte_is_spec. split.
  - intros [[H0 H1] H2] j Hj. simpl in Hj.
    destruct j as [|[|[|j]]]; simpl; try assumption; lia.
  - intros H. repeat split; [apply (H 0)|apply (H 1)|apply (H 2)]; simpl; lia.
Qed.

Lemma webp_test bs :
  byte_is bs 8 x57 && byte_is bs 9 x45 && byte_is bs 10 x42 && byte_is bs 11 x50 = true
  <-> has_bytes_at 8 WEBP_TAG bs.
Proof.
  rewrite has_bytes_at_lookup, !andb_true_iff, !byte_is_spec. split.
  - intros [[[H0 H1] H2] H3] j Hj. simpl in Hj.
    destruct j as [|[|[|[|j]]]]; simpl; try assumption; lia.
  - intros H. repeat split; [apply (H 0)|apply (H 1)|apply (H 2)|apply (H 3)]; simpl; lia.
Qed.

Lemma test_false (b : bool) (P : Prop) : (b = true <-> P) -> ~ P -> b = false.
Proof. destruct b; intuition. Qed.

Lemma detect_long bs :
  12 <= length bs ->
  detectImageFormat (Some bs) =
    if byte_is bs 0 x89 && byte_is bs 1 x50 && byte_is bs 2 x4e && byte_is bs 3 x47
    then "png"
    else if byte_is bs 0 xff && byte_is bs 1 xd8 then "jpg"
    else if byte_is bs 0 x47 && byte_is bs 1 x49 && byte_is bs 2 x46 then "gif"
    else if byte_is bs 8 x57 && byte_is bs 9 x45 && byte_is bs 10 x42 && byte_is bs 11 x50
    then "webp"
    else "png".
Proof.
  intros H. unfold detectImageFormat.
  destruct (Nat.ltb_spec (length bs) 12); [lia | reflexivity].
Qed.

Lemma detect_short bs : length bs < 12 -> detectImageFormat (Some bs) = "png".
Proof.
  intros H. unfold detectImageFormat.
  destruct (Nat.ltb_spec (length bs) 12); [reflexivity | lia].
Qed.

Lemma starts_with_head b sig bs : starts_with (b :: sig) bs -> bs !! 0 = Some b.
Proof.
  unfold starts_with. rewrite has_bytes_at_lookup. intros H.
  apply (H 0). simpl. lia.
Qed.

Lemma byte_is_head bs b c : bs !! 0 = Some b -> byte_is bs 0 c = Byte.eqb b c.
Proof. unfold byte_is. now intros ->. Qed.

(** C10. An array of fewer than 12 bytes is reported as "png" whatever it
    holds, and so is an array of 12 bytes or more that carries none of the
    four signatures. *)
Theorem detect_short_or_unknown_is_png (bs : list byte) :
  (length bs < 12 -> detectImageFormat (Some bs) = "png") /\
  (12 <= length bs ->
   ~ starts_with PNG_MAGIC bs -> ~ starts_with JPEG_SOI bs ->
   ~ starts_with GIF_HEADER bs -> ~ has_bytes_at 8 WEBP_TAG bs ->
   detectImageFormat (Some bs) = "png").
Proof.
  split; [apply detect_short|].
  intros Hlen Hp Hj Hg Hw. rewrite detect_long by assumption.
  rewrite (test_false _ _ (png_test bs) Hp), (test_false _ _ (jpeg_test bs) Hj),
    (test_false _ _ (gif_test bs) Hg), (test_false _ _ (webp_test bs) Hw).
  reflexivity.
Qed.

(** A JPEG start-of-image marker and a GIF header, each cut short, and twelve
    zero bytes. *)
Lemma detect_short_or_unknown_witness :
  (starts_with JPEG_SOI [xff; xd8] /\ detectImageFormat (Some [xff; xd8]) = "png") /\
  (starts_with GIF_HEADER [x47; x49; x46; x38; x39; x61] /\
   detectImageFormat (Some [x47; x49; x46; x38; x39; x61]) = "png") /\
  detectImageFormat (Some (replicate 12 x00)) = "png".
Proof.
  split; [split; [reflexivity|]|split; [split; [reflexivity|]|]].
  - apply (proj1 (detect_short_or_unknown_is_png [xff; xd8])). simpl. lia.
  - apply (proj1 (detect_short_or_unknown_is_png [x47; x49; x46; x38; x39; x61])).
    simpl. lia.
  - apply (proj2 (detect_short_or_unknown_is_png (replicate 12 x00)));
      [simpl; lia | discriminate | discriminate | discriminate | discriminate].
Defined.

(** C7, as the specification words it, fails: the length guard runs before
    any signature test, so a two-byte array holding the JPEG marker is
    reported as "png"; and an array that starts with the JPEG marker and also
    carries the WEBP tag at offset 8 cannot be both "jpg" and "webp". *)
Lemma detect_signature_counterexample :
  (starts_with JPEG_SOI [xff; xd8] /\
   detectImageFormat (Some [xff; xd8]) = "png" /\
   detectImageFormat (Some [xff; xd8]) <> "jpg") /\
  (starts_with JPEG_SOI [xff; xd8; x00; x00; x00; x00; x00; x00; x57; x45; x42; x50] /\
   has_bytes_at 8 WEBP_TAG [xff; xd8; x00; x00; x00; x00; x00; x00; x57; x45; x42; x50] /\
   detectImageFormat
     (Some [xff; xd8; x00; x00; x00; x00; x00; x00; x57; x45; x42; x50]) = "jpg" /\
   detectImageFormat
     (Some [xff; xd8; x00; x00; x00; x00; x00; x00; x57; x45; x42; x50]) <> "webp").
Proof.
  repeat split; try reflexivity; discriminate.
Qed.

(** C7 (amended). The format an asset records is the one sniffed from its
    bytes, whatever the node or the collected entry says. An array that starts
    with the PNG magic number is "png" at any length; for an array of at
    least 12 bytes the signatures are tried in the order PNG, JPEG, GIF,
    WEBP: the JPEG marker gives "jpg", the GIF header gives "gif", and the
    WEBP tag at offset 8 gives "webp" when none of the three leading
    signatures is present. *)
Theorem detect_by_leading_bytes (bs : list byte) :
  (forall hash info comp,
     field (imageFillAsset hash info bs) "format" = VStr (detectImageFormat (Some bs)) /\
     field (compositeAsset comp bs) "format" = VStr (detectImageFormat (Some bs))) /\
  (starts_with PNG_MAGIC bs -> detectImageFormat (Some bs) = "png") /\
  (12 <= length bs -> starts_with JPEG_SOI bs -> detectImageFormat (Some bs) = "jpg") /\
  (12 <= length bs -> starts_with GIF_HEADER bs -> detectImageFormat (Some bs) = "gif") /\
  (has_bytes_at 8 WEBP_TAG bs ->
   ~ starts_with PNG_MAGIC bs -> ~ starts_with JPEG_SOI bs -> ~ starts_with GIF_HEADER bs ->
   detectImageFormat (Some bs) = "webp").
Proof.
  split; [intros hash info comp; split; reflexivity|].
  split; [|split; [|split]].
  - intros Hp. destruct (le_lt_dec 12 (length bs)) as [Hlen|Hlen].
    + rewrite detect_long by assumption.
      now rewrite (proj2 (png_test bs) Hp).
    + now apply detect_short.
  - intros Hlen Hj. rewrite detect_long by assumption.
    rewrite (byte_is_head bs xff x89) by (eapply starts_with_head; exact Hj).
    simpl. now rewrite (proj2 (jpeg_test bs) Hj).
  - intros Hlen Hg. rewrite detect_long by assumption.
    rewrite (byte_is_head bs x47 x89), (byte_is_head bs x47 xff)
      by (eapply starts_with_head; exact Hg).
    simpl. now rewrite (proj2 (gif_test bs) Hg).
  - intros Hw Hp Hj Hg.
    destruct (has_bytes_at_length _ _ _ Hw) as [Hlen|Hnil]; [|discriminate].
    simpl in Hlen. rewrite detect_long by assumption.
    rewrite (test_false _ _ (png_test bs) Hp), (test_false _ _ (jpeg_test bs) Hj),
      (test_false _ _ (gif_test bs) Hg).
    now rewrite (proj2 (webp_test bs) Hw).
Qed.

(** The PNG magic number alone; a JFIF header; a GIF89a header; a RIFF/WEBP
    header. *)
Lemma detect_by_leading_bytes_witness :
  detectImageFormat (Some [x89; x50; x4e; x47]) = "png" /\
  detectImageFormat
    (Some [xff; xd8; xff; xe0; x00; x10; x4a; x46; x49; x46; x00; x01]) = "jpg" /\
  detectImageFormat
    (Some [x47; x49; x46; x38; x39; x61; x01; x00; x01; x00; x80; x00]) = "gif" /\
  detectImageFormat
    (Some [x52; x49; x46; x46; x24; x00; x00; x00; x57; x45; x42; x50]) = "webp".
Proof.
  split; [|split; [|split]].
  - apply (proj1 (proj2 (detect_by_leading_bytes [x89; x50; x4e; x47]))). reflexivity.
  - apply (proj1 (proj2 (proj2 (detect_by_leading_bytes
      [xff; xd8; xff; xe0; x00; x10; x4a; x46; x49; x46; x00; x01]))));
      [simpl; lia | reflexivity].
  - apply (proj1 (proj2 (proj2 (proj2 (detect_by_leading_bytes
      [x47; x49; x46; x38; x39; x61; x01; x00; x01; x00; x80; x00])))));
      [simpl; lia | reflexivity].
  - apply (proj2 (proj2 (proj2 (proj2 (detect_by_leading_bytes
      [x52; x49; x46; x46; x24; x00; x00; x00; x57; x45; x42; x50])))));
      [reflexivity | discriminate | discriminate | discriminate].
Defined.

(** ** Node serializer *)

(** Induction over a node and, through the list, over its children. *)
Lemma Node_nested_ind (P : Node -> Prop) :
  (forall props, P (mkNode props None)) ->
  (forall props cs, Forall P cs -> P (mkNode props (Some cs))) ->
  forall node, P node.
Proof.
  intros Hleaf Hparent.
  fix IH 1. intros [props [cs|]]; [|apply Hleaf].
  apply Hparent. induction cs as [|c cs IHcs]; constructor; [apply IH | exact IHcs].
Qed.

(** Case analysis on the two paint lists, either of which may throw. *)
Ltac split_paints :=
  unfold mbind, result_bind;
  repeat match goal with
         | |- context [match mapM extractPaint ?l with Ok _ => _ | Throw _ => _ end] =>
             destruct (mapM extractPaint l)
         end.

(** The children field is decided by the depth test and the presence of
    [node.children] alone. *)
Lemma extractDesignNode_children node depth d :
  extractDesignNode node depth = Ok d ->
  design_children d =
    if Nat.ltb depth MAX_TREE_DEPTH then
      match node_children node with
      | Some cs =>
          Some (flat_map (fun c => push_unless_thrown (extractDesignNode c (S depth))) cs)
      | None => None
      end
    else None.
Proof.
  destruct node as [props cs]. simpl. split_paints; try discriminate.
  intros [= <-]. simpl. destruct cs; reflexivity.
Qed.

Lemma extractDesignNode_succeeds node depth depth' :
  succeeds (extractDesignNode node depth) = succeeds (extractDesignNode node depth').
Proof.
  destruct node as [props cs]. simpl. split_paints; reflexivity.
Qed.

Lemma forallb_flat_map {A B : Type} (p : B -> bool) (f : A -> list B) (l : list A) :
  Forall (fun a => forallb p (f a) = true) l -> forallb p (flat_map f l) = true.
Proof.
  induction 1 as [|a l Ha _ IH]; simpl; [reflexivity|].
  rewrite forallb_app, Ha, IH. reflexivity.
Qed.

Lemma extractDesignNode_within_depth node :
  forall depth d, extractDesignNode node depth = Ok d -> within_depth depth d = true.
Proof.
  induction node as [props|props cs IH] using Node_nested_ind; intros depth d Hd;
    pose proof (extractDesignNode_children _ _ _ Hd) as Hc; simpl in Hc;
    destruct d as [fields children]; simpl in Hc; subst children.
  - destruct (Nat.ltb depth MAX_TREE_DEPTH); reflexivity.
  - destruct (Nat.ltb depth MAX_TREE_DEPTH) eqn:Hlt; [|reflexivity].
    simpl. rewrite Hlt. simpl. apply forallb_flat_map.
    eapply Forall_impl; [exact IH|]. intros c Hc. simpl in Hc.
    destruct (extractDesignNode c (S depth)) as [dc|] eqn:E; simpl; [|reflexivity].
    rewrite (Hc _ _ E). reflexivity.
Qed.

Lemma within_depth_levels d :
  forall depth, within_depth depth d = true -> levels d <= MAX_TREE_DEPTH - depth.
Proof.
  revert d. fix IH 1. intros [fields [cs|]] depth H; simpl in *; [|lia].
  apply andb_true_iff in H as [Hlt Hcs]. apply Nat.ltb_lt in Hlt.
  induction cs as [|c cs IHcs]; simpl in *; [lia|].
  apply andb_true_iff in Hcs as [Hc Hcs].
  specialize (IH c (S depth) Hc). specialize (IHcs Hcs). lia.
Qed.

(** C3. Whatever the source node and the starting depth, a serialized node
    has a [children] field only when it was produced at a depth below
    [MAX_TREE_DEPTH] (and then exactly when the source has children): the
    node produced at the bound, or beyond it, has none; the snapshot as a
    whole reaches at most [MAX_TREE_DEPTH - depth] levels below its root; and
    cutting the tree is not an error, a node that serializes at one depth
    serializes at every depth. *)
Theorem snapshot_is_cut_at_depth_bound (node : Node) (depth : nat) (d : DesignNode) :
  extractDesignNode node depth = Ok d ->
  (depth = MAX_TREE_DEPTH -> design_children d = None) /\
  (MAX_TREE_DEPTH <= depth -> design_children d = None) /\
  (is_Some (design_children d) <->
   depth < MAX_TREE_DEPTH /\ is_Some (node_children node)) /\
  within_depth depth d = true /\
  levels d <= MAX_TREE_DEPTH - depth /\
  (forall depth', succeeds (extractDesignNode node depth') = true).
Proof.
  intros Hd. pose proof (extractDesignNode_children _ _ _ Hd) as Hc.
  assert (Hcut : MAX_TREE_DEPTH <= depth -> design_children d = None).
  { intros Hle. rewrite Hc. destruct (Nat.ltb_spec depth MAX_TREE_DEPTH); [lia|reflexivity]. }
  split; [intros ->; apply Hcut; lia|]. split; [exact Hcut|]. split; [|split; [|split]].
  - rewrite Hc. destruct (Nat.ltb_spec depth MAX_TREE_DEPTH) as [Hlt|Hge].
    + destruct (node_children node); split.
      * intros _. split; [assumption | eauto].
      * intros _. eauto.
      * intros H. destruct (is_Some_None H).
      * intros [_ H]. destruct (is_Some_None H).
    + split; [intros H; destruct (is_Some_None H) | intros [? _]; lia].
  - now apply extractDesignNode_within_depth with (node := node).
  - apply within_depth_levels. now apply extractDesignNode_within_depth with (node := node).
  - intros depth'. rewrite (extractDesignNode_succeeds node depth' depth), Hd. reflexivity.
Qed.

(** A frame that has a child, serialized at depth [MAX_TREE_DEPTH]. *)
Lemma snapshot_cut_witness :
  extractDesignNode (chain 1) MAX_TREE_DEPTH = Ok frame_at_bound /\
  is_Some (node_children (chain 1)) /\
  design_children frame_at_bound = None.
Proof.
  assert (H : extractDesignNode (chain 1) MAX_TREE_DEPTH = Ok frame_at_bound)
    by (vm_compute; reflexivity).
  split; [exact H|]. split; [simpl; eauto|].
  apply (proj1 (snapshot_is_cut_at_depth_bound (chain 1) MAX_TREE_DEPTH frame_at_bound H)).
  reflexivity.
Defined.

(** Twenty nested frames, serialized from the root: fifteen levels survive. *)
Example deep_chain_is_cut :
  option_map levels
    (match extractDesignNode (chain 20) 0 with Ok d => Some d | Throw _ => None end)
  = Some 15.
Proof. vm_compute. reflexivity. Qed.

(** A child whose extraction throws is left out; its sibling stays. *)
Example malformed_child_is_dropped :
  succeeds (extractDesignNode frame_with_malformed_child 0) = true /\
  child_ids (ok_or_empty (extractDesignNode frame_with_malformed_child 0)) = [VStr "9:2"].
Proof. vm_compute. split; reflexivity. Qed.

Example fontWeight_samples :
  fontWeight "Bold" = 400%float /\ fontWeight "SemiBold 600" = 600%float /\
  fontWeight "" = 400%float.
Proof. vm_compute. repeat split; reflexivity. Qed.

Lemma obj_has_set o k v k' : obj_has (obj_set o k v) k' = obj_has o k' || String.eqb k k'.
Proof.
  unfold obj_has. induction o as [|[k0 v0] o IH]; simpl.
  - now rewrite orb_false_r.
  - destruct (String.eqb_spec k0 k) as [->|Hne]; simpl.
    + destruct (String.eqb k k'); simpl; rewrite ?orb_true_r, ?orb_false_r; reflexivity.
    + rewrite IH. now rewrite orb_assoc.
Qed.

Lemma obj_get_set_same o k v : obj_get (obj_set o k v) k = v.
Proof.
  induction o as [|[k0 v0] o IH]; simpl.
  - now rewrite String.eqb_refl.
  - destruct (String.eqb_spec k0 k) as [->|Hne]; simpl.
    + now rewrite String.eqb_refl.
    + destruct (String.eqb_spec k0 k); [contradiction | exact IH].
Qed.

Lemma obj_get_set_other o k v k' : k <> k' -> obj_get (obj_set o k v) k' = obj_get o k'.
Proof.
  intros Hne. induction o as [|[k0 v0] o IH]; simpl.
  - destruct (String.eqb_spec k k'); [contradiction | reflexivity].
  - destruct (String.eqb_spec k0 k) as [->|Hk]; simpl.
    + destruct (String.eqb_spec k k'); [contradiction | reflexivity].
    + now rewrite IH.
Qed.

(** What [extractDesignNode] sets on [base], for a node that serializes. *)
Lemma extractDesignNode_fields node depth d :
  extractDesignNode node depth = Ok d ->
  exists fills strokes effects,
    design_fields d =
      componentField node (textFields node (autoLayoutField node
        (cornerRadiusFields node (baseFields node fills strokes effects)))).
Proof.
  destruct node as [props cs]. simpl. split_paints; try discriminate.
  intros [= <-]. simpl. eauto.
Qed.

(** The blocks after the corner radius set none of the radius fields. *)
Lemma later_blocks_keep_radius node o k :
  In k ("cornerRadius" :: PER_CORNER) ->
  obj_has (componentField node (textFields node (autoLayoutField node o))) k = obj_has o k.
Proof.
  intros Hk. unfold componentField, textFields, autoLayoutField.
  repeat match goal with
         | |- context [if ?b then _ else _] => destruct b
         end;
    rewrite ?obj_has_set;
    simpl in Hk; decompose [or] Hk; subst; try contradiction; simpl;
    rewrite ?orb_false_r; reflexivity.
Qed.

Lemma baseFields_no_radius node fills strokes effects k :
  In k ("cornerRadius" :: PER_CORNER) ->
  obj_has (baseFields node fills strokes effects) k = false.
Proof.
  intros Hk. simpl in Hk. decompose [or] Hk; subst; try contradiction; reflexivity.
Qed.

Lemma cornerRadiusFields_has node base k :
  In k ("cornerRadius" :: PER_CORNER) ->
  obj_has base k = false ->
  obj_has (cornerRadiusFields node base) k =
    if absent (prop node "cornerRadius") then false
    else if is_number (prop node "cornerRadius") then String.eqb k "cornerRadius"
         else negb (String.eqb k "cornerRadius").
Proof.
  intros Hk Hbase. unfold cornerRadiusFields.
  destruct (prop node "cornerRadius"); simpl; rewrite ?obj_has_set, ?Hbase;
    simpl in Hk; decompose [or] Hk; subst; try contradiction; reflexivity.
Qed.

Lemma has_radius_field node depth d k :
  extractDesignNode node depth = Ok d ->
  In k ("cornerRadius" :: PER_CORNER) ->
  has_field d k =
    if absent (prop node "cornerRadius") then false
    else if is_number (prop node "cornerRadius") then String.eqb k "cornerRadius"
         else negb (String.eqb k "cornerRadius").
Proof.
  intros Hd Hk. destruct (extractDesignNode_fields _ _ _ Hd) as (fills & strokes & effects & E).
  unfold has_field. rewrite E, later_blocks_keep_radius by assumption.
  apply cornerRadiusFields_has; [assumption|]. now apply baseFields_no_radius.
Qed.

(** The corner radius of a serialized node, case by case on the raw
    [node.cornerRadius]: the two forms never occur together; a number gives
    the uniform field alone; a value that is neither a number nor missing
    gives the four per-corner fields alone; a missing value, [null],
    [undefined] or a Symbol, gives neither. *)
Lemma corner_radius_forms (node : Node) (depth : nat) (d : DesignNode) :
  extractDesignNode node depth = Ok d ->
  has_uniform_radius d && has_per_corner_radius d = false /\
  (is_number (prop node "cornerRadius") = true ->
   has_uniform_radius d = true /\ has_per_corner_radius d = false) /\
  (absent (prop node "cornerRadius") = false ->
   is_number (prop node "cornerRadius") = false ->
   has_uniform_radius d = false /\ has_all_per_corner_radii d = true) /\
  (absent (prop node "cornerRadius") = true ->
   has_uniform_radius d = false /\ has_per_corner_radius d = false).
Proof.
  intros Hd.
  unfold has_uniform_radius, has_per_corner_radius, has_all_per_corner_radii. simpl.
  rewrite !(has_radius_field node depth d) by (first [exact Hd | simpl; tauto]).
  simpl.
  destruct (prop node "cornerRadius"); simpl; repeat split; intros; try discriminate;
    reflexivity.
Qed.

(** C4, at the input it is stated for. A rectangle with unequal corners
    reports [figma.mixed] as its [cornerRadius]; [safe] turns the Symbol into
    [null] before the [cr !== null] test, so the serialized node carries
    neither the uniform field nor any of the four per-corner fields, where
    the specification expects the four per-corner fields. *)
Theorem mixed_corner_radius_is_dropped :
  succeeds (extractDesignNode mixed_corner_node 0) = true /\
  absent (prop mixed_corner_node "cornerRadius") = true /\
  is_number (prop mixed_corner_node "topLeftRadius") = true /\
  has_uniform_radius (ok_or_empty (extractDesignNode mixed_corner_node 0)) = false /\
  has_per_corner_radius (ok_or_empty (extractDesignNode mixed_corner_node 0)) = false /\
  has_all_per_corner_radii (ok_or_empty (extractDesignNode mixed_corner_node 0)) = false.
Proof. vm_compute. repeat split; reflexivity. Qed.

(** ** Asset collector *)

Lemma obj_set_fresh o k v : obj_has o k = false -> obj_set o k v = o ++ [(k, v)].
Proof.
  unfold obj_has. induction o as [|[k0 v0] o IH]; simpl; [reflexivity|].
  intros H. apply orb_false_iff in H as [Hk Ho]. simpl in Hk.
  rewrite Hk, (IH Ho). reflexivity.
Qed.

Lemma obj_has_In o k : obj_has o k = true <-> In k (keys o).
Proof.
  unfold obj_has, keys. rewrite existsb_exists, in_map_iff. split.
  - intros ([k0 v0] & Hin & Heq). simpl in Heq. apply String.eqb_eq in Heq. subst.
    exists (k, v0). split; [reflexivity | assumption].
  - intros ([k0 v0] & Heq & Hin). simpl in Heq. subst.
    exists (k, v0). split; [assumption | simpl; apply String.eqb_refl].
Qed.

Lemma obj_get_truthy o k :
  Forall (fun kv => truthy kv.2 = true) o -> obj_has o k = true -> truthy (obj_get o k) = true.
Proof.
  unfold obj_has. induction 1 as [|[k0 v0] o Hv _ IH]; simpl; [discriminate|].
  destruct (String.eqb k0 k); simpl; [intros _; exact Hv | exact IH].
Qed.

Lemma obj_get_app_l o o' k : obj_has o k = true -> obj_get (o ++ o') k = obj_get o k.
Proof.
  unfold obj_has. induction o as [|[k0 v0] o IH]; simpl; [discriminate|].
  destruct (String.eqb k0 k); simpl; [reflexivity | exact IH].
Qed.

Lemma obj_has_app o o' k : obj_has (o ++ o') k = obj_has o k || obj_has o' k.
Proof. unfold obj_has. apply existsb_app. Qed.

(** A lookup that comes back falsy means the key is not an own property. *)
Lemma lookup_falsy_fresh o k :
  Forall (fun kv => truthy kv.2 = true) o ->
  truthy (obj_lookup o k) = false -> obj_has o k = false /\ inherited k = false.
Proof.
  intros Hv. unfold obj_lookup. destruct (obj_has o k) eqn:Hk.
  - rewrite (obj_get_truthy o k Hv Hk). discriminate.
  - destruct (inherited k); [discriminate | auto].
Qed.

Lemma wf_hashes_snoc o k v :
  wf_hashes o -> obj_has o k = false -> truthy v = true -> wf_hashes (o ++ [(k, v)]).
Proof.
  intros [Hnd Hv] Hk Hvt. split.
  - unfold keys. rewrite map_app. simpl. apply NoDup_app. repeat split.
    + exact Hnd.
    + intros x Hx [->|[]]%list_elem_of_In. apply list_elem_of_In in Hx.
      apply obj_has_In in Hx. congruence.
    + apply NoDup_singleton.
  - apply Forall_app. split; [exact Hv | constructor; [exact Hvt | constructor]].
Qed.

Lemma grows_refl a : grows a a.
Proof.
  intros Hwf. split; [exact Hwf|].
  split; [intros k Hk; split; [exact Hk | reflexivity] | reflexivity].
Qed.

Lemma grows_trans a b c : grows a b -> grows b c -> grows a c.
Proof.
  intros Hab Hbc Hwf. destruct (Hab Hwf) as (Hwfb & Hkb & Hnb).
  destruct (Hbc Hwfb) as (Hwfc & Hkc & Hnc). split; [exact Hwfc|]. split.
  - intros k Hk. destruct (Hkb k Hk) as [Hb Eb]. destruct (Hkc k Hb) as [Hc Ec].
    split; [exact Hc | congruence].
  - lia.
Qed.

Lemma grows_fold {A : Type} (f : Collected -> A -> Collected) (l : list A) :
  Forall (fun x => forall c, grows c (f c x)) l -> forall c, grows c (fold_left f l c).
Proof.
  induction 1 as [|x l Hx _ IH]; intros c; simpl; [apply grows_refl|].
  eapply grows_trans; [apply Hx | apply IH].
Qed.

Lemma collectFill_grows node c f : grows c (collectFill node c f).
Proof.
  unfold collectFill. destruct (is_image_fill f); [|apply grows_refl].
  set (h := str_of (safeStr (field f "imageHash") (VStr ""))).
  destruct (truthy _ && negb (truthy (obj_lookup (imageHashes c) h))) eqn:E;
    [|apply grows_refl].
  apply andb_true_iff in E as [_ Hl]. apply negb_true_iff in Hl.
  intros Hwf. destruct (lookup_falsy_fresh _ _ (proj2 Hwf) Hl) as [Hfresh _].
  simpl. rewrite (obj_set_fresh _ _ _ Hfresh). split; [|split].
  - apply wf_hashes_snoc; [exact Hwf | exact Hfresh | reflexivity].
  - intros k Hk. split.
    + rewrite obj_has_app, Hk. reflexivity.
    + now apply obj_get_app_l.
  - unfold asset_count. simpl. rewrite length_app. simpl. lia.
Qed.

Lemma collectVector_grows node c : grows c (collectVector node c).
Proof.
  unfold collectVector.
  match goal with |- context [if ?b then _ else _] => destruct b end; [|apply grows_refl].
  intros Hwf. simpl. split; [exact Hwf|]. split.
  - intros k Hk. split; [exact Hk | reflexivity].
  - unfold asset_count. simpl. rewrite length_app. simpl. lia.
Qed.

Lemma collectComposite_grows node depth c : grows c (collectComposite node depth c).
Proof.
  unfold collectComposite.
  repeat match goal with |- context [if ?b then _ else _] => destruct b end;
    try apply grows_refl.
  intros Hwf. simpl. split; [exact Hwf|]. split.
  - intros k Hk. split; [exact Hk | reflexivity].
  - unfold asset_count. simpl. rewrite length_app. simpl. lia.
Qed.

(** The walk, with the children read through [node_children]. *)
Lemma collectImageAssets_eq node depth collected :
  collectImageAssets node depth collected =
    if Nat.ltb MAX_IMAGE_SCAN_DEPTH depth then collected
    else if Nat.leb (MAX_IMAGE_ASSETS + MAX_VECTOR_ASSETS + MAX_COMPOSITE_ASSETS)
                    (totalCount collected) then collected
    else if is_invisible node then collected
    else
      let own :=
        collectComposite node depth
          (collectVector node
             (fold_left (collectFill node)
                (arr_items (safeArr (safe (prop node "fills") VUndefined))) collected)) in
      match node_children node with
      | Some cs => fold_left (fun acc c => collectImageAssets c (S depth) acc) cs own
      | None => own
      end.
Proof. destruct node as [props [cs|]]; reflexivity. Qed.

Lemma own_assets_grow node depth c :
  grows c
    (collectComposite node depth
       (collectVector node
          (fold_left (collectFill node)
             (arr_items (safeArr (safe (prop node "fills") VUndefined))) c))).
Proof.
  eapply grows_trans; [|apply collectComposite_grows].
  eapply grows_trans; [|apply collectVector_grows].
  apply grows_fold. apply Forall_forall. intros f _ c'. apply collectFill_grows.
Qed.

Lemma collectImageAssets_grows node :
  forall depth c, grows c (collectImageAssets node depth c).
Proof.
  induction node as [props|props cs IH] using Node_nested_ind; intros depth c;
    rewrite collectImageAssets_eq;
    destruct (Nat.ltb MAX_IMAGE_SCAN_DEPTH depth); try apply grows_refl;
    destruct (Nat.leb (MAX_IMAGE_ASSETS + MAX_VECTOR_ASSETS + MAX_COMPOSITE_ASSETS)
                      (totalCount c)); try apply grows_refl;
    destruct (is_invisible _); try apply grows_refl; cbv zeta; cbn [node_children].
  - apply own_assets_grow.
  - eapply grows_trans; [apply own_assets_grow | apply grows_fold].
    eapply Forall_impl; [exact IH|]. intros child Hchild c'. apply Hchild.
Qed.

Lemma occurrences_NoDup h o : NoDup (keys o) -> occurrences h o <= 1.
Proof.
  unfold occurrences. induction 1 as [|k l Hk _ IH]; simpl; [lia|].
  destruct (String.eqb_spec h k) as [->|Hne]; simpl; [|exact IH].
  assert (E : List.filter (String.eqb k) l = []).
  { clear IH. induction l as [|x l IHl]; simpl; [reflexivity|].
    destruct (String.eqb_spec k x) as [->|_].
    - exfalso. apply Hk. constructor.
    - apply IHl. intros Hin. apply Hk. now constructor. }
  rewrite E. simpl. lia.
Qed.

Lemma occurrences_In h o : obj_has o h = true -> 1 <= occurrences h o.
Proof.
  unfold occurrences, obj_has, keys. induction o as [|[k v] o IH]; simpl; [discriminate|].
  rewrite (String.eqb_sym h k). destruct (String.eqb k h); simpl; [lia | exact IH].
Qed.

Lemma collectFill_adds node c f h :
  refers_to f h -> obj_has (imageHashes (collectFill node c f)) h = true.
Proof.
  intros (Hf & Hh & Hne & Hinh). unfold collectFill. rewrite Hf, Hh. simpl.
  destruct (String.eqb_spec h "") as [->|_]; [contradiction|]. simpl.
  destruct (truthy (obj_lookup (imageHashes c) h)) eqn:E; simpl.
  - unfold obj_lookup in E. destruct (obj_has (imageHashes c) h); [reflexivity|].
    rewrite Hinh in E. discriminate.
  - rewrite obj_has_set, String.eqb_refl. apply orb_true_r.
Qed.

Lemma grows_keeps a b h :
  grows a b -> wf_hashes (imageHashes a) ->
  obj_has (imageHashes a) h = true -> obj_has (imageHashes b) h = true.
Proof. intros Hg Hwf Hh. destruct (Hg Hwf) as (_ & Hk & _). now apply Hk. Qed.

Lemma grows_wf a b : grows a b -> wf_hashes (imageHashes a) -> wf_hashes (imageHashes b).
Proof. intros Hg Hwf. now destruct (Hg Hwf). Qed.

Lemma fold_collectFill_grows node fills c : grows c (fold_left (collectFill node) fills c).
Proof. apply grows_fold. apply Forall_forall. intros f _ c'. apply collectFill_grows. Qed.

Lemma fold_collectFill_adds node fills h :
  forall c f, wf_hashes (imageHashes c) -> In f fills -> refers_to f h ->
              obj_has (imageHashes (fold_left (collectFill node) fills c)) h = true.
Proof.
  induction fills as [|g fills IH]; intros c f Hwf Hin Hf; simpl in *; [contradiction|].
  pose proof (grows_wf _ _ (collectFill_grows node c g) Hwf) as Hwf'.
  destruct Hin as [->|Hin].
  - eapply grows_keeps; [apply fold_collectFill_grows | exact Hwf' |].
    now apply collectFill_adds.
  - now apply IH with (f := f).
Qed.

(** C5. In every walk an image reference keeps at most one entry in the map
    of image-fill assets, however many fills and nodes of the subtree carry
    it: the map never holds a key twice, an entry that is there is never
    overwritten, and [totalCount] goes up by exactly the number of assets
    added. In particular, a visible node within the scan depth, walked below
    the cap, one of whose fills is an IMAGE paint with reference [h], leaves
    exactly one entry for [h], whether one fill, two or more carry [h]. *)
Theorem image_reference_collected_once
    (node : Node) (depth : nat) (collected : Collected) (h : string) :
  wf_hashes (imageHashes collected) ->
  wf_hashes (imageHashes (collectImageAssets node depth collected)) /\
  occurrences h (imageHashes (collectImageAssets node depth collected)) <= 1 /\
  (obj_has (imageHashes collected) h = true ->
   obj_get (imageHashes (collectImageAssets node depth collected)) h
   = obj_get (imageHashes collected) h) /\
  totalCount (collectImageAssets node depth collected) + asset_count collected
  = totalCount collected + asset_count (collectImageAssets node depth collected) /\
  (forall f,
     In f (fills_of node) -> refers_to f h ->
     is_invisible node = false -> depth <= MAX_IMAGE_SCAN_DEPTH ->
     totalCount collected < TOTAL_CAP ->
     occurrences h (imageHashes (collectImageAssets node depth collected)) = 1).
Proof.
  intros Hwf. destruct (collectImageAssets_grows node depth collected Hwf) as (Hwf' & Hk & Hn).
  split; [exact Hwf'|]. split; [apply occurrences_NoDup, Hwf'|].
  split; [intros Hh; now apply Hk|]. split; [exact Hn|].
  intros f Hin Hf Hvis Hdepth Hcap.
  apply Nat.le_antisymm; [apply occurrences_NoDup, Hwf'|]. apply occurrences_In.
  rewrite collectImageAssets_eq.
  destruct (Nat.ltb_spec MAX_IMAGE_SCAN_DEPTH depth); [lia|].
  fold TOTAL_CAP. destruct (Nat.leb_spec TOTAL_CAP (totalCount collected)); [lia|].
  rewrite Hvis. cbv zeta.
  set (c1 := fold_left (collectFill node) _ collected).
  assert (Hwf1 : wf_hashes (imageHashes c1))
    by (eapply grows_wf; [apply fold_collectFill_grows | exact Hwf]).
  assert (H1 : obj_has (imageHashes c1) h = true)
    by (eapply fold_collectFill_adds; eauto).
  set (c2 := collectComposite node depth (collectVector node c1)).
  assert (Hg2 : grows c1 c2)
    by (eapply grows_trans; [apply collectVector_grows | apply collectComposite_grows]).
  destruct (node_children node) as [cs|].
  - eapply grows_keeps; [| exact (grows_wf _ _ Hg2 Hwf1) | exact (grows_keeps _ _ _ Hg2 Hwf1 H1)].
    apply grows_fold. apply Forall_forall. intros c _ c'. apply collectImageAssets_grows.
  - exact (grows_keeps _ _ _ Hg2 Hwf1 H1).
Qed.

(** One node, two fills, one reference, a fresh accumulator; then a second
    node that carries the same reference, walked with the accumulator the
    first walk left. *)
Lemma image_reference_witness :
  wf_hashes (imageHashes empty_collected) /\
  occurrences "h1" (imageHashes (collectImageAssets (two_fill_node "h1") 0 empty_collected)) = 1 /\
  obj_get (imageHashes
             (collectImageAssets second_carrier 0
                (collectImageAssets (two_fill_node "h1") 0 empty_collected))) "h1"
  = obj_get (imageHashes (collectImageAssets (two_fill_node "h1") 0 empty_collected)) "h1".
Proof.
  assert (Hwf : wf_hashes (imageHashes empty_collected))
    by (split; [apply NoDup_nil; exact I | constructor]).
  split; [exact Hwf|]. split.
  - apply (proj2 (proj2 (proj2 (proj2
      (image_reference_collected_once (two_fill_node "h1") 0 empty_collected "h1" Hwf))))
      (image_paint "h1")).
    + simpl. left. reflexivity.
    + split; [reflexivity | split; [reflexivity | split; [discriminate | reflexivity]]].
    + reflexivity.
    + unfold MAX_IMAGE_SCAN_DEPTH. lia.
    + unfold TOTAL_CAP. simpl. lia.
  - apply (proj1 (proj2 (proj2
      (image_reference_collected_once second_carrier 0
         (collectImageAssets (two_fill_node "h1") 0 empty_collected) "h1"
         (proj1 (image_reference_collected_once (two_fill_node "h1") 0 empty_collected
                   "h1" Hwf)))))).
    reflexivity.
Defined.

Example two_fills_one_asset :
  keys (imageHashes (collectImageAssets (two_fill_node "h1") 0 empty_collected)) = ["h1"] /\
  totalCount (collectImageAssets (two_fill_node "h1") 0 empty_collected) = 1.
Proof. vm_compute. split; reflexivity. Qed.

(** A reference named like a method every object inherits is never
    collected: the lookup that guards the insertion finds the method. *)
Example inherited_name_is_skipped :
  keys (imageHashes (collectImageAssets (two_fill_node "toString") 0 empty_collected)) = [].
Proof. vm_compute. reflexivity. Qed.

(** C6. A node whose [visible] normalizes to [false] stops the collector at
    once, at every depth and for every accumulator: the accumulator comes
    back as it went in, so the node adds no image fill, vector or composite;
    its children are never walked, whatever they are; and among its siblings
    it is as if it were not there. *)
Theorem invisible_node_is_pruned (node : Node) (depth : nat) (collected : Collected) :
  safeBool (prop node "visible") (VBool true) = VBool false ->
  collectImageAssets node depth collected = collected /\
  (forall children,
     collectImageAssets (mkNode (node_props node) children) depth collected = collected) /\
  (forall before after,
     fold_left (fun acc c => collectImageAssets c depth acc) (before ++ node :: after) collected
     = fold_left (fun acc c => collectImageAssets c depth acc) (before ++ after) collected).
Proof.
  intros Hvis.
  assert (Hstop : forall children c,
            collectImageAssets (mkNode (node_props node) children) depth c = c).
  { intros children c. rewrite collectImageAssets_eq.
    destruct (Nat.ltb MAX_IMAGE_SCAN_DEPTH depth); [reflexivity|].
    destruct (Nat.leb _ (totalCount c)); [reflexivity|].
    unfold is_invisible, prop in *. simpl. rewrite Hvis. reflexivity. }
  assert (Hnode : forall c, collectImageAssets node depth c = c).
  { intros c. destruct node as [props children]. apply Hstop. }
  split; [apply Hnode|]. split; [intros children; apply Hstop|].
  intros before after. rewrite !fold_left_app. simpl. now rewrite Hnode.
Qed.

Lemma invisible_node_witness :
  safeBool (prop hidden_node "visible") (VBool true) = VBool false /\
  collectImageAssets hidden_node 3 empty_collected = empty_collected.
Proof.
  split; [reflexivity|].
  apply (proj1 (invisible_node_is_pruned hidden_node 3 empty_collected eq_refl)).
Defined.

(** The pruning is that of the main walk. The sub-scan that decides whether a
    container is a composite, [subtreeHasImage], does not test visibility: a
    visible instance whose only image sits on a hidden layer is still
    collected as a composite, while that image itself is not collected. *)
Example sub_scan_reads_hidden_layers :
  keys (imageHashes (collectImageAssets instance_over_hidden 0 empty_collected)) = [] /\
  map ref_nodeId (compositeNodes (collectImageAssets instance_over_hidden 0 empty_collected))
  = [VStr "5:1"].
Proof. vm_compute. split; reflexivity. Qed.

(** ** Division of the cap by a larger float

    [512 / y] is at most [1] for every double [y] above [512], as the
    kernel's specification of binary64 division computes it: the quotient of
    the mantissas has 53 or 54 bits, and rounding it to nearest cannot pass
    the mantissa of [1] at the exponent of [1]. *)

Section DivisionByCap.
Local Open Scope Z_scope.

Lemma digits2_pos_bounds (m : positive) :
  2 ^ (Zpos (digits2_pos m) - 1) <= Zpos m < 2 ^ Zpos (digits2_pos m).
Proof.
  induction m as [p IH|p IH|]; simpl digits2_pos.
  - rewrite Pos2Z.inj_succ. replace (Z.succ (Zpos (digits2_pos p)) - 1) with (Z.succ (Zpos (digits2_pos p) - 1)) by lia.
    rewrite !Z.pow_succ_r by lia. change (Zpos p~1) with (2 * Zpos p + 1).
    generalize dependent (2 ^ (Zpos (digits2_pos p) - 1)). generalize dependent (2 ^ Zpos (digits2_pos p)). intros; lia.
  - rewrite Pos2Z.inj_succ. replace (Z.succ (Zpos (digits2_pos p)) - 1) with (Z.succ (Zpos (digits2_pos p) - 1)) by lia.
    rewrite !Z.pow_succ_r by lia. change (Zpos p~0) with (2 * Zpos p).
    generalize dependent (2 ^ (Zpos (digits2_pos p) - 1)). generalize dependent (2 ^ Zpos (digits2_pos p)). intros; lia.
  - simpl. lia.
Qed.

Lemma digits2_pos_unique (m : positive) (d : Z) :
  2 ^ (d - 1) <= Zpos m < 2 ^ d -> 0 < d -> Zpos (digits2_pos m) = d.
Proof.
  intros [Hlo Hhi] Hd. destruct (digits2_pos_bounds m) as [Hlo' Hhi'].
  assert (d - 1 < Zpos (digits2_pos m)).
  { apply (Z.pow_lt_mono_r_iff 2); lia. }
  assert (Zpos (digits2_pos m) - 1 < d).
  { apply (Z.pow_lt_mono_r_iff 2); lia. }
  lia.
Qed.

Lemma bounded_large m e :
  bounded prec emax m e = true -> -43 <= e ->
  Zpos (digits2_pos m) = 53 /\ e <= 971.
Proof.
  unfold bounded, canonical_mantissa, fexp, emin, prec, emax.
  intros H He. apply andb_true_iff in H as [Hc Hb].
  apply Z.eqb_eq in Hc. apply Z.leb_le in Hb. lia.
Qed.

Lemma shr_fexp_53 q e l :
  Zdigits2 q = 53 -> -1074 <= e ->
  shr_fexp prec emax q e l = (shr_record_of_loc q l, e).
Proof.
  intros Hd He. unfold shr_fexp. rewrite Hd.
  replace (fexp prec emax (53 + e) - e) with 0
    by (unfold fexp, emin, prec, emax; lia).
  reflexivity.
Qed.

Lemma shr_fexp_2p53 e :
  -1074 <= e ->
  shr_fexp prec emax (2 ^ 53) e loc_Exact
  = ({| shr_m := 2 ^ 52; shr_r := false; shr_s := false |}, e + 1).
Proof.
  intros He. unfold shr_fexp.
  change (Zdigits2 (2 ^ 53)) with 54.
  replace (fexp prec emax (54 + e) - e) with 1
    by (unfold fexp, emin, prec, emax; lia).
  reflexivity.
Qed.

Lemma SFleb_small m e :
  e < -52 -> SFleb (S754_finite false m e) SF1 = true.
Proof.
  intros He. unfold SFleb, SF1, SFcompare.
  rewrite (proj2 (Z.compare_lt_iff e (-52)) He). reflexivity.
Qed.

Lemma renormalize_le_one q e :
  2 ^ 52 <= q <= 2 ^ 53 -> -1074 <= e <= -53 -> SFleb (renormalize q e) SF1 = true.
Proof.
  intros Hq He. unfold renormalize.
  destruct (Z.eq_dec q (2 ^ 53)) as [->|Hne].
  - rewrite shr_fexp_2p53 by lia. cbn [shr_m].
    change (2 ^ 52) with (Zpos 4503599627370496).
    replace (e + 1 <=? emax - prec) with true
      by (symmetry; apply Z.leb_le; unfold emax, prec; lia).
    destruct (Z.eq_dec (e + 1) (-52)) as [->|Hne'].
    + reflexivity.
    + apply SFleb_small. lia.
  - destruct q as [|qp|qp]; try lia.
    rewrite shr_fexp_53; [|simpl; apply digits2_pos_unique; lia|lia].
    cbn [shr_record_of_loc shr_m].
    replace (e <=? emax - prec) with true
      by (symmetry; apply Z.leb_le; unfold emax, prec; lia).
    apply SFleb_small. lia.
Qed.

Lemma binary_round_aux_le_one q e loc :
  2 ^ 52 <= q < 2 ^ 53 -> -1074 <= e <= -53 ->
  SFleb (binary_round_aux prec emax false q e loc) SF1 = true.
Proof.
  intros Hq He. unfold binary_round_aux.
  destruct q as [|qp|qp]; try lia.
  rewrite shr_fexp_53; [|simpl; apply digits2_pos_unique; lia|lia].
  change (SFleb (renormalize (round_nearest_even (shr_m (shr_record_of_loc (Zpos qp) loc))
                           (loc_of_shr_record (shr_record_of_loc (Zpos qp) loc))) e) SF1 = true).
  apply renormalize_le_one; [|lia].
  destruct loc as [|[| |]]; cbn [shr_record_of_loc shr_m loc_of_shr_record round_nearest_even];
    try lia.
  destruct (Z.even (Zpos qp)); lia.
Qed.

Lemma quotient_bounds A m q r :
  0 < A -> A < m < 2 * A -> m * q + r = 2 * A * A -> 0 <= r < m -> A <= q < 2 * A.
Proof. intros HA Hm Heq Hr. split; nia. Qed.

Lemma quotient_exact A q r :
  0 < A -> A * q + r = 2 * A * A -> 0 <= r < A -> q = 2 * A /\ r = 0.
Proof. intros HA Heq Hr. assert (q = 2 * A) by nia. subst. split; [reflexivity | nia]. Qed.

Lemma SFdiv_512_le_one m e :
  bounded prec emax m e = true ->
  (-43 < e \/ (e = -43 /\ 2 ^ 52 < Zpos m)) ->
  SFleb (SFdiv prec emax SF512 (S754_finite false m e)) SF1 = true.
Proof.
  intros Hb Hgt. destruct (bounded_large m e Hb ltac:(lia)) as [Hd He].
  pose proof (digits2_pos_bounds m) as Hm. rewrite Hd in Hm.
  change (2 ^ (53 - 1)) with (2 ^ 52) in Hm.
  unfold SFdiv, SF512, SFdiv_core_binary. cbn [Zdigits2 xorb]. rewrite Hd.
  change (Zpos (digits2_pos 4503599627370496)) with 53.
  replace (Z.min (fexp prec emax (53 + -43 - (53 + e))) (-43 - e)) with (-96 - e)
    by (unfold fexp, emin, prec, emax; lia).
  replace (-43 - e - (-96 - e)) with 53 by lia.
  change (Z.shiftl (Zpos 4503599627370496) 53) with (2 * 2 ^ 52 * 2 ^ 52).
  pose proof (Z_div_mod (2 * 2 ^ 52 * 2 ^ 52) (Zpos m) ltac:(lia)) as Hdiv.
  destruct (Z.div_eucl (2 * 2 ^ 52 * 2 ^ 52) (Zpos m)) as [q r].
  destruct Hdiv as [Heq Hr].
  destruct (Z.eq_dec (Zpos m) (2 ^ 52)) as [Hm52|Hm52].
  - rewrite Hm52 in *.
    destruct (quotient_exact (2 ^ 52) q r ltac:(lia) ltac:(lia) Hr) as [-> ->].
    replace (new_location (2 ^ 52) 0) with loc_Exact by reflexivity.
    unfold binary_round_aux. change (2 * 2 ^ 52) with (2 ^ 53).
    rewrite shr_fexp_2p53 by lia.
    cbn [shr_m loc_of_shr_record round_nearest_even].
    change (SFleb (renormalize (2 ^ 52) (-96 - e + 1)) SF1 = true).
    apply renormalize_le_one; lia.
  - apply binary_round_aux_le_one; [|lia].
    change (2 ^ 53) with (2 * 2 ^ 52).
    apply (quotient_bounds (2 ^ 52) (Zpos m) q r); lia.
Qed.

Lemma div_512_le_one (y : float) :
  (512 <? y)%float = true -> (512 / y <=? 1)%float = true.
Proof.
  rewrite ltb_spec, leb_spec, div_spec. unfold SF64div.
  change (Prim2SF 512) with SF512. change (Prim2SF 1) with SF1.
  pose proof (Prim2SF_valid y) as Hv.
  destruct (Prim2SF y) as [s|s| |s m e]; try discriminate.
  - destruct s; [discriminate | reflexivity].
  - destruct s; [discriminate|]. simpl in Hv.
    unfold SFltb, SF512, SFcompare. intros Hlt.
    apply SFdiv_512_le_one; [exact Hv|].
    destruct (Z.compare_spec (-43) e) as [Heq|Hlt'|Hgt]; [|lia|discriminate].
    right. split; [lia|].
    destruct (Pos.compare_cont Eq 4503599627370496 m) eqn:Hc; try discriminate.
    exact Hc.
Qed.

End DivisionByCap.

(** ** Asset exporter *)

Example base64_samples :
  uint8ToBase64 [x4d; x61; x6e] = "TWFu" /\
  uint8ToBase64 [x4d; x61] = "TWE=" /\
  uint8ToBase64 [x4d] = "TQ==" /\
  uint8ToBase64 [] = "".
Proof. repeat split; reflexivity. Qed.

Example Math_round_samples :
  Math_round 2.5 = 3%float /\ Math_round (-2.5) = (-2)%float /\
  Math_round 511.5 = 512%float /\ Math_round 255.25 = 255%float /\
  Math_round (-0.25) = PrimFloat.neg_zero /\ Math_round 0.25 = 0%float /\
  Math_round 0x1p+996 = 0x1p+996%float /\ Math_round PrimFloat.infinity = PrimFloat.infinity.
Proof. repeat split; vm_compute; reflexivity. Qed.

Example Math_max_samples :
  Math_max 2000 1000 = 2000%float /\ Math_max 3 7 = 7%float /\
  Math_max PrimFloat.neg_zero 0 = 0%float /\
  PrimFloat.is_nan (Math_max PrimFloat.nan 5) = true.
Proof. repeat split; vm_compute; reflexivity. Qed.

(** C8. The scale a composite is exported at is [COMPOSITE_MAX_PX] divided
    by its longest side when that side exceeds [COMPOSITE_MAX_PX = 512], and
    exactly 1 otherwise, so never above 1 (as binary64 division rounds the
    quotient); the export is issued as a PNG at that one scale, and
    the recorded width and height are the sides times the scale, rounded. A
    composite 2000 by 1000 is exported at scale 0.256 and recorded as 512 by
    256. *)
Theorem composite_scale_is_capped
    (exportAsync : Node -> ExportSettings -> option (list byte)) (comp : NodeRef) :
  COMPOSITE_MAX_PX = 512%float /\
  (PrimFloat.ltb COMPOSITE_MAX_PX
     (Math_max (num_of (safeNum (prop (ref_node comp) "width") (VNum 1)))
               (num_of (safeNum (prop (ref_node comp) "height") (VNum 1)))) = true ->
   compositeScale (ref_node comp)
   = PrimFloat.div COMPOSITE_MAX_PX
       (Math_max (num_of (safeNum (prop (ref_node comp) "width") (VNum 1)))
                 (num_of (safeNum (prop (ref_node comp) "height") (VNum 1))))) /\
  (PrimFloat.ltb COMPOSITE_MAX_PX
     (Math_max (num_of (safeNum (prop (ref_node comp) "width") (VNum 1)))
               (num_of (safeNum (prop (ref_node comp) "height") (VNum 1)))) = false ->
   compositeScale (ref_node comp) = 1%float) /\
  PrimFloat.leb (compositeScale (ref_node comp)) 1 = true /\
  exportComposite exportAsync comp
  = option_map (compositeAsset comp)
      (exportAsync (ref_node comp) (ExportPNG (compositeScale (ref_node comp)))) /\
  (forall bytes,
     field (compositeAsset comp bytes) "width"
     = VNum (Math_round (PrimFloat.mul
                (num_of (safeNum (prop (ref_node comp) "width") (VNum 1)))
                (compositeScale (ref_node comp)))) /\
     field (compositeAsset comp bytes) "height"
     = VNum (Math_round (PrimFloat.mul
                (num_of (safeNum (prop (ref_node comp) "height") (VNum 1)))
                (compositeScale (ref_node comp))))) /\
  (prop (ref_node comp) "width" = VNum 2000 ->
   prop (ref_node comp) "height" = VNum 1000 ->
   compositeScale (ref_node comp) = PrimFloat.div 512 2000 /\
   compositeScale (ref_node comp) = 0x1.0624dd2f1a9fcp-2%float /\
   forall bytes,
     field (compositeAsset comp bytes) "width" = VNum 512 /\
     field (compositeAsset comp bytes) "height" = VNum 256).
Proof.
  split; [reflexivity|]. unfold compositeScale. split; [intros ->; reflexivity|].
  split; [intros ->; reflexivity|]. split; [|split].
  - destruct (PrimFloat.ltb COMPOSITE_MAX_PX _) eqn:E; [|reflexivity].
    apply div_512_le_one. exact E.
  - unfold exportComposite. destruct (exportAsync _ _); reflexivity.
  - split; [intros bytes; split; reflexivity|].
    intros Hw Hh. split; [rewrite Hw, Hh; reflexivity|].
    split; [rewrite Hw, Hh; reflexivity|].
    intros bytes. unfold compositeAsset, compositeScale. simpl field.
    rewrite Hw, Hh. split; reflexivity.
Qed.

Lemma composite_scale_witness :
  (compositeScale (ref_node wide_instance) = PrimFloat.div COMPOSITE_MAX_PX 2000 /\
   compositeScale (ref_node small_instance) = 1%float) /\
  compositeScale (ref_node wide_instance) = PrimFloat.div 512 2000 /\
  compositeScale (ref_node wide_instance) = 0x1.0624dd2f1a9fcp-2%float /\
  forall bytes,
    field (compositeAsset wide_instance bytes) "width" = VNum 512 /\
    field (compositeAsset wide_instance bytes) "height" = VNum 256.
Proof.
  split; [split|].
  - apply (proj1 (proj2 (composite_scale_is_capped (fun _ _ => None) wide_instance))).
    reflexivity.
  - apply (proj1 (proj2 (proj2 (composite_scale_is_capped (fun _ _ => None) small_instance)))).
    reflexivity.
  - apply (proj2 (proj2 (proj2 (proj2 (proj2 (proj2
      (composite_scale_is_capped (fun _ _ => None) wide_instance)))))));
      reflexivity.
Defined.

(** ** Selection correlator and boundary validation *)

Lemma setImages_stale A assets st :
  stale A st -> SelectionStore.setImages A assets st = (false, st).
Proof.
  unfold stale, SelectionStore.setImages. destruct (current st) as [cur|]; [|reflexivity].
  intros Hne. destruct (String.eqb_spec (sel_nodeId cur) A) as [Heq|_]; [contradiction|].
  reflexivity.
Qed.

(** C1. A batch stamped with node id [A] that reaches a store holding no
    selection, or a selection of another node, is rejected: [setImages]
    returns [false] and leaves the store as it was (the stored selection with
    its asset map, and the assets directory: nothing is written), and the
    route answers 409 (400 for an empty id) without touching the store. *)
Theorem stale_batch_is_rejected (A : string) (assets : list ImageAsset) (st : Relay) :
  stale A st ->
  SelectionStore.setImages A assets st = (false, st) /\
  current (SelectionStore.setImages A assets st).2 = current st /\
  disk (SelectionStore.setImages A assets st).2 = disk st /\
  (forall i, SelectionStore.getImage i (SelectionStore.setImages A assets st).2
             = SelectionStore.getImage i st) /\
  (post_selection_images {| batch_nodeId := Some A; batch_assets := Some assets |} st).2 = st /\
  status (post_selection_images {| batch_nodeId := Some A; batch_assets := Some assets |} st).1
    = (if String.eqb A "" then 400 else 409).
Proof.
  intros Hst. pose proof (setImages_stale A assets st Hst) as E.
  rewrite E. repeat split.
  - unfold post_selection_images. simpl. destruct (String.eqb A ""); [reflexivity|].
    rewrite E. reflexivity.
  - unfold post_selection_images. simpl. destruct (String.eqb A ""); [reflexivity|].
    rewrite E. reflexivity.
Qed.

(** The store holds node "2:7" (with asset "h0" on disk); a batch for node
    "1:4" arrives. *)
Lemma stale_batch_witness :
  stale "1:4" sample_relay /\
  SelectionStore.setImages "1:4" [sample_asset "h1"] sample_relay = (false, sample_relay).
Proof.
  assert (H : stale "1:4" sample_relay) by (vm_compute; discriminate).
  split; [exact H|].
  apply (stale_batch_is_rejected "1:4" [sample_asset "h1"] sample_relay H).
Defined.

Example sample_relay_has_h0 :
  option_map asset_filePath (SelectionStore.getImage "h0" sample_relay)
  = Some (Some "/packages/mcp-server/figma-assets/h0.png").
Proof. vm_compute. reflexivity. Qed.

Lemma missing_required_test body :
  missing_required body ->
  falsy_str (fileId body) || falsy_str (nodeId body) || negb (truthy (metadata body)) = true.
Proof.
  intros [H|[H|H]]; rewrite H; simpl.
  - reflexivity.
  - now rewrite orb_true_r.
  - now rewrite orb_true_r.
Qed.

(** C9. A selection push whose payload lacks [fileId], [nodeId] or [metadata]
    is answered at once with status 400 and a structured error whose message
    names the three required fields, so the missing ones among them, and
    lists the keys received; the store and the assets directory stay as they
    were (no [set] happens). Both variants of the route behave so, and the
    route has no other failure: any other push is answered 200. *)
Theorem invalid_selection_is_rejected (now : Z) (body : SelectionPayload) (st : Relay) :
  (missing_required body ->
   post_selection now body st = (invalid_selection_response body, st) /\
   post_selection_plain now body st = (invalid_selection_response body, st)) /\
  status (invalid_selection_response body) = 400 /\
  (forall f, In f ["fileId"; "nodeId"; "metadata"] ->
             exists msg, (json (invalid_selection_response body) =
                            VObj [("error", VStr msg);
                                  ("received", VArr (map VStr (payload_keys body)))]) /\
                         mentions msg f = true) /\
  ((post_selection now body st).1 = invalid_selection_response body \/
   status (post_selection now body st).1 = 200) /\
  ((post_selection_plain now body st).1 = invalid_selection_response body \/
   status (post_selection_plain now body st).1 = 200).
Proof.
  split; [|split; [|split; [|split]]].
  - intros Hm. apply missing_required_test in Hm.
    unfold post_selection, post_selection_plain. rewrite Hm. split; reflexivity.
  - reflexivity.
  - intros f Hf. exists INVALID_SELECTION. split; [reflexivity|].
    simpl in Hf. destruct Hf as [<-|[<-|[<-|[]]]]; vm_compute; reflexivity.
  - unfold post_selection.
    destruct (falsy_str (fileId body) || falsy_str (nodeId body)
              || negb (truthy (metadata body))); [left|right]; reflexivity.
  - unfold post_selection_plain.
    destruct (falsy_str (fileId body) || falsy_str (nodeId body)
              || negb (truthy (metadata body))); [left|right]; reflexivity.
Qed.

(** A push without [nodeId], to the store that holds node "2:7". *)
Lemma invalid_selection_witness :
  missing_required (sample_payload None) /\
  post_selection 2000 (sample_payload None) sample_relay
    = (invalid_selection_response (sample_payload None), sample_relay) /\
  post_selection_plain 2000 (sample_payload None) sample_relay
    = (invalid_selection_response (sample_payload None), sample_relay).
Proof.
  assert (H : missing_required (sample_payload None)) by (right; left; reflexivity).
  split; [exact H|].
  apply (proj1 (invalid_selection_is_rejected 2000 (sample_payload None) sample_relay) H).
Defined.

(** ** Base64 *)

Lemma below_forallb (P : N -> bool) (n : nat) :
  forallb P (below n) = true -> forall k, (k < N.of_nat n)%N -> P k = true.
Proof.
  intros H k Hk. rewrite forallb_forall in H. apply H.
  unfold below. apply in_map_iff. exists (N.to_nat k). split; [apply N2Nat.id|].
  apply in_seq. lia.
Qed.

Lemma sextet_ok_below k : (k < 64)%N -> sextet_ok k = true.
Proof. apply (below_forallb sextet_ok 64). vm_compute. reflexivity. Qed.

Lemma CHARS_at_sextet k :
  (k < 64)%N ->
  exists c, CHARS_at k = String c EmptyString /\ Ascii.eqb c "="%char = false
            /\ sextet_of c = Some k.
Proof.
  intros Hk. pose proof (sextet_ok_below k Hk) as H. unfold sextet_ok in H.
  destruct (String.get (N.to_nat k) CHARS) as [c|]; [|discriminate]. exists c.
  apply andb_true_iff in H as [H H3]. apply andb_true_iff in H as [H1 H2].
  apply String.eqb_eq in H1. apply negb_true_iff in H2.
  destruct (sextet_of c) as [k'|]; [|discriminate]. apply N.eqb_eq in H3. subst k'.
  auto.
Qed.

Lemma join_4_ok a b : (a < 4)%N -> (b < 16)%N -> join_ok 4 a b = true.
Proof.
  intros Ha Hb.
  apply (below_forallb (fun a => forallb (join_ok 4 a) (below 16)) 4) in Ha;
    [|vm_compute; reflexivity].
  now apply (below_forallb (join_ok 4 a) 16).
Qed.

Lemma join_2_ok a b : (a < 16)%N -> (b < 4)%N -> join_ok 2 a b = true.
Proof.
  intros Ha Hb.
  apply (below_forallb (fun a => forallb (join_ok 2 a) (below 4)) 16) in Ha;
    [|vm_compute; reflexivity].
  now apply (below_forallb (join_ok 2 a) 4).
Qed.

Lemma join_ok_spec w a b :
  join_ok w a b = true ->
  N.shiftr (N.lor (N.shiftl a w) b) w = a /\
  N.land (N.lor (N.shiftl a w) b) (N.ones w) = b /\
  (N.lor (N.shiftl a w) b < 64)%N.
Proof.
  unfold join_ok. intros H. apply andb_true_iff in H as [H H3].
  apply andb_true_iff in H as [H1 H2].
  apply N.eqb_eq in H1, H2. apply N.ltb_lt in H3. auto.
Qed.

(** The bit fields of one byte, and the byte put together again. *)
Lemma byte_fields (b : byte) :
  (N.shiftr (Byte.to_N b) 2 < 64)%N /\ (N.land (Byte.to_N b) 3 < 4)%N /\
  (N.shiftr (Byte.to_N b) 4 < 16)%N /\ (N.land (Byte.to_N b) 15 < 16)%N /\
  (N.shiftr (Byte.to_N b) 6 < 4)%N /\ (N.land (Byte.to_N b) 63 < 64)%N /\
  Byte.of_N (N.lor (N.shiftl (N.shiftr (Byte.to_N b) 2) 2) (N.land (Byte.to_N b) 3)) = Some b /\
  Byte.of_N (N.lor (N.shiftl (N.shiftr (Byte.to_N b) 4) 4) (N.land (Byte.to_N b) 15)) = Some b /\
  Byte.of_N (N.lor (N.shiftl (N.shiftr (Byte.to_N b) 6) 6) (N.land (Byte.to_N b) 63)) = Some b.
Proof. destruct b; vm_compute; repeat split; reflexivity. Qed.

Lemma list_ind3 {A : Type} (P : list A -> Prop) :
  P [] -> (forall a, P [a]) -> (forall a b, P [a; b]) ->
  (forall a b c l, P l -> P (a :: b :: c :: l)) ->
  forall l, P l.
Proof.
  intros H0 H1 H2 H3. fix IH 1.
  intros [|a [|b [|c l]]]; [exact H0 | apply H1 | apply H2 | apply H3; apply IH].
Qed.

(** One group of four characters decodes to the bytes it was made from. *)
Lemma decode_group c0 c1 c2 c3 rest x0 x1 x2 :
  sextet_of c0 = Some (N.shiftr (Byte.to_N x0) 2) ->
  sextet_of c1 = Some (N.lor (N.shiftl (N.land (Byte.to_N x0) 3) 4) (N.shiftr (Byte.to_N x1) 4)) ->
  sextet_of c2 = Some (N.lor (N.shiftl (N.land (Byte.to_N x1) 15) 2) (N.shiftr (Byte.to_N x2) 6)) ->
  sextet_of c3 = Some (N.land (Byte.to_N x2) 63) ->
  Ascii.eqb c2 "="%char = false -> Ascii.eqb c3 "="%char = false ->
  base64Decode (String c0 (String c1 (String c2 (String c3 rest))))
  = tail ← base64Decode rest; Some (x0 :: x1 :: x2 :: tail).
Proof.
  intros E0 E1 E2 E3 N2 N3.
  destruct (byte_fields x0) as (_ & Ha0 & _ & _ & _ & _ & R0 & _ & _).
  destruct (byte_fields x1) as (_ & _ & Hb1 & Ha1 & _ & _ & _ & R1 & _).
  destruct (byte_fields x2) as (_ & _ & _ & _ & Hb2 & _ & _ & _ & R2).
  destruct (join_ok_spec _ _ _ (join_4_ok _ _ Ha0 Hb1)) as (J1 & J2 & _).
  destruct (join_ok_spec _ _ _ (join_2_ok _ _ Ha1 Hb2)) as (K1 & K2 & _).
  change (N.ones 4) with 15%N in J2. change (N.ones 2) with 3%N in K2.
  cbn [base64Decode]. rewrite E0, E1, N2, E2, N3, E3. cbn [mbind option_bind].
  unfold byte_of_N. rewrite J1, R0. cbn [mbind option_bind].
  rewrite J2, K1, R1. cbn [mbind option_bind].
  rewrite K2, R2. reflexivity.
Qed.

Lemma encode_three a b c l :
  exists c0 c1 c2 c3,
    uint8ToBase64 (a :: b :: c :: l)
    = String c0 (String c1 (String c2 (String c3 (uint8ToBase64 l)))) /\
    sextet_of c0 = Some (N.shiftr (Byte.to_N a) 2) /\
    sextet_of c1 = Some (N.lor (N.shiftl (N.land (Byte.to_N a) 3) 4) (N.shiftr (Byte.to_N b) 4)) /\
    sextet_of c2 = Some (N.lor (N.shiftl (N.land (Byte.to_N b) 15) 2) (N.shiftr (Byte.to_N c) 6)) /\
    sextet_of c3 = Some (N.land (Byte.to_N c) 63) /\
    Ascii.eqb c2 "="%char = false /\ Ascii.eqb c3 "="%char = false.
Proof.
  destruct (byte_fields a) as (Ha & Ha0 & _).
  destruct (byte_fields b) as (_ & _ & Hb1 & Ha1 & _).
  destruct (byte_fields c) as (_ & _ & _ & _ & Hb2 & Hc & _).
  destruct (join_ok_spec _ _ _ (join_4_ok _ _ Ha0 Hb1)) as (_ & _ & J).
  destruct (join_ok_spec _ _ _ (join_2_ok _ _ Ha1 Hb2)) as (_ & _ & K).
  destruct (CHARS_at_sextet _ Ha) as (c0 & E0 & _ & S0).
  destruct (CHARS_at_sextet _ J) as (c1 & E1 & _ & S1).
  destruct (CHARS_at_sextet _ K) as (c2 & E2 & N2 & S2).
  destruct (CHARS_at_sextet _ Hc) as (c3 & E3 & N3 & S3).
  exists c0, c1, c2, c3. repeat split; try assumption.
  cbn [uint8ToBase64]. cbv zeta. rewrite E0, E1, E2, E3. reflexivity.
Qed.

Lemma encode_two a b :
  exists c0 c1 c2,
    uint8ToBase64 [a; b] = String c0 (String c1 (String c2 "=")) /\
    sextet_of c0 = Some (N.shiftr (Byte.to_N a) 2) /\
    sextet_of c1 = Some (N.lor (N.shiftl (N.land (Byte.to_N a) 3) 4) (N.shiftr (Byte.to_N b) 4)) /\
    sextet_of c2 = Some (N.lor (N.shiftl (N.land (Byte.to_N b) 15) 2) 0) /\
    Ascii.eqb c2 "="%char = false.
Proof.
  destruct (byte_fields a) as (Ha & Ha0 & _).
  destruct (byte_fields b) as (_ & _ & Hb1 & Ha1 & _).
  destruct (join_ok_spec _ _ _ (join_4_ok _ _ Ha0 Hb1)) as (_ & _ & J).
  destruct (join_ok_spec _ _ _ (join_2_ok _ 0 Ha1 ltac:(reflexivity))) as (_ & _ & K).
  destruct (CHARS_at_sextet _ Ha) as (c0 & E0 & _ & S0).
  destruct (CHARS_at_sextet _ J) as (c1 & E1 & _ & S1).
  destruct (CHARS_at_sextet _ K) as (c2 & E2 & N2 & S2).
  exists c0, c1, c2. repeat split; try assumption.
  cbn [uint8ToBase64]. cbv zeta. change (N.shiftr 0 6) with 0%N.
  rewrite E0, E1, E2. reflexivity.
Qed.

Lemma encode_one a :
  exists c0 c1,
    uint8ToBase64 [a] = String c0 (String c1 "==") /\
    sextet_of c0 = Some (N.shiftr (Byte.to_N a) 2) /\
    sextet_of c1 = Some (N.lor (N.shiftl (N.land (Byte.to_N a) 3) 4) 0).
Proof.
  destruct (byte_fields a) as (Ha & Ha0 & _).
  destruct (join_ok_spec _ _ _ (join_4_ok _ 0 Ha0 ltac:(reflexivity))) as (_ & _ & J).
  destruct (CHARS_at_sextet _ Ha) as (c0 & E0 & _ & S0).
  destruct (CHARS_at_sextet _ J) as (c1 & E1 & _ & S1).
  exists c0, c1. repeat split; try assumption.
  cbn [uint8ToBase64]. cbv zeta. change (N.shiftr 0 4) with 0%N.
  rewrite E0, E1. reflexivity.
Qed.

(** X1. Base64 text made by [uint8ToBase64] decodes to the bytes it was made
    from, so the encoding loses nothing: two byte arrays with the same text
    are the same array. *)
Theorem base64_round_trip (u8 : list byte) :
  base64Decode (uint8ToBase64 u8) = Some u8 /\
  (forall other, uint8ToBase64 other = uint8ToBase64 u8 -> other = u8).
Proof.
  assert (RT : forall l, base64Decode (uint8ToBase64 l) = Some l).
  { induction l as [|a|a b|a b c l IH] using list_ind3.
    - reflexivity.
    - destruct (encode_one a) as (c0 & c1 & -> & S0 & S1).
      destruct (byte_fields a) as (_ & Ha0 & _ & _ & _ & _ & R0 & _).
      destruct (join_ok_spec _ _ _ (join_4_ok _ 0 Ha0 ltac:(reflexivity))) as (J1 & _ & _).
      cbn [base64Decode]. rewrite S0, S1. cbn [mbind option_bind].
      unfold byte_of_N. rewrite J1, R0. reflexivity.
    - destruct (encode_two a b) as (c0 & c1 & c2 & -> & S0 & S1 & S2 & N2).
      destruct (byte_fields a) as (_ & Ha0 & _ & _ & _ & _ & R0 & _).
      destruct (byte_fields b) as (_ & _ & Hb1 & Ha1 & _ & _ & _ & R1 & _).
      destruct (join_ok_spec _ _ _ (join_4_ok _ _ Ha0 Hb1)) as (J1 & J2 & _).
      destruct (join_ok_spec _ _ _ (join_2_ok _ 0 Ha1 ltac:(reflexivity))) as (K1 & _ & _).
      change (N.ones 4) with 15%N in J2.
      cbn [base64Decode]. rewrite S0, S1, N2, S2. cbn [mbind option_bind].
      unfold byte_of_N. rewrite J1, R0. cbn [mbind option_bind].
      rewrite J2, K1, R1. reflexivity.
    - destruct (encode_three a b c l) as (c0 & c1 & c2 & c3 & -> & S0 & S1 & S2 & S3 & N2 & N3).
      rewrite (decode_group c0 c1 c2 c3 _ a b c) by assumption.
      rewrite IH. reflexivity. }
  split; [apply RT|].
  intros other H. pose proof (RT other) as Ho. rewrite H, RT in Ho. congruence.
Qed.

Lemma div3_step n : (n + 3 + 2) / 3 = S ((n + 2) / 3).
Proof.
  replace (n + 3 + 2) with ((n + 2) + 1 * 3) by lia.
  rewrite Nat.div_add by lia. lia.
Qed.

Lemma padding_step n : padding (S (S (S n))) = padding n.
Proof.
  unfold padding. replace (S (S (S n))) with (n + 1 * 3) by lia.
  now rewrite Nat.Div0.mod_add.
Qed.


(** X2. The text [uint8ToBase64] makes of [n] bytes has [4 * ceil(n / 3)]
    characters: characters of the base64 alphabet, then no padding, one ['=']
    or two, as [n mod 3] is 0, 2 or 1; of no bytes, the empty text. *)
Theorem base64_shape (u8 : list byte) :
  String.length (uint8ToBase64 u8) = 4 * ((length u8 + 2) / 3) /\
  (exists body,
     uint8ToBase64 u8 = body +:+ padding (length u8) /\ in_alphabet body = true) /\
  (uint8ToBase64 u8 = "" <-> u8 = []).
Proof.
  induction u8 as [|a|a b|a b c l IH] using list_ind3.
  - split; [reflexivity|]. split; [exists ""; split; reflexivity|]. split; reflexivity.
  - destruct (encode_one a) as (c0 & c1 & -> & S0 & S1).
    split; [reflexivity|]. split; [|split; discriminate].
    exists (String c0 (String c1 "")). split; [reflexivity|].
    simpl. now rewrite S0, S1.
  - destruct (encode_two a b) as (c0 & c1 & c2 & -> & S0 & S1 & S2 & N2).
    split; [reflexivity|]. split; [|split; discriminate].
    exists (String c0 (String c1 (String c2 ""))). split; [reflexivity|].
    simpl. now rewrite S0, S1, S2.
  - destruct (encode_three a b c l) as (c0 & c1 & c2 & c3 & -> & S0 & S1 & S2 & S3 & N2 & N3).
    destruct IH as (IHlen & (body & IHbody & IHalpha) & _).
    split; [|split; [|split; discriminate]].
    + cbn [String.length length]. rewrite IHlen.
      replace (S (S (S (length l))) + 2) with (length l + 3 + 2) by lia.
      rewrite div3_step. lia.
    + exists (String c0 (String c1 (String c2 (String c3 body)))). split.
      * cbn [length]. rewrite padding_step, IHbody. reflexivity.
      * simpl. now rewrite S0, S1, S2, S3, IHalpha.
Qed.

Example base64Decode_samples :
  base64Decode "TWFu" = Some [x4d; x61; x6e] /\
  base64Decode "TWE=" = Some [x4d; x61] /\
  base64Decode "TQ==" = Some [x4d] /\
  base64Decode "TQ=" = None.
Proof. repeat split; reflexivity. Qed.

(** ** Paints and colors *)

Lemma safeNum_number val d : exists n, safeNum val (VNum d) = VNum n.
Proof. destruct val; simpl; eauto. Qed.

Lemma safeStr_string val d : exists s, safeStr val (VStr d) = VStr s.
Proof. destruct val; simpl; eauto. Qed.

Lemma safeBool_boolean val d : exists b, safeBool val (VBool d) = VBool b.
Proof. destruct val; simpl; eauto. Qed.

Lemma toColor_is_color c : is_color (toColor c) = true.
Proof.
  unfold toColor. destruct (negb (truthy c) || is_symbol c); [reflexivity|].
  destruct (safeNum_number (field c "r") 0) as [r ->].
  destruct (safeNum_number (field c "g") 0) as [g ->].
  destruct (safeNum_number (field c "b") 0) as [b ->].
  destruct (safeNum_number (field c "a") 1) as [a ->].
  reflexivity.
Qed.

Lemma extractStop_cases s :
  (nullish s = true /\ succeeds (extractStop s) = false) \/
  (nullish s = false /\ exists v, extractStop s = Ok v /\ is_stop_record v = true).
Proof.
  destruct s; simpl; auto; right; (split; [reflexivity|]); eexists; (split; [reflexivity|]);
    simpl; try reflexivity.
  rewrite toColor_is_color. destruct (safeNum_number (obj_get props "position") 0) as [n ->].
  reflexivity.
Qed.

Lemma mapM_extractStop stops :
  if existsb nullish stops then succeeds (mapM extractStop stops) = false
  else exists vs, mapM extractStop stops = Ok vs /\ forallb is_stop_record vs = true
                  /\ length vs = length stops.
Proof.
  induction stops as [|s stops IH]; simpl; [exists []; auto|].
  destruct (extractStop_cases s) as [[Hn Hs]|[Hn (v & Hv & Hr)]]; rewrite Hn; simpl.
  - unfold mbind, result_bind. destruct (extractStop s); [discriminate | reflexivity].
  - rewrite Hv. unfold mbind, result_bind at 1. destruct (existsb nullish stops).
    + unfold mbind, result_bind. destruct (mapM extractStop stops); [discriminate | reflexivity].
    + destruct IH as (vs & -> & Hvs & Hlen). exists (v :: vs). simpl.
      rewrite Hr, Hvs, Hlen. auto.
Qed.

Lemma gradient_not_solid p : is_gradient p = true -> str_is (field p "type") "SOLID" = false.
Proof.
  unfold is_gradient. destruct (field p "type"); simpl; try discriminate.
  destruct (String.eqb_spec s "SOLID") as [->|]; [discriminate | reflexivity].
Qed.

Lemma extractPaint_cases (p : JsVal) :
  succeeds (extractPaint p) = negb (malformed_paint p) /\
  match extractPaint p with
  | Ok v =>
      if truthy p && negb (is_symbol p)
      then is_paint_record v && paint_payload_ok p v = true
      else v = VNull
  | Throw _ => True
  end.
Proof.
  unfold extractPaint, malformed_paint.
  destruct (truthy p) eqn:Ht; simpl; [|split; reflexivity].
  destruct (is_symbol p) eqn:Hs; simpl; [split; reflexivity|].
  destruct (safeStr_string (field p "type") "SOLID") as [ty ->].
  destruct (safeBool_boolean (field p "visible") true) as [vis ->].
  destruct (safeNum_number (field p "opacity") 1) as [op ->].
  destruct (str_is (field p "type") "SOLID") eqn:Hsolid.
  - assert (Hg : is_gradient p = false).
    { destruct (is_gradient p) eqn:Hg; [|reflexivity].
      apply gradient_not_solid in Hg. congruence. }
    rewrite Hg. simpl. split; [reflexivity|].
    unfold paint_payload_ok. rewrite Hsolid. simpl.
    now rewrite toColor_is_color.
  - fold (is_gradient p). destruct (is_gradient p) eqn:Hg.
    + pose proof (mapM_extractStop (arr_items (safeArr (field p "gradientStops")))) as Hm.
      destruct (existsb nullish _).
      * unfold mbind, result_bind. destruct (mapM extractStop _); [discriminate|].
        split; [reflexivity | exact I].
      * destruct Hm as (vs & -> & Hvs & _). simpl. split; [reflexivity|].
        unfold paint_payload_ok. rewrite Hsolid, Hg. simpl. now rewrite Hvs.
    + simpl. destruct (str_is (field p "type") "IMAGE") eqn:Himg.
      * simpl. split; [reflexivity|].
        unfold paint_payload_ok. rewrite Hsolid, Hg, Himg. simpl.
        destruct (safeStr_string (field p "imageHash") "") as [h ->].
        destruct (safeStr_string (field p "scaleMode") "FILL") as [m ->].
        reflexivity.
      * simpl. split; [reflexivity|].
        unfold paint_payload_ok. rewrite Hsolid, Hg, Himg. reflexivity.
Qed.

(** X3. [extractPaint] throws for exactly one kind of input, a gradient paint
    with a [null] or [undefined] stop. Otherwise it returns [null] for a
    paint that is falsy or a Symbol, and for any other value an object with a
    string [type], a boolean [visible], a numeric [opacity] and the payload
    of its type: a color of four numbers, typed gradient stops, or a string
    image reference with its scale mode. *)
Theorem extractPaint_outcome (p : JsVal) :
  succeeds (extractPaint p) = negb (malformed_paint p) /\
  match extractPaint p with
  | Ok v =>
      if truthy p && negb (is_symbol p)
      then is_paint_record v && paint_payload_ok p v = true
      else v = VNull
  | Throw _ => True
  end.
Proof. exact (extractPaint_cases p). Qed.

(** ** Serialized nodes *)

Lemma mapM_succeeds {A B : Type} (f : A -> result B) (l : list A) :
  succeeds (mapM f l) = forallb (fun a => succeeds (f a)) l.
Proof.
  induction l as [|a l IH]; simpl; [reflexivity|].
  unfold mbind, result_bind at 1. destruct (f a); simpl; [|reflexivity].
  unfold mbind, result_bind. rewrite <- IH. destruct (mapM f l); reflexivity.
Qed.

Lemma mapM_Ok {A B : Type} (f : A -> result B) (l : list A) (vs : list B) :
  mapM f l = Ok vs -> map Ok vs = map f l.
Proof.
  revert vs. induction l as [|a l IH]; simpl; intros vs.
  - intros [= <-]. reflexivity.
  - unfold mbind, result_bind at 1. destruct (f a) as [b|]; [|discriminate].
    unfold mbind, result_bind. destruct (mapM f l) as [bs|]; [|discriminate].
    intros [= <-]. simpl. now rewrite (IH bs).
Qed.

Lemma extractDesignNode_succeeds_eq node depth :
  succeeds (extractDesignNode node depth)
  = succeeds (mapM extractPaint (fills_of node))
    && succeeds (mapM extractPaint (strokes_of node)).
Proof.
  destruct node as [props cs]. unfold fills_of, strokes_of. simpl.
  split_paints; reflexivity.
Qed.

(** X4. A node fails to serialize in exactly one case: one of its own fills
    or strokes is a gradient with a [null] or [undefined] stop. Its effects,
    text, layout, depth and children never make it fail; in particular a
    child that fails does not take its parent with it. *)
Theorem node_fails_only_on_malformed_paint (node : Node) (depth : nat) :
  succeeds (extractDesignNode node depth)
  = negb (existsb malformed_paint (fills_of node ++ strokes_of node)) /\
  (forall children depth',
     succeeds (extractDesignNode (mkNode (node_props node) children) depth')
     = succeeds (extractDesignNode node depth)).
Proof.
  assert (H : forall n d,
            succeeds (extractDesignNode n d)
            = negb (existsb malformed_paint (fills_of n ++ strokes_of n))).
  { intros n d. rewrite extractDesignNode_succeeds_eq, !mapM_succeeds, existsb_app, negb_orb.
    f_equal.
    - induction (fills_of n) as [|p l IH]; simpl; [reflexivity|].
      rewrite (proj1 (extractPaint_cases p)), IH. now rewrite negb_orb.
    - induction (strokes_of n) as [|p l IH]; simpl; [reflexivity|].
      rewrite (proj1 (extractPaint_cases p)), IH. now rewrite negb_orb. }
  split; [apply H|]. intros children depth'. rewrite !H. destruct node; reflexivity.
Qed.

Lemma obj_get_set o k v k' :
  obj_get (obj_set o k v) k' = if String.eqb k k' then v else obj_get o k'.
Proof.
  destruct (String.eqb_spec k k') as [<-|Hne].
  - apply obj_get_set_same.
  - now apply obj_get_set_other.
Qed.

(** The blocks after the object literal leave the other fields alone. *)
Lemma blocks_keep_get node o k :
  ~ In k BLOCK_KEYS ->
  obj_get (componentField node (textFields node (autoLayoutField node
             (cornerRadiusFields node o)))) k = obj_get o k.
Proof.
  intros Hk.
  assert (Hne : forall k', In k' BLOCK_KEYS -> k' <> k) by (intros k' Hin ->; contradiction).
  unfold componentField, textFields, autoLayoutField, cornerRadiusFields.
  repeat match goal with
         | |- context [if ?b then _ else _] => destruct b
         end;
    rewrite ?obj_get_set_other by (apply Hne; simpl; tauto); reflexivity.
Qed.

Lemma safeNum_default val d :
  safeNum val (VNum d) = if JsType_eqb (typeof val) TNumber then val else VNum d.
Proof. destruct val; reflexivity. Qed.

Lemma safeStr_default val d :
  safeStr val (VStr d) = if JsType_eqb (typeof val) TString then val else VStr d.
Proof. destruct val; reflexivity. Qed.

Lemma safeBool_default val d :
  safeBool val (VBool d) = if JsType_eqb (typeof val) TBoolean then val else VBool d.
Proof. destruct val; reflexivity. Qed.

Lemma scalar_fields node depth d k dflt :
  extractDesignNode node depth = Ok d ->
  In (k, dflt) DEFAULTS ->
  obj_get (design_fields d) k
  = if JsType_eqb (typeof (prop node k)) (typeof dflt) then prop node k else dflt.
Proof.
  intros Hd Hin. destruct (extractDesignNode_fields _ _ _ Hd) as (fills & strokes & effects & E).
  rewrite E. simpl in Hin.
  decompose [or] Hin; try contradiction;
    match goal with H : (_, _) = (_, _) |- _ => injection H as <- <- end;
    (rewrite blocks_keep_get by (simpl; intuition discriminate));
    cbn [baseFields obj_get String.eqb Ascii.eqb Bool.eqb];
    first [apply safeStr_default | apply safeNum_default | apply safeBool_default].
Qed.

(** X5. The scalar fields of a serialized node are strictly typed: each
    holds the source value when that has the type of the field, and the
    field's default otherwise, be the source missing, [null], mixed or of
    another type: empty strings for [id], [name] and [type], [true] for
    [visible], 1 for [opacity], NORMAL, INSIDE, [false] for [locked] and
    [isMask], and 0 for the geometry and the stroke weight. *)
Theorem scalar_fields_are_typed_with_defaults
    (node : Node) (depth : nat) (d : DesignNode) (k : string) (dflt : JsVal) :
  extractDesignNode node depth = Ok d ->
  In (k, dflt) DEFAULTS ->
  obj_get (design_fields d) k
  = (if JsType_eqb (typeof (prop node k)) (typeof dflt) then prop node k else dflt) /\
  typeof (obj_get (design_fields d) k) = typeof dflt /\
  (absent (prop node k) = true -> obj_get (design_fields d) k = dflt).
Proof.
  intros Hd Hin. rewrite (scalar_fields node depth d k dflt Hd Hin).
  split; [reflexivity|]. split.
  - destruct (JsType_eqb (typeof (prop node k)) (typeof dflt)) eqn:E; [|reflexivity].
    destruct (typeof (prop node k)), (typeof dflt); simpl in E; congruence.
  - intros Ha. simpl in Hin.
    decompose [or] Hin; try contradiction;
      match goal with H : (_, _) = (_, _) |- _ => injection H as <- <- end;
      destruct (prop node _); simpl in *; try discriminate; reflexivity.
Qed.

(** A rectangle that says nothing of its opacity, and one whose width is
    mixed. *)
Lemma scalar_fields_witness :
  obj_get (design_fields (snapshot (chain 0) 0)) "opacity" = VNum 1 /\
  obj_get (design_fields
             (snapshot (mkNode [("width", figma_mixed); ("height", VNum 4)] None) 0)) "width"
  = VNum 0.
Proof.
  split.
  - apply (scalar_fields_are_typed_with_defaults (chain 0) 0 (snapshot (chain 0) 0)
             "opacity" (VNum 1)).
    + reflexivity.
    + simpl. tauto.
    + reflexivity.
  - apply (scalar_fields_are_typed_with_defaults
             (mkNode [("width", figma_mixed); ("height", VNum 4)] None) 0
             (snapshot (mkNode [("width", figma_mixed); ("height", VNum 4)] None) 0)
             "width" (VNum 0)).
    + reflexivity.
    + simpl. tauto.
    + reflexivity.
Defined.

Lemma extractEffect_cases e :
  if is_item e then is_effect_record (extractEffect e) = true
  else extractEffect e = VNull.
Proof.
  unfold extractEffect, is_item.
  destruct (truthy e); simpl; [|reflexivity]. destruct (is_symbol e); simpl; [reflexivity|].
  destruct (safeStr_string (field e "type") "") as [ty ->].
  destruct (safeBool_boolean (field e "visible") true) as [vis ->].
  destruct (safeNum_number (field e "radius") 0) as [r ->].
  destruct (_ || _); reflexivity.
Qed.

Lemma paint_record_not_null v : is_paint_record v = true -> not_null v = true.
Proof. destruct v; simpl; try discriminate; reflexivity. Qed.

Lemma effect_record_not_null v : is_effect_record v = true -> not_null v = true.
Proof. destruct v; simpl; try discriminate; reflexivity. Qed.

(** The paints that survive [.filter(p !== null)] are the serializations of
    the source items that are neither falsy nor a Symbol, in order. *)
Lemma kept_paints l vs :
  mapM extractPaint l = Ok vs ->
  map Ok (List.filter not_null vs) = map extractPaint (List.filter is_item l) /\
  forallb is_paint_record (List.filter not_null vs) = true.
Proof.
  intros H. apply mapM_Ok in H. revert vs H.
  induction l as [|p l IH]; intros [|v vs] H; simpl in H; try discriminate.
  - split; reflexivity.
  - injection H as Hp Hl. destruct (IH vs Hl) as [IH1 IH2].
    pose proof (proj2 (extractPaint_cases p)) as Hc. rewrite <- Hp in Hc.
    simpl. fold (is_item p) in Hc. destruct (is_item p).
    + apply andb_true_iff in Hc as [Hrec _].
      rewrite (paint_record_not_null v Hrec). simpl. rewrite Hrec, IH1, Hp. auto.
    + subst v. simpl. auto.
Qed.

Lemma kept_effects l :
  List.filter not_null (map extractEffect l) = map extractEffect (List.filter is_item l) /\
  forallb is_effect_record (List.filter not_null (map extractEffect l)) = true.
Proof.
  induction l as [|e l [IH1 IH2]]; simpl; [split; reflexivity|].
  pose proof (extractEffect_cases e) as Hc. destruct (is_item e).
  - rewrite (effect_record_not_null _ Hc). simpl. rewrite Hc, IH2, IH1. auto.
  - rewrite Hc. simpl. auto.
Qed.

Lemma filter_length_le {A : Type} (f : A -> bool) (l : list A) :
  length (List.filter f l) <= length l.
Proof. induction l as [|a l IH]; simpl; [lia|]. destruct (f a); simpl; lia. Qed.

(** X6. A serialized node always has its [fills], [strokes], [effects] and
    [dashPattern] fields, each an array, whatever the source holds in their
    place. The arrays have no hole: [fills], [strokes] and [effects] list the
    serializations of the source items that are neither falsy nor a Symbol,
    in source order, each a typed record, and [dashPattern] keeps the numbers
    of the source array. *)
Theorem sequences_are_present_and_clean (node : Node) (depth : nat) (d : DesignNode) :
  extractDesignNode node depth = Ok d ->
  exists fills strokes effects,
    obj_get (design_fields d) "fills" = VArr fills /\
    obj_get (design_fields d) "strokes" = VArr strokes /\
    obj_get (design_fields d) "effects" = VArr effects /\
    obj_get (design_fields d) "dashPattern"
    = VArr (List.filter is_number
              (arr_items (safeArr (safe (prop node "dashPattern") VUndefined)))) /\
    map Ok fills = map extractPaint (List.filter is_item (fills_of node)) /\
    map Ok strokes = map extractPaint (List.filter is_item (strokes_of node)) /\
    effects = map extractEffect (List.filter is_item (effects_of node)) /\
    forallb is_paint_record fills = true /\
    forallb is_paint_record strokes = true /\
    forallb is_effect_record effects = true /\
    length fills <= length (fills_of node) /\
    length strokes <= length (strokes_of node) /\
    length effects <= length (effects_of node).
Proof.
  intros Hd. destruct node as [props cs]. unfold fills_of, strokes_of, effects_of.
  simpl in Hd. unfold mbind, result_bind in Hd.
  destruct (mapM extractPaint (arr_items (safeArr (safe (prop _ "fills") VUndefined))))
    as [fs|] eqn:Ef; [|discriminate].
  destruct (mapM extractPaint (arr_items (safeArr (safe (prop _ "strokes") VUndefined))))
    as [ss|] eqn:Es; [|discriminate].
  injection Hd as <-. cbn [design_fields].
  destruct (kept_paints _ _ Ef) as [F1 F2]. destruct (kept_paints _ _ Es) as [S1 S2].
  destruct (kept_effects (arr_items (safeArr (safe (prop {| node_props := props;
              node_children := cs |} "effects") VUndefined)))) as [E1 E2].
  exists (List.filter not_null fs), (List.filter not_null ss),
    (List.filter not_null (map extractEffect (arr_items (safeArr (safe (prop {|
       node_props := props; node_children := cs |} "effects") VUndefined))))).
  rewrite !blocks_keep_get by (simpl; intuition discriminate).
  repeat split; try reflexivity; try assumption.
  - apply (f_equal (@length _)) in F1. rewrite !length_map in F1. rewrite F1.
    apply filter_length_le.
  - apply (f_equal (@length _)) in S1. rewrite !length_map in S1. rewrite S1.
    apply filter_length_le.
  - rewrite E1, length_map. apply filter_length_le.
Qed.

Lemma sequences_witness :
  exists fills strokes effects,
    obj_get (design_fields (snapshot (chain 0) 0)) "fills" = VArr fills /\
    obj_get (design_fields (snapshot (chain 0) 0)) "strokes" = VArr strokes /\
    obj_get (design_fields (snapshot (chain 0) 0)) "effects" = VArr effects.
Proof.
  destruct (sequences_are_present_and_clean (chain 0) 0 (snapshot (chain 0) 0) eq_refl)
    as (fills & strokes & effects & Hf & Hs & He & _).
  exists fills, strokes, effects. auto.
Defined.

Lemma safe_is_item v : truthy (safe v VUndefined) = is_item v.
Proof.
  unfold is_item. destruct v; simpl; rewrite ?andb_true_r, ?andb_false_r; reflexivity.
Qed.

Lemma safe_str_is v lit : str_is (safe v VUndefined) lit = str_is v lit.
Proof. destruct v; reflexivity. Qed.

Lemma safe_not_symbol v : is_symbol (safe v VUndefined) = false.
Proof. destruct v; reflexivity. Qed.

Lemma extractAutoLayout_truthy node : truthy (extractAutoLayout node) = layout_is_on node.
Proof.
  unfold extractAutoLayout, layout_is_on.
  rewrite safe_is_item, safe_str_is.
  destruct (is_item (prop node "layoutMode")); simpl; [|reflexivity].
  destruct (str_is (prop node "layoutMode") "NONE"); reflexivity.
Qed.

Lemma extractTextStyle_truthy node : truthy (extractTextStyle node) = is_item (prop node "fontName").
Proof.
  unfold extractTextStyle. rewrite safe_is_item, safe_not_symbol, orb_false_r.
  destruct (is_item (prop node "fontName")); reflexivity.
Qed.

Lemma cornerRadiusFields_has_other node o k :
  ~ In k ("cornerRadius" :: PER_CORNER) ->
  obj_has (cornerRadiusFields node o) k = obj_has o k.
Proof.
  intros Hk.
  assert (Hne : forall k', In k' ("cornerRadius" :: PER_CORNER) -> String.eqb k' k = false).
  { intros k' Hin. destruct (String.eqb_spec k' k) as [->|]; [contradiction | reflexivity]. }
  unfold cornerRadiusFields.
  repeat match goal with
         | |- context [if ?b then _ else _] => destruct b
         end;
    rewrite ?obj_has_set, ?Hne by (simpl; tauto); rewrite ?orb_false_r; reflexivity.
Qed.

Lemma autoLayoutField_has node o k :
  obj_has (autoLayoutField node o) k
  = obj_has o k || (String.eqb "autoLayout" k && is_layout_type node && layout_is_on node).
Proof.
  unfold autoLayoutField. fold (is_layout_type node). rewrite extractAutoLayout_truthy.
  destruct (is_layout_type node), (layout_is_on node);
    rewrite ?obj_has_set, ?andb_false_r, ?andb_true_r, ?orb_false_r; reflexivity.
Qed.

Lemma textFields_has node o k :
  obj_has (textFields node o) k
  = obj_has o k
    || (str_is (prop node "type") "TEXT"
        && (String.eqb "characters" k
            || (String.eqb "textStyle" k && is_item (prop node "fontName")))).
Proof.
  unfold textFields. rewrite extractTextStyle_truthy.
  destruct (str_is (prop node "type") "TEXT"), (is_item (prop node "fontName"));
    rewrite ?obj_has_set; simpl;
    rewrite ?andb_false_r, ?andb_true_r, ?orb_false_r, ?orb_assoc; reflexivity.
Qed.

Lemma componentField_has node o k :
  obj_has (componentField node o) k
  = obj_has o k || (str_is (prop node "type") "INSTANCE" && String.eqb "componentId" k).
Proof.
  unfold componentField. destruct (str_is (prop node "type") "INSTANCE");
    rewrite ?obj_has_set; simpl; rewrite ?orb_false_r; reflexivity.
Qed.

Lemma optional_field_has node depth d k :
  extractDesignNode node depth = Ok d ->
  In k ["autoLayout"; "characters"; "textStyle"; "componentId"] ->
  has_field d k
  = (String.eqb "autoLayout" k && is_layout_type node && layout_is_on node)
    || (str_is (prop node "type") "TEXT"
        && (String.eqb "characters" k
            || (String.eqb "textStyle" k && is_item (prop node "fontName"))))
    || (str_is (prop node "type") "INSTANCE" && String.eqb "componentId" k).
Proof.
  intros Hd Hk. destruct (extractDesignNode_fields _ _ _ Hd) as (fills & strokes & effects & E).
  unfold has_field. rewrite E, componentField_has, textFields_has, autoLayoutField_has.
  rewrite cornerRadiusFields_has_other
    by (simpl in *; intros H; decompose [or] Hk; decompose [or] H; subst;
        try contradiction; discriminate).
  replace (obj_has (baseFields node fills strokes effects) k) with false; [reflexivity|].
  simpl in Hk. decompose [or] Hk; subst; try contradiction; reflexivity.
Qed.

(** X7. Which optional fields a serialized node has is decided by the source
    alone: [autoLayout] exactly on a FRAME, COMPONENT or INSTANCE whose
    [layoutMode] is a truthy value other than ['NONE'] and not mixed;
    [characters] exactly on a TEXT node, and then a string; [textStyle]
    exactly on a TEXT node whose [fontName] is neither missing nor mixed;
    [componentId] exactly on an INSTANCE. *)
Theorem optional_fields_follow_the_type (node : Node) (depth : nat) (d : DesignNode) :
  extractDesignNode node depth = Ok d ->
  has_field d "autoLayout" = is_layout_type node && layout_is_on node /\
  has_field d "characters" = str_is (prop node "type") "TEXT" /\
  has_field d "textStyle"
  = str_is (prop node "type") "TEXT" && is_item (prop node "fontName") /\
  has_field d "componentId" = str_is (prop node "type") "INSTANCE" /\
  (str_is (prop node "type") "TEXT" = true ->
   typeof (obj_get (design_fields d) "characters") = TString).
Proof.
  intros Hd.
  rewrite !(optional_field_has node depth d) by (first [exact Hd | simpl; tauto]).
  cbn [String.eqb Ascii.eqb Bool.eqb andb orb].
  split; [|split; [|split; [|split]]];
    try (destruct (is_layout_type node), (layout_is_on node),
           (str_is (prop node "type") "TEXT"), (is_item (prop node "fontName")),
           (str_is (prop node "type") "INSTANCE"); reflexivity).
  - intros Ht. destruct (extractDesignNode_fields _ _ _ Hd) as (fills & strokes & effects & E).
    rewrite E. unfold componentField, textFields. rewrite Ht.
    assert (Hi : str_is (prop node "type") "INSTANCE" = false).
    { destruct (prop node "type"); simpl in *; try discriminate.
      apply String.eqb_eq in Ht. subst. reflexivity. }
    rewrite Hi. destruct (truthy (extractTextStyle node)).
    + rewrite obj_get_set_other by discriminate. rewrite obj_get_set_same.
      destruct (prop node "characters"); reflexivity.
    + rewrite obj_get_set_same. destruct (prop node "characters"); reflexivity.
Qed.

Lemma optional_fields_witness :
  has_field (snapshot text_node 0) "autoLayout" = false /\
  has_field (snapshot text_node 0) "characters" = true /\
  has_field (snapshot text_node 0) "textStyle" = true /\
  has_field (snapshot text_node 0) "componentId" = false.
Proof.
  destruct (optional_fields_follow_the_type text_node 0 (snapshot text_node 0) eq_refl)
    as (H1 & H2 & H3 & H4 & _).
  rewrite H1, H2, H3, H4. repeat split; reflexivity.
Defined.

Lemma flat_map_push (rs : list (result DesignNode)) :
  map Ok (flat_map push_unless_thrown rs) = List.filter succeeds rs.
Proof.
  induction rs as [|[d|e] rs IH]; simpl; [reflexivity | now rewrite IH | exact IH].
Qed.

Lemma filter_partition_length {A : Type} (f : A -> bool) (l : list A) :
  length (List.filter f l) + length (List.filter (fun a => negb (f a)) l) = length l.
Proof. induction l as [|a l IH]; simpl; [reflexivity|]. destruct (f a); simpl; lia. Qed.

(** X8. Below the depth bound the [children] of a serialized node are the
    snapshots of exactly those source children that serialize, in source
    order: a child that throws is left out alone, its siblings stay, and the
    number left out is the number of children that throw. *)
Theorem children_that_serialize_are_kept
    (node : Node) (depth : nat) (d : DesignNode) (cs : list Node) :
  extractDesignNode node depth = Ok d ->
  depth < MAX_TREE_DEPTH ->
  node_children node = Some cs ->
  exists ds,
    design_children d = Some ds /\
    map Ok ds = List.filter succeeds (map (fun c => extractDesignNode c (S depth)) cs) /\
    length ds
    + length (List.filter (fun c => negb (succeeds (extractDesignNode c (S depth)))) cs)
    = length cs /\
    (Forall (fun c => succeeds (extractDesignNode c (S depth)) = true) cs ->
     length ds = length cs).
Proof.
  intros Hd Hlt Hcs. pose proof (extractDesignNode_children _ _ _ Hd) as Hc.
  rewrite Hcs in Hc. destruct (Nat.ltb_spec depth MAX_TREE_DEPTH); [|lia].
  eexists. split; [exact Hc|].
  assert (E : forall l : list Node,
            flat_map (fun c => push_unless_thrown (extractDesignNode c (S depth))) l
            = flat_map push_unless_thrown (map (fun c => extractDesignNode c (S depth)) l)).
  { induction l as [|c l IH]; simpl; [reflexivity | now rewrite IH]. }
  rewrite E.
  assert (Hlen : length (flat_map push_unless_thrown
                           (map (fun c => extractDesignNode c (S depth)) cs))
                 = length (List.filter (fun c => succeeds (extractDesignNode c (S depth))) cs)).
  { rewrite <- (length_map Ok), flat_map_push.
    clear. induction cs as [|c cs IH]; simpl; [reflexivity|].
    destruct (succeeds (extractDesignNode c (S depth))); simpl; now rewrite IH. }
  split; [apply flat_map_push|]. split.
  - rewrite Hlen. apply filter_partition_length.
  - intros Hall. rewrite Hlen. clear -Hall.
    induction Hall as [|c l Hc _ IH]; simpl; [reflexivity|]. rewrite Hc. simpl. now rewrite IH.
Qed.

(** A frame whose first child throws and whose second child is a text. *)
Lemma children_kept_witness :
  exists ds,
    design_children (snapshot frame_with_malformed_child 0) = Some ds /\
    length ds + 1 = 2.
Proof.
  destruct (children_that_serialize_are_kept frame_with_malformed_child 0
              (snapshot frame_with_malformed_child 0)
              (default [] (node_children frame_with_malformed_child)) eq_refl)
    as (ds & Hds & _ & Hlen & _).
  - unfold MAX_TREE_DEPTH. lia.
  - reflexivity.
  - exists ds. split; [exact Hds | exact Hlen].
Defined.

(** ** Font weight *)

Lemma digits_only_all_digits s : all_digits (digits_only s) = true.
Proof.
  induction s as [|c s IH]; simpl; [reflexivity|].
  destruct (is_digit c) eqn:E; simpl; [now rewrite E|exact IH].
Qed.

Lemma digits_only_fixed s : all_digits s = true -> digits_only s = s.
Proof.
  induction s as [|c s IH]; simpl; [reflexivity|].
  intros H. apply andb_true_iff in H as [Hc Hs]. now rewrite Hc, IH.
Qed.

Lemma digits_only_empty s : digits_only s = "" <-> has_digit s = false.
Proof.
  induction s as [|c s IH]; simpl; [tauto|].
  destruct (is_digit c); simpl; [split; discriminate | exact IH].
Qed.

Lemma digits_only_app a b : digits_only (a +:+ b) = digits_only a +:+ digits_only b.
Proof.
  induction a as [|c a IH]; simpl; [reflexivity|].
  destruct (is_digit c); simpl; now rewrite IH.
Qed.

Lemma append_empty_r s : s +:+ "" = s.
Proof.
  induction s as [|c s IH]; [reflexivity|].
  change (String c (s +:+ "") = String c s). now f_equal.
Qed.

(** X9. The font weight is read from the digits of the style name alone: a
    name without a digit gives 400; otherwise every character that is not a
    digit is dropped, the digits that remain are read as one decimal number
    wherever they stood, and the weight of a name is the weight of its
    digits. *)
Theorem fontWeight_reads_the_digits (style : string) :
  (has_digit style = false -> fontWeight style = 400%float) /\
  (has_digit style = true ->
   fontWeight style = num_of_Z (decimal_value 0 (digits_only style))) /\
  fontWeight (digits_only style) = fontWeight style /\
  all_digits (digits_only style) = true /\
  (forall before after,
     has_digit before = false -> has_digit after = false ->
     fontWeight (before +:+ style +:+ after) = fontWeight style).
Proof.
  assert (Hno : forall s, has_digit s = false -> fontWeight s = 400%float).
  { intros s H. apply digits_only_empty in H. unfold fontWeight. rewrite H. reflexivity. }
  assert (Hidem : forall s, fontWeight (digits_only s) = fontWeight s).
  { intros s. unfold fontWeight.
    now rewrite (digits_only_fixed _ (digits_only_all_digits s)). }
  split; [apply Hno|]. split; [|split; [apply Hidem|split; [apply digits_only_all_digits|]]].
  - intros H. unfold fontWeight.
    destruct (String.eqb_spec (digits_only style) "") as [E|_]; [|reflexivity].
    apply digits_only_empty in E. congruence.
  - intros before after Hb Ha. apply digits_only_empty in Hb, Ha.
    rewrite <- (Hidem (before +:+ style +:+ after)), <- (Hidem style).
    rewrite !digits_only_app, Hb, Ha. simpl. now rewrite append_empty_r.
Qed.

Lemma fontWeight_witness :
  fontWeight "Bold" = 400%float /\
  fontWeight "SemiBold 600" = num_of_Z (decimal_value 0 (digits_only "SemiBold 600")) /\
  fontWeight ("Extra " +:+ "SemiBold 600" +:+ " Italic") = fontWeight "SemiBold 600".
Proof.
  split; [|split].
  - apply (proj1 (fontWeight_reads_the_digits "Bold")). reflexivity.
  - apply (proj1 (proj2 (fontWeight_reads_the_digits "SemiBold 600"))). reflexivity.
  - apply (proj2 (proj2 (proj2 (proj2 (fontWeight_reads_the_digits "SemiBold 600")))));
      reflexivity.
Defined.

(** Digits of a size and of a weight in one name run together. *)
Example fontWeight_concatenates : fontWeight "Inter 18pt Bold 700" = 18700%float.
Proof. vm_compute. reflexivity. Qed.

(** ** Asset collector: entries, caps and ids *)

(** A relation between accumulators that holds across every step of the
    walk holds across the walk. *)
Lemma walk_preserves (R : Collected -> Collected -> Prop) :
  (forall c, R c c) ->
  (forall a b c, R a b -> R b c -> R a c) ->
  (forall node c f, is_invisible node = false -> R c (collectFill node c f)) ->
  (forall node c, is_invisible node = false -> R c (collectVector node c)) ->
  (forall node depth c, is_invisible node = false -> R c (collectComposite node depth c)) ->
  forall node depth c, R c (collectImageAssets node depth c).
Proof.
  intros Hrefl Htrans Hfill Hvec Hcomp.
  assert (Hfold : forall {A : Type} (f : Collected -> A -> Collected) (l : list A),
            Forall (fun x => forall c, R c (f c x)) l -> forall c, R c (fold_left f l c)).
  { intros A f l. induction 1 as [|x l Hx _ IH]; intros c; simpl; [apply Hrefl|].
    eapply Htrans; [apply Hx | apply IH]. }
  induction node as [props|props cs IH] using Node_nested_ind; intros depth c;
    rewrite collectImageAssets_eq;
    destruct (Nat.ltb MAX_IMAGE_SCAN_DEPTH depth); try apply Hrefl;
    destruct (Nat.leb (MAX_IMAGE_ASSETS + MAX_VECTOR_ASSETS + MAX_COMPOSITE_ASSETS)
                      (totalCount c)); try apply Hrefl;
    destruct (is_invisible _) eqn:Hvis; try apply Hrefl; cbv zeta; cbn [node_children].
  - eapply Htrans; [|apply Hcomp; exact Hvis].
    eapply Htrans; [|apply Hvec; exact Hvis].
    apply Hfold. apply Forall_forall. intros f _ c'. apply Hfill. exact Hvis.
  - eapply Htrans; [|apply Hfold].
    + eapply Htrans; [|apply Hcomp; exact Hvis].
      eapply Htrans; [|apply Hvec; exact Hvis].
      apply Hfold. apply Forall_forall. intros f _ c'. apply Hfill. exact Hvis.
    + eapply Forall_impl; [exact IH|]. intros child Hchild c'. apply Hchild.
Qed.

Lemma names_its_node_made node :
  names_its_node {| ref_node := node;
                    ref_nodeId := safeStr (prop node "id") (VStr "");
                    ref_nodeName := safeStr (prop node "name") (VStr "") |} = true.
Proof.
  unfold names_its_node. simpl.
  destruct (safeStr_string (prop node "id") "") as [i ->].
  destruct (safeStr_string (prop node "name") "") as [n ->].
  simpl. now rewrite !String.eqb_refl.
Qed.

Lemma adds_sound_refl c : adds_sound_entries c c.
Proof. exists [], []. rewrite !app_nil_r. auto. Qed.

Lemma adds_sound_trans a b c :
  adds_sound_entries a b -> adds_sound_entries b c -> adds_sound_entries a c.
Proof.
  intros (vs & cs & Hv & Hc & Fv & Fc) (vs' & cs' & Hv' & Hc' & Fv' & Fc').
  exists (vs ++ vs'), (cs ++ cs').
  rewrite Hv', Hv, Hc', Hc, !app_assoc, !forallb_app, Fv, Fc, Fv', Fc'. auto.
Qed.

Lemma collectFill_same_entries node c f :
  vectorNodes (collectFill node c f) = vectorNodes c /\
  compositeNodes (collectFill node c f) = compositeNodes c /\
  compositeIds (collectFill node c f) = compositeIds c.
Proof.
  unfold collectFill. repeat match goal with |- context [if ?b then _ else _] => destruct b end;
    auto.
Qed.

Lemma collectVector_cases node c :
  collectVector node c = c \/
  (is_vector_type node = true /\ has_extent node = true /\
   length (vectorNodes c) < MAX_VECTOR_ASSETS /\
   vectorNodes (collectVector node c)
   = vectorNodes c ++ [{| ref_node := node;
                         ref_nodeId := safeStr (prop node "id") (VStr "");
                         ref_nodeName := safeStr (prop node "name") (VStr "") |}] /\
   compositeNodes (collectVector node c) = compositeNodes c /\
   compositeIds (collectVector node c) = compositeIds c).
Proof.
  assert (E : collectVector node c =
    if is_vector_type node && truthy (safeBool (prop node "visible") (VBool true))
       && has_extent node && Nat.ltb (length (vectorNodes c)) MAX_VECTOR_ASSETS
    then {| imageHashes := imageHashes c;
            vectorNodes := vectorNodes c ++
              [{| ref_node := node;
                  ref_nodeId := safeStr (prop node "id") (VStr "");
                  ref_nodeName := safeStr (prop node "name") (VStr "") |}];
            compositeNodes := compositeNodes c;
            compositeIds := compositeIds c;
            totalCount := S (totalCount c) |}
    else c) by reflexivity.
  rewrite E. clear E.
  destruct (is_vector_type node && truthy (safeBool (prop node "visible") (VBool true))
            && has_extent node
            && Nat.ltb (length (vectorNodes c)) MAX_VECTOR_ASSETS) eqn:E; [|now left].
  right. apply andb_true_iff in E as [E Hlen]. apply andb_true_iff in E as [E Hext].
  apply andb_true_iff in E as [Hty _]. apply Nat.ltb_lt in Hlen. auto 10.
Qed.

Lemma collectComposite_cases node depth c :
  collectComposite node depth c = c \/
  (is_container node = true /\ 0 < depth /\ subtreeHasImage node 0 = true /\
   length (compositeNodes c) < MAX_COMPOSITE_ASSETS /\
   truthy (obj_lookup (compositeIds c) (str_of (safeStr (prop node "id") (VStr "")))) = false /\
   vectorNodes (collectComposite node depth c) = vectorNodes c /\
   compositeNodes (collectComposite node depth c)
   = compositeNodes c ++ [{| ref_node := node;
                            ref_nodeId := safeStr (prop node "id") (VStr "");
                            ref_nodeName := safeStr (prop node "name") (VStr "") |}] /\
   compositeIds (collectComposite node depth c)
   = obj_set (compositeIds c) (str_of (safeStr (prop node "id") (VStr ""))) (VBool true)).
Proof.
  assert (E : collectComposite node depth c =
    if is_container node && Nat.ltb 0 depth
       && Nat.ltb (length (compositeNodes c)) MAX_COMPOSITE_ASSETS
    then
      if subtreeHasImage node 0
         && negb (truthy (obj_lookup (compositeIds c)
                            (str_of (safeStr (prop node "id") (VStr "")))))
      then {| imageHashes := imageHashes c;
              vectorNodes := vectorNodes c;
              compositeNodes := compositeNodes c ++
                [{| ref_node := node;
                    ref_nodeId := safeStr (prop node "id") (VStr "");
                    ref_nodeName := safeStr (prop node "name") (VStr "") |}];
              compositeIds :=
                obj_set (compositeIds c) (str_of (safeStr (prop node "id") (VStr "")))
                  (VBool true);
              totalCount := S (totalCount c) |}
      else c
    else c) by reflexivity.
  rewrite E. clear E.
  destruct (is_container node && Nat.ltb 0 depth
            && Nat.ltb (length (compositeNodes c)) MAX_COMPOSITE_ASSETS) eqn:E; [|now left].
  destruct (subtreeHasImage node 0 && negb (truthy (obj_lookup (compositeIds c)
               (str_of (safeStr (prop node "id") (VStr "")))))) eqn:E2; [|now left].
  right. apply andb_true_iff in E as [E Hlen]. apply andb_true_iff in E as [Hc Hd].
  apply andb_true_iff in E2 as [Hs Hl]. apply negb_true_iff in Hl.
  apply Nat.ltb_lt in Hlen, Hd. simpl. auto 10.
Qed.

Lemma walk_adds_sound_entries node depth c :
  adds_sound_entries c (collectImageAssets node depth c).
Proof.
  apply walk_preserves.
  - apply adds_sound_refl.
  - apply adds_sound_trans.
  - intros n c' f _. destruct (collectFill_same_entries n c' f) as (Hv & Hc & _).
    exists [], []. rewrite Hv, Hc, !app_nil_r. auto.
  - intros n c' Hvis. destruct (collectVector_cases n c') as [->|(Hty & Hext & _ & Hv & Hc & _)];
      [apply adds_sound_refl|].
    eexists _, []. rewrite Hv, Hc. split; [reflexivity|]. rewrite app_nil_r.
    repeat split; try reflexivity.
    apply forallb_forall. intros r [<-|[]]. unfold is_vector_ref.
    rewrite names_its_node_made. cbn [ref_node]. now rewrite Hty, Hvis, Hext.
  - intros n d c' Hvis.
    destruct (collectComposite_cases n d c') as [->|(Hty & _ & Hs & _ & _ & Hv & Hc & _)];
      [apply adds_sound_refl|].
    eexists [], _. rewrite Hv, Hc. split; [now rewrite app_nil_r|].
    split; [reflexivity|]. split; [reflexivity|].
    apply forallb_forall. intros r [<-|[]]. unfold is_composite_ref.
    rewrite names_its_node_made. cbn [ref_node]. now rewrite Hty, Hvis, Hs.
Qed.

(** X10. The walk only ever appends to [vectorNodes] and [compositeNodes],
    and what it appends is sound: each new vector entry is a visible node of
    type VECTOR, STAR, LINE, POLYGON or BOOLEAN_OPERATION with a positive
    width or height, each new composite entry is a visible INSTANCE,
    COMPONENT, COMPONENT_SET or clipping FRAME with an image fill within the
    reach of the sub-scan, and each entry carries the id and the name of its
    node as strings. *)
Theorem walk_appends_sound_entries (node : Node) (depth : nat) (collected : Collected) :
  exists vs cs,
    vectorNodes (collectImageAssets node depth collected) = vectorNodes collected ++ vs /\
    compositeNodes (collectImageAssets node depth collected)
    = compositeNodes collected ++ cs /\
    forallb is_vector_ref vs = true /\
    forallb is_composite_ref cs = true.
Proof. exact (walk_adds_sound_entries node depth collected). Qed.

Lemma walk_within_caps node depth c : within_caps c (collectImageAssets node depth c).
Proof.
  apply walk_preserves; unfold within_caps.
  - intros; lia.
  - intros; lia.
  - intros n c' f _. destruct (collectFill_same_entries n c' f) as (-> & -> & _). lia.
  - intros n c' _.
    destruct (collectVector_cases n c') as [->|(_ & _ & Hlen & Hv & Hc & _)]; [lia|].
    rewrite Hv, Hc, length_app. simpl. lia.
  - intros n d c' _.
    destruct (collectComposite_cases n d c') as [->|(_ & _ & _ & Hlen & _ & Hv & Hc & _)];
      [lia|].
    rewrite Hv, Hc, length_app. simpl. lia.
Qed.

(** X11. The walk never takes the vector entries beyond 30 or the composite
    entries beyond 20: after any walk each list is within its cap, or no
    longer than it was before the walk. *)
Theorem walk_respects_the_caps (node : Node) (depth : nat) (collected : Collected) :
  length (vectorNodes (collectImageAssets node depth collected))
  <= Nat.max (length (vectorNodes collected)) MAX_VECTOR_ASSETS /\
  length (compositeNodes (collectImageAssets node depth collected))
  <= Nat.max (length (compositeNodes collected)) MAX_COMPOSITE_ASSETS.
Proof. exact (walk_within_caps node depth collected). Qed.

Lemma safeStr_is_VStr v d : safeStr v (VStr d) = VStr (str_of (safeStr v (VStr d))).
Proof. destruct (safeStr_string v d) as [s ->]. reflexivity. Qed.

Lemma walk_keeps_indexed node depth c : keeps_indexed c (collectImageAssets node depth c).
Proof.
  apply walk_preserves; unfold keeps_indexed, composites_indexed.
  - auto.
  - auto.
  - intros n c' f _. destruct (collectFill_same_entries n c' f) as (_ & -> & ->). auto.
  - intros n c' _.
    destruct (collectVector_cases n c') as [->|(_ & _ & _ & _ & -> & ->)]; auto.
  - intros n d c' _.
    destruct (collectComposite_cases n d c') as [->|(_ & _ & _ & _ & Hl & _ & -> & ->)];
      [auto|].
    intros [Hwf Hmap]. destruct (lookup_falsy_fresh _ _ (proj2 Hwf) Hl) as [Hfresh _].
    rewrite (obj_set_fresh _ _ _ Hfresh). split.
    + now apply wf_hashes_snoc.
    + unfold keys in *. rewrite !map_app, Hmap. simpl. f_equal. f_equal.
      apply safeStr_is_VStr.
Qed.

Lemma NoDup_map_VStr (l : list string) : NoDup l -> NoDup (map VStr l).
Proof.
  induction 1 as [|x l Hx _ IH]; simpl; constructor; [|exact IH].
  intros Hin. apply Hx. apply list_elem_of_In in Hin. apply in_map_iff in Hin.
  destruct Hin as (y & [= ->] & Hy). now apply list_elem_of_In.
Qed.

(** X12. No node id is recorded as a composite twice: if the composite
    entries and [compositeIds] agree before a walk (as they do in the empty
    accumulator), they agree after it, and the ids of the composite entries
    are pairwise distinct, even on a tree in which two containers share an
    id. *)
Theorem composite_ids_are_distinct (node : Node) (depth : nat) (collected : Collected) :
  composites_indexed collected ->
  composites_indexed (collectImageAssets node depth collected) /\
  NoDup (map ref_nodeId (compositeNodes (collectImageAssets node depth collected))).
Proof.
  intros H. pose proof (walk_keeps_indexed node depth collected H) as H'.
  split; [exact H'|]. destruct H' as [[Hnd _] ->]. now apply NoDup_map_VStr.
Qed.

Lemma composite_ids_witness :
  composites_indexed empty_collected /\
  composites_indexed (collectImageAssets twin_instances 0 empty_collected) /\
  NoDup (map ref_nodeId (compositeNodes (collectImageAssets twin_instances 0 empty_collected))).
Proof.
  assert (H : composites_indexed empty_collected).
  { split; [split; constructor | reflexivity]. }
  split; [exact H | exact (composite_ids_are_distinct twin_instances 0 empty_collected H)].
Defined.

Lemma existsb_flat_map {A B : Type} (f : B -> bool) (g : A -> list B) (l : list A) :
  existsb f (flat_map g l) = existsb (fun x => existsb f (g x)) l.
Proof.
  induction l as [|x l IH]; simpl; [reflexivity|]. now rewrite existsb_app, IH.
Qed.

Lemma existsb_Forall_ext {A : Type} (f g : A -> bool) (l : list A) :
  Forall (fun x => f x = g x) l -> existsb f l = existsb g l.
Proof. induction 1 as [|x l Hx _ IH]; simpl; [reflexivity|]. now rewrite Hx, IH. Qed.

Lemma existsb_all_false {A : Type} (f : A -> bool) (l : list A) :
  Forall (fun x => f x = false) l -> existsb f l = false.
Proof. induction 1 as [|x l Hx _ IH]; simpl; [reflexivity|]. now rewrite Hx, IH. Qed.

Lemma subtreeHasImage_eq node d :
  subtreeHasImage node d =
    if Nat.ltb 4 d then false
    else if has_image_fill node then true
    else match node_children node with
         | Some cs => existsb (fun c => subtreeHasImage c (S d)) cs
         | None => false
         end.
Proof. destruct node as [props [cs|]]; reflexivity. Qed.

Lemma nodes_within_eq node k :
  nodes_within node k =
    node :: match k with
            | 0 => []
            | S k' => match node_children node with
                      | Some cs => flat_map (fun c => nodes_within c k') cs
                      | None => []
                      end
            end.
Proof. destruct node as [props [cs|]]; destruct k; reflexivity. Qed.

Lemma subtreeHasImage_scans node :
  forall d, subtreeHasImage node d
            = Nat.leb d 4 && existsb has_image_fill (nodes_within node (4 - d)).
Proof.
  induction node as [props|props cs IH] using Node_nested_ind; intros d;
    rewrite subtreeHasImage_eq, nodes_within_eq; cbn [node_children];
    destruct (Nat.leb_spec d 4) as [Hd|Hd].
  - replace (Nat.ltb 4 d) with false by (symmetry; apply Nat.ltb_ge; lia).
    destruct (4 - d); cbn [andb existsb]; destruct (has_image_fill _); reflexivity.
  - replace (Nat.ltb 4 d) with true by (symmetry; apply Nat.ltb_lt; lia). reflexivity.
  - replace (Nat.ltb 4 d) with false by (symmetry; apply Nat.ltb_ge; lia).
    cbn [andb existsb]. destruct (has_image_fill _); [reflexivity|]. cbn [orb].
    destruct (4 - d) as [|k] eqn:Hk.
    + apply existsb_all_false. eapply Forall_impl; [exact IH|].
      intros c Hc. simpl in Hc. rewrite Hc.
      replace (Nat.leb (S d) 4) with false by (symmetry; apply Nat.leb_gt; lia). reflexivity.
    + rewrite existsb_flat_map. apply existsb_Forall_ext.
      eapply Forall_impl; [exact IH|]. intros c Hc. simpl in Hc. rewrite Hc.
      replace (Nat.leb (S d) 4) with true by (symmetry; apply Nat.leb_le; lia).
      replace (4 - S d) with k by lia. reflexivity.
  - replace (Nat.ltb 4 d) with true by (symmetry; apply Nat.ltb_lt; lia). reflexivity.
Qed.

(** X13. The peek [subtreeHasImage(node, 0)] answers whether the node or one
    of its descendants down to four levels below it has an IMAGE fill with a
    reference, whether or not that descendant is visible; started at level
    [d] it looks [4 - d] levels down, and beyond level 4 it answers no. *)
Theorem subtreeHasImage_looks_four_levels_down (node : Node) (d : nat) :
  subtreeHasImage node d
  = Nat.leb d 4 && existsb has_image_fill (nodes_within node (4 - d)).
Proof. exact (subtreeHasImage_scans node d). Qed.

(** An image four groups below an instance is seen, one five groups below
    is not, and a hidden one is seen as well. *)
Example subtreeHasImage_reach :
  subtreeHasImage (wrap 4 (two_fill_node "h1")) 0 = true /\
  subtreeHasImage (wrap 5 (two_fill_node "h1")) 0 = false /\
  subtreeHasImage (wrap 1 hidden_node) 0 = true.
Proof. repeat split; reflexivity. Qed.

(** ** Asset exporter: what is sent *)

Lemma detectImageFormat_raster bytes :
  existsb (String.eqb (detectImageFormat bytes)) RASTER_FORMATS = true.
Proof.
  unfold detectImageFormat. destruct bytes as [bs|]; [|reflexivity].
  repeat match goal with |- context [if ?b then _ else _] => destruct b end; reflexivity.
Qed.



Lemma omap_Forall {A B : Type} (f : A -> option B) (P : A -> Prop) (Q : B -> Prop)
    (l : list A) :
  (forall x y, P x -> f x = Some y -> Q y) -> Forall P l -> Forall Q (omap f l).
Proof.
  intros H. induction 1 as [|x l Hx _ IH]; csimpl; [constructor|].
  destruct (f x) as [y|] eqn:E; [constructor; [eapply H; eauto | exact IH] | exact IH].
Qed.

Lemma In_take_like {A : Type} (n : nat) (l : list A) (x : A) : In x (take n l) -> In x l.
Proof.
  revert n. induction l as [|y l IH]; intros [|n]; simpl; try tauto.
  intros [->|H]; [now left | right; eauto].
Qed.



Lemma Forall_obj_set (P : JsVal -> Prop) o k v :
  Forall (fun kv => P kv.2) o -> P v -> Forall (fun kv => P kv.2) (obj_set o k v).
Proof.
  intros Ho Hv. induction Ho as [|[k0 v0] o H0 Ho IH]; simpl.
  - constructor; [exact Hv | constructor].
  - destruct (String.eqb k0 k); constructor; simpl; auto.
Qed.

Lemma Forall_obj_get (P : JsVal -> Prop) o k :
  Forall (fun kv => P kv.2) o -> In k (keys o) -> P (obj_get o k).
Proof.
  intros Ho Hin. apply obj_has_In in Hin. revert Hin. unfold obj_has, obj_get.
  induction Ho as [|[k0 v0] o H0 _ IH]; simpl; [discriminate|].
  destruct (String.eqb k0 k); simpl; auto.
Qed.

Lemma walk_keeps_exportable node depth c :
  keeps_exportable c (collectImageAssets node depth c).
Proof.
  apply walk_preserves; unfold keeps_exportable, exportable.
  - auto.
  - auto.
  - intros n c' f _ (Hi & Hv & Hc).
    destruct (collectFill_same_entries n c' f) as (-> & -> & _).
    split; [|auto]. unfold collectFill.
    repeat match goal with |- context [if ?b then _ else _] => destruct b end; try exact Hi.
    cbn [imageHashes].
    apply (Forall_obj_set (fun v => is_info_record v = true)); [exact Hi|].
    unfold is_info_record. cbn [field obj_get].
    destruct (safeStr_string (prop n "id") "") as [i Ei].
    destruct (safeStr_string (prop n "name") "") as [m Em].
    destruct (safeNum_number (prop n "width") 0) as [w Ew].
    destruct (safeNum_number (prop n "height") 0) as [h Eh].
    simpl. rewrite Ei, Em, Ew, Eh. reflexivity.
  - intros n c' _ (Hi & Hv & Hc).
    destruct (collectVector_cases n c') as [->|(_ & _ & _ & Ev & Ec & _)]; [auto|].
    rewrite Ev, Ec, forallb_app, Hv. cbn [forallb].
    rewrite names_its_node_made. repeat split; try assumption.
    unfold collectVector.
    repeat match goal with |- context [if ?b then _ else _] => destruct b end; exact Hi.
  - intros n d c' _ (Hi & Hv & Hc).
    destruct (collectComposite_cases n d c') as [->|(_ & _ & _ & _ & _ & Ev & Ec & _)]; [auto|].
    rewrite Ev, Ec, forallb_app, Hc. cbn [forallb].
    rewrite names_its_node_made. repeat split; try assumption.
    unfold collectComposite.
    repeat match goal with |- context [if ?b then _ else _] => destruct b end; exact Hi.
Qed.

Lemma names_its_node_strings r :
  names_its_node r = true -> exists i n, ref_nodeId r = VStr i /\ ref_nodeName r = VStr n.
Proof.
  unfold names_its_node. destruct (ref_nodeId r); try discriminate.
  destruct (ref_nodeName r); try discriminate. eauto.
Qed.

Lemma is_info_record_fields v :
  is_info_record v = true ->
  exists i n w h, field v "nodeId" = VStr i /\ field v "nodeName" = VStr n /\
                  field v "width" = VNum w /\ field v "height" = VNum h.
Proof.
  unfold is_info_record. intros H.
  apply andb_true_iff in H as [H Hh]. apply andb_true_iff in H as [H Hw].
  apply andb_true_iff in H as [Hi Hn].
  destruct (field v "nodeId"); try discriminate.
  destruct (field v "nodeName"); try discriminate.
  destruct (field v "width"); try discriminate.
  destruct (field v "height"); try discriminate. eauto 10.
Qed.

Lemma export_of_exportable getImageBytes exportAsync c :
  exportable c ->
  Forall (fun v => is_asset_record v = true) (exportImageAssets getImageBytes exportAsync c).
Proof.
  intros (Hi & Hv & Hc). unfold exportImageAssets. rewrite !Forall_app. repeat split.
  - apply omap_Forall with (P := fun h => In h (keys (imageHashes c))).
    + intros h v Hin. unfold exportImageFill. destruct (getImageBytes h) as [bytes|]; [|discriminate].
      intros [= <-]. unfold imageFillAsset.
      destruct (is_info_record_fields _
                  (Forall_obj_get (fun v => is_info_record v = true) _ _ Hi Hin))
        as (i & n & w & h' & -> & -> & -> & ->).
      unfold is_asset_record. now rewrite detectImageFormat_raster.
    + apply List.Forall_forall. intros h Hin. eapply In_take_like; exact Hin.
  - apply omap_Forall with (P := fun r => names_its_node r = true).
    + intros r v Hr. unfold exportVector.
      destruct (exportAsync (ref_node r) ExportSVG) as [bytes|]; [|discriminate].
      intros [= <-]. unfold vectorAsset.
      destruct (names_its_node_strings r Hr) as (i & n & -> & ->).
      destruct (safeNum_number (prop (ref_node r) "width") 0) as [w ->].
      destruct (safeNum_number (prop (ref_node r) "height") 0) as [h ->]. reflexivity.
    + apply List.Forall_forall. intros r Hin. apply In_take_like in Hin.
      rewrite forallb_forall in Hv. now apply Hv.
  - apply omap_Forall with (P := fun r => names_its_node r = true).
    + intros r v Hr. unfold exportComposite.
      destruct (exportAsync (ref_node r) _) as [bytes|]; [|discriminate].
      intros [= <-]. unfold compositeAsset.
      destruct (names_its_node_strings r Hr) as (i & n & -> & ->).
      unfold is_asset_record. now rewrite detectImageFormat_raster.
    + apply List.Forall_forall. intros r Hin. apply In_take_like in Hin.
      rewrite forallb_forall in Hc. now apply Hc.
Qed.

(** X15. Collecting and exporting compose: whatever the tree and whatever
    the host returns, every asset exported from a walk that started on the
    empty accumulator is a complete asset record — the eight fields, strings
    for [id], [data], [nodeId] and [nodeName], numbers for [width] and
    [height], and either [assetType] "image-fill" with [format] png, jpg,
    gif or webp, or [assetType] "vector" with [format] "svg". *)
Theorem exported_assets_are_complete_records
    (getImageBytes : string -> option (list byte))
    (exportAsync : Node -> ExportSettings -> option (list byte))
    (node : Node) (depth : nat) :
  Forall (fun asset => is_asset_record asset = true)
         (exportImageAssets getImageBytes exportAsync
            (collectImageAssets node depth empty_collected)).
Proof.
  apply export_of_exportable. apply walk_keeps_exportable.
  split; [constructor | split; reflexivity].
Qed.

(** ** Relay: file names *)

Lemma sanitize_id_chars id : id_chars_only (sanitize id) = true.
Proof.
  induction id as [|c rest IH]; [reflexivity|]. cbn [sanitize id_chars_only].
  rewrite IH, andb_true_r. destruct (is_id_char c) eqn:E; [exact E | reflexivity].
Qed.

Lemma sanitize_fixes id : id_chars_only id = true -> sanitize id = id.
Proof.
  induction id as [|c rest IH]; [reflexivity|]. cbn [sanitize id_chars_only].
  intros H. apply andb_true_iff in H as [Hc Hr]. now rewrite Hc, (IH Hr).
Qed.

(** X16. [sanitize] yields a name of the same length made of letters,
    digits, '_' and '-' only; it leaves exactly such names unchanged, so it
    is idempotent, and an id and its sanitized form name the same file: ids
    that differ only in replaced characters share one. *)
Theorem sanitize_yields_safe_names (id format : string) :
  id_chars_only (sanitize id) = true /\
  String.length (sanitize id) = String.length id /\
  (sanitize id = id <-> id_chars_only id = true) /\
  sanitize (sanitize id) = sanitize id /\
  getAssetPath (sanitize id) format = getAssetPath id format.
Proof.
  split; [apply sanitize_id_chars|]. split.
  { induction id as [|c rest IH]; [reflexivity|]. simpl. now rewrite IH. }
  split.
  { split; [intros <-; apply sanitize_id_chars | apply sanitize_fixes]. }
  assert (H : sanitize (sanitize id) = sanitize id) by apply sanitize_fixes, sanitize_id_chars.
  split; [exact H|]. unfold getAssetPath. now rewrite H.
Qed.

(** The ids "45:67" and "45_67" name one file. *)
Example sanitize_collides : getAssetPath "45:67" "png" = getAssetPath "45_67" "png".
Proof. reflexivity. Qed.

(** ** Relay: batches *)











(** The file of "45:67" holds what "45_67" wrote. *)
Example colliding_ids_share_a_file :
  (writeAssets [with_filePath (sample_asset "45:67") None;
                {| asset_id := "45_67"; asset_format := "png"; asset_data := "R0lGODdh";
                   asset_nodeId := "2:8"; asset_nodeName := "Logo";
                   asset_width := 10; asset_height := 10;
                   asset_assetType := "image-fill"; asset_filePath := None |}] None).2
  = Some {[ "45_67.png" := RegularFile (BytesOfBase64 "R0lGODdh") ]}.
Proof. vm_compute. reflexivity. Qed.





(** ** Relay: replacing and clearing the selection *)

Lemma clearAssets_entry dir name :
  dir_entry (clearAssets dir) name = kept_by_clear (dir_entry dir name).
Proof.
  destruct dir as [entries|]; [|reflexivity]. unfold clearAssets, dir_entry. simpl.
  destruct (entries !! name) as [[c|]|] eqn:E; simpl.
  - apply map_lookup_filter_None. right. intros x Hx. rewrite E in Hx. injection Hx as <-.
    simpl. discriminate.
  - apply map_lookup_filter_Some. split; [exact E | reflexivity].
  - apply map_lookup_filter_None. left. exact E.
Qed.





(** X20. Clearing the selection empties the relay: [DELETE /selection]
    answers 200, no selection and no image can be read afterwards, the
    regular files of the assets directory are gone, and every batch that
    arrives next, whatever its node id, is rejected (409, or 400 for an
    empty id) and changes nothing. *)
Theorem cleared_relay_rejects_batches
    (st : Relay) (nodeId : string) (assets : list ImageAsset) :
  status (delete_selection st).1 = 200 /\
  SelectionStore.get (delete_selection st).2 = None /\
  (forall id, SelectionStore.getImage id (delete_selection st).2 = None) /\
  (forall name, dir_entry (disk (delete_selection st).2) name
                = kept_by_clear (dir_entry (disk st) name)) /\
  SelectionStore.setImages nodeId assets (delete_selection st).2
  = (false, (delete_selection st).2) /\
  (post_selection_images {| batch_nodeId := Some nodeId; batch_assets := Some assets |}
     (delete_selection st).2).2 = (delete_selection st).2 /\
  status (post_selection_images {| batch_nodeId := Some nodeId; batch_assets := Some assets |}
            (delete_selection st).2).1
  = (if String.eqb nodeId "" then 400 else 409).
Proof.
  split; [reflexivity|]. split; [reflexivity|]. split; [reflexivity|].
  split; [intros name; apply clearAssets_entry|].
  assert (E : SelectionStore.setImages nodeId assets (delete_selection st).2
              = (false, (delete_selection st).2)) by reflexivity.
  split; [exact E|]. unfold post_selection_images. cbn [batch_nodeId batch_assets].
  destruct (String.eqb nodeId ""); [split; reflexivity|]. rewrite E. split; reflexivity.
Qed.



(** ** Plugin: selection handling *)

Lemma serializes_iff_paints_ok node depth :
  succeeds (extractDesignNode node depth)
  = negb (existsb malformed_paint (fills_of node ++ strokes_of node)).
Proof.
  rewrite extractDesignNode_succeeds_eq, !mapM_succeeds, existsb_app, negb_orb. f_equal.
  - induction (fills_of node) as [|p l IH]; simpl; [reflexivity|].
    rewrite (proj1 (extractPaint_cases p)), IH. now rewrite negb_orb.
  - induction (strokes_of node) as [|p l IH]; simpl; [reflexivity|].
    rewrite (proj1 (extractPaint_cases p)), IH. now rewrite negb_orb.
Qed.

Lemma js_or_truthy a b : truthy b = true -> truthy (js_or a b) = true.
Proof. unfold js_or. destruct (truthy a) eqn:E; auto. Qed.

Lemma selectionMetadata_typed node : is_metadata_record (selectionMetadata node) = true.
Proof.
  unfold selectionMetadata.
  destruct (safeStr_string (prop node "name") "") as [n ->].
  destruct (safeStr_string (prop node "type") "") as [t ->].
  destruct (safeNum_number (prop node "width") 0) as [w ->].
  destruct (safeNum_number (prop node "height") 0) as [h ->].
  destruct (safeBool_boolean (prop node "visible") true) as [v ->].
  destruct (truthy (prop node "parent")); [|reflexivity].
  destruct (safeStr_string (field (prop node "parent") "id") "") as [p ->]. reflexivity.
Qed.

(** X22. A selection of one node (with a string id) that is not a repeat,
    or is forced, posts exactly one message at once, a 'selection-changed'
    for that node, and a design tree that fails to serialize does not hold
    it back: the message then carries [null] for the tree, which happens
    exactly when a fill or stroke of the selected node itself is a gradient
    with a [null] or [undefined] stop. Its file and user ids are never empty ("unknown"
    and "anonymous" stand in), and its metadata are two strings, a parent
    id or [null], two numbers and a boolean. *)
Theorem push_survives_a_failing_tree
    (host : Host) (force : bool) (node : Node) (id : string) (st : PluginState) :
  prop node "id" = VStr id ->
  force || negb (strict_eq (VStr id) (lastNodeId st)) = true ->
  exists file user meta tree,
    posted (sendCurrentSelection host force [node] st)
    = [selection_changed file (VStr id) (currentPageId host) user meta tree] /\
    truthy file = true /\ truthy user = true /\
    is_metadata_record meta = true /\
    tree = to_option (extractDesignNode node 0) /\
    (tree = None <-> existsb malformed_paint (fills_of node ++ strokes_of node) = true) /\
    lastNodeId (after (sendCurrentSelection host force [node] st)) = VStr id.
Proof.
  intros Hid H. unfold sendCurrentSelection. rewrite Hid.
  replace (negb force && strict_eq (VStr id) (lastNodeId st)) with false
    by (revert H; destruct force, (strict_eq (VStr id) (lastNodeId st)); simpl;
        congruence).
  cbn [posted after lastNodeId]. do 4 eexists. split; [reflexivity|].
  split; [now apply js_or_truthy|]. split; [now apply js_or_truthy|].
  split; [apply selectionMetadata_typed|]. split; [reflexivity|]. split; [|reflexivity].
  pose proof (serializes_iff_paints_ok node 0) as S.
  revert S. destruct (extractDesignNode node 0); simpl;
    destruct (existsb malformed_paint _); simpl; intros S; split; intros; congruence.
Qed.

Lemma push_survives_witness :
  prop broken_frame "id" = VStr "8:2" /\
  true || negb (strict_eq (VStr "8:2") (lastNodeId idle)) = true /\
  exists file user meta tree,
    posted (sendCurrentSelection local_host true [broken_frame] idle)
    = [selection_changed file (VStr "8:2") (currentPageId local_host) user meta tree] /\
    truthy file = true /\ truthy user = true /\
    is_metadata_record meta = true /\
    tree = to_option (extractDesignNode broken_frame 0) /\
    (tree = None
     <-> existsb malformed_paint (fills_of broken_frame ++ strokes_of broken_frame) = true) /\
    lastNodeId (after (sendCurrentSelection local_host true [broken_frame] idle))
    = VStr "8:2".
Proof.
  split; [reflexivity|]. split; [reflexivity|].
  exact (push_survives_a_failing_tree local_host true broken_frame "8:2" idle eq_refl eq_refl).
Defined.

(** The frame with the malformed gradient is announced without a tree. *)
Example broken_frame_is_announced :
  posted (sendCurrentSelection local_host false [broken_frame] idle)
  = [selection_changed (VStr "unknown") (VStr "8:2") (VStr "0:1") (VStr "anonymous")
       (selectionMetadata broken_frame) None].
Proof. reflexivity. Qed.

Lemma send_single_repeat host node st :
  strict_eq (prop node "id") (lastNodeId st) = true ->
  sendCurrentSelection host false [node] st = {| posted := []; started := None; after := st |}.
Proof. intros H. unfold sendCurrentSelection. now rewrite H. Qed.

Lemma send_single_pushes host force node st :
  force || negb (strict_eq (prop node "id") (lastNodeId st)) = true ->
  length (posted (sendCurrentSelection host force [node] st)) = 1 /\
  after (sendCurrentSelection host force [node] st)
  = {| lastNodeId := prop node "id"; selectionSeq := S (selectionSeq st) |}.
Proof.
  intros H. unfold sendCurrentSelection.
  replace (negb force && strict_eq (prop node "id") (lastNodeId st)) with false
    by (revert H; destruct force, (strict_eq (prop node "id") (lastNodeId st)); simpl;
        congruence).
  split; reflexivity.
Qed.

(** X23. Repeats are dropped until the selection is cleared. For a node
    with a string id: once the node has been handled, an unforced call for
    it posts nothing, starts nothing and changes nothing; a selection of
    several nodes posts one 'multi-selection' with the true count and at
    most five nodes and does not make the handler forget the node; an empty
    selection does, so that the node is announced again when it is selected
    next; and a forced call always announces it. *)
Theorem repeats_are_dropped_until_cleared
    (host : Host) (node : Node) (id : string) (st : PluginState) (force : bool) :
  prop node "id" = VStr id ->
  let handled := after (sendCurrentSelection host force [node] st) in
  sendCurrentSelection host false [node] handled
  = {| posted := []; started := None; after := handled |} /\
  (forall f a b rest,
     exists nodes,
       sendCurrentSelection host f (a :: b :: rest) handled
       = {| posted := [multi_selection (2 + length rest) nodes]; started := None;
            after := handled |} /\
       length nodes = Nat.min 5 (2 + length rest)) /\
  (forall f,
     length (posted (sendCurrentSelection host false [node]
                       (after (sendCurrentSelection host f [] handled)))) = 1) /\
  length (posted (sendCurrentSelection host true [node] handled)) = 1.
Proof.
  intros Hid handled.
  assert (Hlast : lastNodeId handled = VStr id).
  { unfold handled, sendCurrentSelection.
    destruct (negb force && strict_eq (prop node "id") (lastNodeId st)) eqn:E.
    - cbn [after]. apply andb_true_iff in E as [_ E]. rewrite Hid in E.
      destruct (lastNodeId st); try discriminate. simpl in E. apply String.eqb_eq in E.
      now subst.
    - cbn [after lastNodeId]. exact Hid. }
  split; [|split; [|split]].
  - apply send_single_repeat. rewrite Hid, Hlast. simpl. apply String.eqb_refl.
  - intros f a b rest. eexists. split; [reflexivity|].
    rewrite length_map, length_take. simpl length. lia.
  - intros f. apply send_single_pushes. cbn [sendCurrentSelection after lastNodeId].
    now rewrite Hid.
  - now apply send_single_pushes.
Qed.

Lemma repeats_witness :
  prop photo_frame "id" = VStr "8:1" /\
  sendCurrentSelection local_host false [photo_frame]
    (after (sendCurrentSelection local_host false [photo_frame] idle))
  = {| posted := []; started := None;
       after := after (sendCurrentSelection local_host false [photo_frame] idle) |}.
Proof.
  split; [reflexivity|].
  exact (proj1 (repeats_are_dropped_until_cleared local_host photo_frame "8:1" idle false
                  eq_refl)).
Defined.

Lemma send_seq_mono host force selection st :
  selectionSeq st <= selectionSeq (after (sendCurrentSelection host force selection st)).
Proof.
  unfold sendCurrentSelection. destruct selection as [|a [|b rest]]; cbn; try lia.
  destruct (negb force && strict_eq (prop a "id") (lastNodeId st)); cbn; lia.
Qed.

Lemma run_seq_mono host calls st : selectionSeq st <= selectionSeq (run host calls st).
Proof.
  revert st. induction calls as [|c calls IH]; intros st; simpl; [lia|].
  etransitivity; [apply send_seq_mono | apply IH].
Qed.

Lemma send_still_current host id seq force selection st :
  still_current id seq st ->
  still_current id seq (after (sendCurrentSelection host force selection st)).
Proof.
  intros [Hle Hlast]. unfold still_current, sendCurrentSelection.
  destruct selection as [|a [|b rest]]; cbn.
  - split; [exact Hle | auto].
  - destruct (negb force && strict_eq (prop a "id") (lastNodeId st)); cbn.
    + split; assumption.
    + split; [lia | intros; lia].
  - split; assumption.
Qed.

Lemma run_no_single host calls st :
  forallb selects_no_single calls = true ->
  selectionSeq (run host calls st) = selectionSeq st.
Proof.
  revert st. induction calls as [|c calls IH]; intros st; simpl; [reflexivity|].
  intros H. apply andb_true_iff in H as [Hc Hr]. rewrite (IH _ Hr).
  unfold selects_no_single in Hc. unfold sendCurrentSelection.
  destruct (call_selection c) as [|a [|b rest]]; [reflexivity | discriminate | reflexivity].
Qed.

Lemma run_moves_on host id seq calls st :
  still_current id seq st -> existsb (moves_on id) calls = true ->
  seq < selectionSeq (run host calls st).
Proof.
  revert st. induction calls as [|c calls IH]; intros st Hst; simpl; [discriminate|].
  intros H. apply orb_true_iff in H as [Hc|Hr].
  - eapply Nat.lt_le_trans; [|apply run_seq_mono].
    destruct Hst as [Hle Hlast]. unfold moves_on in Hc. unfold sendCurrentSelection.
    destruct (call_selection c) as [|a [|b rest]]; try discriminate.
    destruct (negb (call_force c) && strict_eq (prop a "id") (lastNodeId st)) eqn:E;
      cbn; [|lia].
    apply andb_true_iff in E as [Hf E]. apply negb_true_iff in Hf. rewrite Hf in Hc.
    simpl in Hc. destruct (prop a "id") as [| | | |other| | | | |]; try discriminate.
    apply negb_true_iff in Hc.
    destruct (Nat.eq_dec (selectionSeq st) seq) as [Heq|Hne]; [|lia].
    destruct (Hlast Heq) as [L|L]; rewrite L in E; simpl in E; congruence.
  - apply IH; [|exact Hr]. now apply send_still_current.
Qed.

(** X24. An export belongs to the push that started it. For a node with a
    string id whose push started an export: when the export resolves with
    the globals as the push left them, or after any number of empty and
    multiple selections, its assets (if any) are posted in one
    'images-extracted' stamped with the node's id — deselecting does not
    cancel it; once a call has selected another single node or forced a
    push, it posts nothing, whatever came before or after that call. *)
Theorem export_belongs_to_its_push
    (getImageBytes : string -> option (list byte))
    (exportAsync : Node -> ExportSettings -> option (list byte))
    (host : Host) (force : bool) (node : Node) (id : string)
    (st : PluginState) (p : PendingExport) :
  prop node "id" = VStr id ->
  started (sendCurrentSelection host force [node] st) = Some p ->
  let pushed := after (sendCurrentSelection host force [node] st) in
  let assets :=
    exportImageAssets getImageBytes exportAsync (collectImageAssets node 0 empty_collected) in
  resolveExport getImageBytes exportAsync p pushed
  = match assets with [] => [] | _ => [images_extracted (VStr id) assets] end /\
  (forall calls,
     forallb selects_no_single calls = true ->
     resolveExport getImageBytes exportAsync p (run host calls pushed)
     = resolveExport getImageBytes exportAsync p pushed) /\
  (forall calls,
     existsb (moves_on id) calls = true ->
     resolveExport getImageBytes exportAsync p (run host calls pushed) = []).
Proof.
  intros Hid Hp pushed assets.
  assert (Hshape : p = {| mySeq := S (selectionSeq st); capturedNodeId := VStr id;
                          exporting := collectImageAssets node 0 empty_collected |}
                   /\ pushed = {| lastNodeId := VStr id; selectionSeq := S (selectionSeq st) |}).
  { unfold pushed. revert Hp. unfold sendCurrentSelection.
    destruct (negb force && strict_eq (prop node "id") (lastNodeId st));
      cbn [started after]; [discriminate|].
    destruct (Nat.ltb 0 (asset_count (collectImageAssets node 0 empty_collected)));
      [|discriminate].
    intros [= <-]. now rewrite Hid. }
  destruct Hshape as [-> Hpushed]. split; [|split].
  - rewrite Hpushed. unfold resolveExport. cbn [mySeq capturedNodeId exporting selectionSeq].
    fold assets. rewrite Nat.eqb_refl, andb_true_r. destruct assets; reflexivity.
  - intros calls Hc. unfold resolveExport. now rewrite (run_no_single host calls pushed Hc).
  - intros calls Hc. unfold resolveExport. cbn [mySeq].
    assert (Hlt : S (selectionSeq st) < selectionSeq (run host calls pushed)).
    { apply run_moves_on with (id := id); [|exact Hc]. rewrite Hpushed. split; cbn; auto. }
    replace (Nat.eqb (S (selectionSeq st)) (selectionSeq (run host calls pushed))) with false
      by (symmetry; apply Nat.eqb_neq; lia).
    now rewrite andb_false_r.
Qed.

Lemma export_witness :
  prop photo_frame "id" = VStr "8:1" /\
  started (sendCurrentSelection local_host false [photo_frame] idle)
  = Some {| mySeq := 1; capturedNodeId := VStr "8:1";
            exporting := collectImageAssets photo_frame 0 empty_collected |} /\
  resolveExport (fun _ => Some []) (fun _ _ => None)
    {| mySeq := 1; capturedNodeId := VStr "8:1";
       exporting := collectImageAssets photo_frame 0 empty_collected |}
    (run local_host [mkCall false []; mkCall false [other_frame]]
       (after (sendCurrentSelection local_host false [photo_frame] idle)))
  = [].
Proof.
  split; [reflexivity|]. split; [reflexivity|].
  exact (proj2 (proj2 (export_belongs_to_its_push (fun _ => Some []) (fun _ _ => None)
                         local_host false photo_frame "8:1" idle _ eq_refl eq_refl))
           [mkCall false []; mkCall false [other_frame]] eq_refl).
Defined.

(** The images of a node still arrive after it was deselected. *)
Example export_survives_deselection :
  resolveExport (fun _ => Some []) (fun _ _ => None)
    {| mySeq := 1; capturedNodeId := VStr "8:1";
       exporting := collectImageAssets photo_frame 0 empty_collected |}
    (run local_host [mkCall false []]
       (after (sendCurrentSelection local_host false [photo_frame] idle)))
  = [images_extracted (VStr "8:1")
       [VObj [("id", VStr "h1"); ("format", VStr "png"); ("data", VStr "");
              ("nodeId", VStr "8:1"); ("nodeName", VStr "Photo");
              ("width", VNum 100); ("height", VNum 50);
              ("assetType", VStr "image-fill")]]].
Proof. vm_compute. reflexivity. Qed.

(** ** Content types *)

(** X25. Whatever bytes the plugin sniffs, the relay names the media type
    of the sniffed format: for png, jpg, gif and webp the HTTP fallback and
    the tool both answer image/png, image/jpeg, image/gif and image/webp;
    the two agree on every format the plugin produces, though not on
    "jpeg", which only the HTTP table knows. *)
Theorem sniffed_format_has_its_media_type (bytes : option (list byte)) :
  serveFromMemory_type (detectImageFormat bytes)
  = VStr (media_type (detectImageFormat bytes)) /\
  tool_mimeType (detectImageFormat bytes) = VStr (media_type (detectImageFormat bytes)) /\
  serveFromMemory_type "jpeg" <> tool_mimeType "jpeg".
Proof.
  assert (H : forall f, existsb (String.eqb f) RASTER_FORMATS = true ->
                        serveFromMemory_type f = VStr (media_type f) /\
                        tool_mimeType f = VStr (media_type f)).
  { intros f Hf. simpl in Hf.
    repeat (apply orb_true_iff in Hf as [Hf|Hf];
            [apply String.eqb_eq in Hf; subst f; split; reflexivity|]).
    discriminate. }
  destruct (H _ (detectImageFormat_raster bytes)) as [H1 H2].
  split; [exact H1|]. split; [exact H2|]. discriminate.
Qed.

(** ** Output file name *)

Lemma keep_name_chars_kept s :
  forall_chars (fun c => is_word_char c || is_space_char c || is_hyphen c)
               (keep_name_chars s) = true.
Proof.
  induction s as [|c s IH]; simpl; [reflexivity|].
  destruct (is_word_char c || is_space_char c || is_hyphen c) eqn:E; simpl; [|exact IH].
  now rewrite E.
Qed.

Lemma hyphenate_no_space b s :
  forall_chars (fun c => is_word_char c || is_space_char c || is_hyphen c) s = true ->
  forall_chars (fun c => is_word_char c || is_hyphen c) (hyphenate b s) = true.
Proof.
  revert b. induction s as [|c s IH]; intros b; simpl; [reflexivity|].
  intros H. apply andb_true_iff in H as [Hc Hs].
  destruct (is_space_char c) eqn:E.
  - destruct b; simpl; auto.
  - simpl. rewrite (IH false Hs), andb_true_r.
    revert Hc. destruct (is_word_char c), (is_hyphen c); simpl; congruence.
Qed.

Lemma lower_char_slug c :
  is_word_char c || is_hyphen c = true -> is_slug_char (lower_char c) = true.
Proof. destruct c as [[] [] [] [] [] [] [] []]; vm_compute; congruence. Qed.

Lemma lower_char_fixed c : is_slug_char c = true -> lower_char c = c.
Proof. destruct c as [[] [] [] [] [] [] [] []]; vm_compute; congruence. Qed.

Lemma slug_char_kept c :
  is_slug_char c = true ->
  is_word_char c || is_space_char c || is_hyphen c = true /\ is_space_char c = false.
Proof. destruct c as [[] [] [] [] [] [] [] []]; vm_compute; split; congruence. Qed.

Lemma toLowerCase_slug s :
  forall_chars (fun c => is_word_char c || is_hyphen c) s = true ->
  slug_chars_only (toLowerCase s) = true.
Proof.
  unfold slug_chars_only. induction s as [|c s IH]; simpl; [reflexivity|].
  intros H. apply andb_true_iff in H as [Hc Hs]. now rewrite (lower_char_slug c Hc), (IH Hs).
Qed.

Lemma substring_forall_chars p n s :
  forall_chars p s = true -> forall_chars p (String.substring 0 n s) = true.
Proof.
  revert s. induction n as [|n IH]; intros [|c s]; simpl; try reflexivity.
  intros H. apply andb_true_iff in H as [Hc Hs]. now rewrite Hc, (IH s Hs).
Qed.

Lemma substring_length_le n s : String.length (String.substring 0 n s) <= n.
Proof.
  revert s. induction n as [|n IH]; intros [|c s]; simpl; try lia.
  specialize (IH s). lia.
Qed.

Lemma substring_all n s : String.length s <= n -> String.substring 0 n s = s.
Proof.
  revert s. induction n as [|n IH]; intros [|c s]; simpl; try reflexivity; try lia.
  intros H. rewrite IH; [reflexivity | lia].
Qed.

Lemma safeName_is_slug nodeName :
  slug_chars_only (safeName nodeName) = true /\ String.length (safeName nodeName) <= 40.
Proof.
  unfold safeName. split; [|apply substring_length_le].
  apply substring_forall_chars. apply toLowerCase_slug. apply hyphenate_no_space.
  apply keep_name_chars_kept.
Qed.

Lemma safeName_fixes_slugs s :
  slug_chars_only s = true -> String.length s <= 40 -> safeName s = s.
Proof.
  intros Hs Hlen. unfold safeName.
  assert (E : toLowerCase (hyphenate false (keep_name_chars s)) = s).
  { clear Hlen. generalize false. unfold slug_chars_only in Hs.
    induction s as [|c s IH]; intros b; simpl; [reflexivity|].
    simpl in Hs. apply andb_true_iff in Hs as [Hc Hr].
    destruct (slug_char_kept c Hc) as [Hk Hnsp]. rewrite Hk. simpl. rewrite Hnsp. simpl.
    now rewrite (lower_char_fixed c Hc), (IH Hr false). }
  rewrite E. now apply substring_all.
Qed.

(** X26. The name of the generated file is always a plain file name (shown
    for node names of code units below 256): it is "figma-", a stem and
    ".html", where the stem is never empty, has at most
    40 characters and holds only lower-case letters, digits, '_' and '-' —
    no separator, dot or blank, whatever the node is called; a node name
    that is such a stem already is kept as it is, and a name without any
    usable character gives "output". *)
Theorem fileName_is_a_plain_name (nodeName : string) :
  exists stem,
    fileName nodeName = "figma-" +:+ stem +:+ ".html" /\
    stem <> "" /\ String.length stem <= 40 /\ slug_chars_only stem = true /\
    (slug_chars_only nodeName = true -> nodeName <> "" -> String.length nodeName <= 40 ->
     stem = nodeName) /\
    (safeName nodeName = "" -> stem = "output").
Proof.
  destruct (safeName_is_slug nodeName) as [Hslug Hlen]. unfold fileName.
  destruct (String.eqb_spec (safeName nodeName) "") as [E|E].
  - exists "output". split; [reflexivity|]. split; [discriminate|].
    split; [simpl; lia|]. split; [reflexivity|]. split; [|reflexivity].
    intros Hs Hne Hl. rewrite (safeName_fixes_slugs nodeName Hs Hl) in E. contradiction.
  - exists (safeName nodeName). split; [reflexivity|]. split; [exact E|].
    split; [exact Hlen|]. split; [exact Hslug|]. split; [|contradiction].
    intros Hs _ Hl. now apply safeName_fixes_slugs.
Qed.

(** A name made to climb out of the output directory stays inside it. *)
Example fileName_samples :
  fileName "../../etc/passwd" = "figma-etcpasswd.html" /\
  fileName "Hero  Section / v2" = "figma-hero-section-v2.html" /\
  fileName "***" = "figma-output.html".
Proof. repeat split; reflexivity. Qed.
